(** * WhenInRome: a shallow embedding of the search-and-cache engine

    The development follows [WhenInRome.py]: the assembly of the canonical
    source sample ([InputSourceCode]), the disk cache ([FileCache]) and the
    greedy selection loop ([experimentForOption], [main]).

    Modelling conventions.
    - The dump directory is a finite map from paths (lists of components
      below [dumpDir]) to nodes; a node is a regular file with its text or a
      directory.  Path components are atoms: a candidate name is assumed to
      be usable as one component.
    - YAML scalars (candidate values, option keys) are represented by their
      text, so [str(val)] is the identity.
    - A Python [dict] is an insertion-ordered association list with unique
      keys; dict objects live in a store and are passed around by reference,
      since [experimentForOption] mutates its [baseStyle] argument in place.
    - The external programs (the formatter and [diff -u]) and the two
      serializers ([json.dumps], [yaml.dump]) are parameters of the
      development.  The oracles are functions of the texts they are given,
      which is the interface the specification fixes for them.
    - The script opens its files in text mode: what it reads with
      [open(path, 'r')] (the input files, the old sample) has every
      carriage return, with the line feed that may follow it, turned into
      one line feed; what it writes is written as it is.  The external
      programs read the bytes of their files.  Option keys and serialized
      styles are taken to hold no carriage return, so that a signature
      file reads back as it was written.
    - A command line is run as the command the source means when every
      path put into it reaches the shell as one word; the properties that
      depend on what a command reads or writes state this for the names
      and directories involved ([plain_name], [shell_word]).
    - Progress messages written to standard output are not modelled; the
      fatal error message and the final dump of the style are. *)

From Stdlib Require Import Ascii.
From stdpp Require Import base strings list sorting gmap pretty.

Open Scope string_scope.
Open Scope list_scope.

(** ** Python dictionaries *)

Definition pydict (V : Type) : Type := list (string * V).

(** [d[k] = v]: an existing key keeps its position, a new key is appended. *)
Fixpoint dict_set {V} (d : pydict V) (k : string) (v : V) : pydict V :=
  match d with
  | [] => [(k, v)]
  | (k', v') :: d' =>
      if decide (k' = k) then (k', v) :: d' else (k', v') :: dict_set d' k v
  end.

Fixpoint dict_get {V} (d : pydict V) (k : string) : option V :=
  match d with
  | [] => None
  | (k', v') :: d' => if decide (k' = k) then Some v' else dict_get d' k
  end.

Definition dict_keys {V} (d : pydict V) : list string := d.*1.

(** [d.update(o)] *)
Definition dict_update {V} (d o : pydict V) : pydict V :=
  foldl (λ acc kv, dict_set acc kv.1 kv.2) d o.

(** A style maps option keys to values. *)
Definition style : Type := pydict string.

(** A candidate of the option file: a bare value, or a dict whose first
    item gives the alias and the override mapping. *)
Inductive candidate : Type :=
  | Bare (v : string)
  | Alias (d : pydict style).

(** ** Text and lines *)

Definition newline : ascii := "010"%char.
Definition nl : string := String newline "".

(** [f.readlines()]: the lines of a text, each keeping its terminator. *)
Fixpoint readlines (s : string) : list string :=
  match s with
  | "" => []
  | String c s' =>
      if decide (c = newline) then nl :: readlines s'
      else match readlines s' with
           | [] => [String c ""]
           | l :: ls => String c l :: ls
           end
  end.

(** [''.join(lines)] and [f.writelines(lines)] *)
Definition join (ls : list string) : string := foldr String.app "" ls.

(** Reading in text mode (universal newlines): a carriage return becomes
    a line feed, and a line feed that directly follows a carriage return
    is dropped.  [after_cr] tells whether the previous character was a
    carriage return. *)
Definition cr : ascii := "013"%char.

Fixpoint translate_from (after_cr : bool) (s : string) : string :=
  match s with
  | "" => ""
  | String c s' =>
      if decide (c = cr) then String newline (translate_from true s')
      else if decide (c = newline) then
        if after_cr then translate_from false s'
        else String newline (translate_from false s')
      else String c (translate_from false s')
  end.

Definition universal_newlines (s : string) : string := translate_from false s.

(** The characters that are safe in an unquoted shell word and in a file
    name: letters, digits and a few marks. *)
Definition plain_char (c : ascii) : bool :=
  let n := nat_of_ascii c in
  (bool_decide (48 ≤ n ≤ 57) || bool_decide (65 ≤ n ≤ 90)
   || bool_decide (97 ≤ n ≤ 122))%nat
  || bool_decide (c ∈ ["_"; "-"; "."; "+"; ","; ":"; "@"]%char).

Fixpoint all_chars (P : ascii → bool) (s : string) : bool :=
  match s with
  | "" => true
  | String c s' => P c && all_chars P s'
  end.

(** A name that is one path component and one shell word. *)
Definition plain_name (v : string) : bool :=
  bool_decide (v ≠ "" ∧ v ≠ "." ∧ v ≠ "..") && all_chars plain_char v.

(** A path that is one shell word. *)
Definition shell_word (p : string) : bool :=
  bool_decide (p ≠ "")
  && all_chars (λ c, plain_char c || bool_decide (c = "/"%char)) p.

(** ** The dump directory *)

Definition path : Type := list string.

Inductive node : Type :=
  | File (content : string)
  | Dir.

Global Instance node_eq_dec : EqDecision node.
Proof. solve_decision. Defined.

Abbreviation FS := (gmap path node).

Definition path_exists (f : FS) (p : path) : bool :=
  bool_decide (is_Some (f !! p)).

(** [os.path.getsize]; a directory has a positive size. *)
Definition getsize (f : FS) (p : path) : nat :=
  match f !! p with
  | Some (File c) => String.length c
  | Some Dir => 4096
  | None => 0
  end.

Definition file_content (f : FS) (p : path) : option string :=
  match f !! p with
  | Some (File c) => Some c
  | _ => None
  end.

Definition is_dir (f : FS) (p : path) : bool :=
  bool_decide (f !! p = Some Dir).

Definition is_file (f : FS) (p : path) : bool :=
  match f !! p with
  | Some (File _) => true
  | _ => false
  end.

Definition parent (p : path) : path := take (length p - 1) p.

(** All prefixes of a path, the dump directory itself ([[]]) first. *)
Fixpoint inits (p : path) : list path :=
  [] :: match p with
        | [] => []
        | x :: p' => (x ::.) <$> inits p'
        end.

(** [os.makedirs(p)], called only when [p] does not exist: fails when a
    component of [p] is a regular file. *)
Definition makedirs (p : path) (f : FS) : option FS :=
  if existsb (is_file f) (inits p) then None
  else Some (foldr (λ q acc, <[q := Dir]> acc) f (inits p)).

(** [open(p, 'w')] followed by [write(c)]: the parent must be a directory
    and [p] itself must not be one. *)
Definition write_file (p : path) (c : string) (f : FS) : option FS :=
  if is_dir f (parent p) && negb (is_dir f p) then Some (<[p := File c]> f)
  else None.

(** [shutil.rmtree(p)]: [p] must be a directory; it goes with all below. *)
Definition rmtree (p : path) (f : FS) : option FS :=
  if is_dir f p then Some (filter (λ kv, ¬ p `prefix_of` kv.1) f)
  else None.

(** A shell command [... > p]: when the shell cannot open [p] the command
    does not run and nothing changes; no exception reaches the script. *)
Definition shell_redirect (p : path) (out : string) (f : FS) : FS :=
  default f (write_file p out f).

(** ** Program state *)

Inductive event : Type :=
  | EvFormat (cwd : path)       (* one formatter process, run in [cwd] *)
  | EvDiff (diffFilename : path). (* one diff process writing this file *)

Global Instance event_eq_dec : EqDecision event.
Proof. solve_decision. Defined.

Inductive error : Type :=
  | SystemExit (code : nat) (message : string)
  | AssertionError
  | IndexError
  | OSError (p : path).

Abbreviation loc := nat (only parsing).

Record state : Type := mkState {
  fs : FS;                 (* the dump directory *)
  heap : list style;       (* the dict objects, by reference *)
  cache_iter : nat;        (* FileCache._iter *)
  cache_dirty : bool;      (* FileCache._cacheDirty *)
  trace : list event       (* the child processes spawned so far *)
}.

Definition set_fs (f : FS) (s : state) : state :=
  mkState f (heap s) (cache_iter s) (cache_dirty s) (trace s).
Definition set_heap (h : list style) (s : state) : state :=
  mkState (fs s) h (cache_iter s) (cache_dirty s) (trace s).
Definition set_iter (n : nat) (s : state) : state :=
  mkState (fs s) (heap s) n (cache_dirty s) (trace s).
Definition set_dirty (b : bool) (s : state) : state :=
  mkState (fs s) (heap s) (cache_iter s) b (trace s).
Definition log (e : event) (s : state) : state :=
  mkState (fs s) (heap s) (cache_iter s) (cache_dirty s) (trace s ++ [e]).

Inductive outcome (A : Type) : Type :=
  | Ok (a : A) (s : state)
  | Raise (e : error) (s : state).
Arguments Ok {A} a s.
Arguments Raise {A} e s.

Definition M (A : Type) : Type := state → outcome A.

Global Instance M_ret : MRet M := λ A a s, Ok a s.
Global Instance M_bind : MBind M := λ A B k m s,
  match m s with
  | Ok a s' => k a s'
  | Raise e s' => Raise e s'
  end.
Definition raise {A} (e : error) : M A := λ s, Raise e s.
Definition get_state : M state := λ s, Ok s s.
Definition modify (g : state → state) : M unit := λ s, Ok tt (g s).

(** A file-system operation that raises [OSError] when it fails. *)
Definition fs_op (p : path) (op : FS → option FS) : M unit :=
  λ s, match op (fs s) with
       | Some f' => Ok tt (set_fs f' s)
       | None => Raise (OSError p) s
       end.

(** [for x in l: body x] *)
Fixpoint for_each {A} (l : list A) (body : A → M unit) : M unit :=
  match l with
  | [] => mret tt
  | x :: l' => body x;; for_each l' body
  end.

(** ** Scoring and selection (pure parts of [experimentForOption]) *)

(** The pattern of line 267 reaches grep as [^[\+\-]]; inside a bracket
    expression a backslash stands for itself. *)
Definition grep_match (l : string) : bool :=
  match l with
  | String c _ =>
      bool_decide (c = "\"%char ∨ c = "+"%char ∨ c = "-"%char)
  | "" => false
  end.

(** [grep -e ... | wc -l] on a text. *)
Definition grep_count (text : string) : nat :=
  length (filter (λ l, grep_match l = true) (readlines text)).

(** [results.sort(key=lambda x: x[0])]: a stable sort on the score. *)
Fixpoint sort_insert (x : nat * string) (l : list (nat * string)) :
    list (nat * string) :=
  match l with
  | [] => [x]
  | y :: l' => if decide (x.1 ≤ y.1)%nat then x :: y :: l' else y :: sort_insert x l'
  end.

Definition sort_results (l : list (nat * string)) : list (nat * string) :=
  foldr sort_insert [] l.

(** Lines 273-279: [minVal], [maxVal], the first sorted record's name,
    and the two flags; [None] stands for the [IndexError] of [results[0]]. *)
Record decision : Type := mkDecision {
  minVal : nat;
  maxVal : nat;
  winner : string;
  lowConfidence : bool;
  ignore : bool
}.

Definition decide_option (results : list (nat * string))
    (numLines prevScore : nat) : option decision :=
  let sorted := sort_results results in
  match head sorted, last sorted with
  | Some r0, Some rn =>
      Some (mkDecision r0.1 rn.1 r0.2
              (bool_decide (numLines < r0.1)%nat)
              (bool_decide (r0.1 = rn.1) || bool_decide (prevScore ≤ r0.1)%nat))
  | _, _ => None
  end.

(** ** A sample instance of the external collaborators

    Used to run the model on concrete inputs. *)

Module Sample.

Definition dq : string := String "034"%char "".

(** [json.dumps] of a dict of strings. *)
Fixpoint json_items (d : style) : string :=
  match d with
  | [] => ""
  | [(k, v)] => dq +:+ k +:+ dq +:+ ": " +:+ dq +:+ v +:+ dq
  | (k, v) :: d' =>
      dq +:+ k +:+ dq +:+ ": " +:+ dq +:+ v +:+ dq +:+ ", " +:+ json_items d'
  end.
Definition json_dumps (d : style) : string := "{" +:+ json_items d +:+ "}".

(** A block-style rendering of a dict of strings, one item per line. *)
Definition yaml_dump (d : style) : string :=
  match d with
  | [] => "{}" +:+ nl
  | _ => join ((λ kv, kv.1 +:+ ": " +:+ kv.2 +:+ nl) <$> d)
  end.

(** A formatter given by a table from style descriptors to outputs; it
    leaves the source as it is under any other descriptor and prints
    nothing when it finds no descriptor. *)
Definition clang_format (table : pydict string) (descriptor : option string)
    (assume src : string) : string :=
  match descriptor with
  | Some d => default src (dict_get table d)
  | None => ""
  end.

(** A unified diff with one hunk that replaces all lines; no output for
    equal texts. *)
Definition diff_u (a b : string) : string :=
  if decide (a = b) then ""
  else "--- a" +:+ nl +:+ "+++ b" +:+ nl +:+ "@@ @@" +:+ nl
       +:+ join ((λ l, "-" +:+ l) <$> readlines a)
       +:+ join ((λ l, "+" +:+ l) <$> readlines b).

Definition dumpDir : string := "./tmp".
Definition ext : string := ".c".
Definition workDir : string := "/home/user/project".

(** A one-line source file. *)
Definition source : string := "int x;" +:+ nl.

(** With tabs the line is indented by one; the trailing blank line goes. *)
Definition useTab_table : pydict string :=
  [(yaml_dump [("UseTab", "Always")], String "009"%char ("int x;" +:+ nl))].

Definition useTab_option : pydict (list candidate) :=
  [("UseTab", [Bare "Never"; Bare "Always"])].

(** A declaration of one long line, and what the formatter makes of it
    under two narrow column limits. *)
Definition wide_source : string :=
  "int f(int a, int b, int c, int d, int e, int g);" +:+ nl.

Definition columnLimit_table : pydict string :=
  [(yaml_dump [("ColumnLimit", "16")],
    "int f(int a," +:+ nl +:+ "      int b," +:+ nl +:+ "      int c," +:+ nl
    +:+ "      int d," +:+ nl +:+ "      int e," +:+ nl +:+ "      int g);"
    +:+ nl);
   (yaml_dump [("ColumnLimit", "8")],
    "int" +:+ nl +:+ "f(int a," +:+ nl +:+ "  int b," +:+ nl +:+ "  int c,"
    +:+ nl +:+ "  int d," +:+ nl +:+ "  int e," +:+ nl +:+ "  int g);" +:+ nl)].

Definition columnLimit_option : pydict (list candidate) :=
  [("ColumnLimit", [Bare "16"; Bare "8"])].

(** An option the formatter rejects: it prints nothing. *)
Definition bogus_table : pydict string :=
  [(yaml_dump [("Bogus", "yes")], "")].

(** A diff that ends with the marker for a missing final newline. *)
Definition diff_without_final_newline : string :=
  "--- a" +:+ nl +:+ "+++ b" +:+ nl +:+ "@@ -1 +1 @@" +:+ nl
  +:+ "-int x;" +:+ nl +:+ "+int  x;" +:+ nl
  +:+ "\ No newline at end of file" +:+ nl.

End Sample.

Definition outcome_state {A} (o : outcome A) : state :=
  match o with
  | Ok _ s => s
  | Raise _ s => s
  end.

(** ** The program *)

Section WhenInRome.

(** [args.dumpDir] and the extension of the first input file. *)
Variable dumpDir : string.
Variable ext : string.

(** The working directory of the process, which [os.path.abspath] puts
    before [dumpDir]. *)
Variable workDir : string.

(** The formatter, given the style descriptor found in its working
    directory, the assumed file name and the source text on its standard
    input; its standard output is the result. *)
Variable clang_format : option string → string → string → string.

(** [diff -u original formatted]; the output is empty when the operands
    cannot be read. *)
Variable diff_u : string → string → string.

Variable json_dumps : style → string.
Variable yaml_dump : style → string.

Set Default Proof Using "Type".

(** Drops the collaborators from the context of a proof that does not
    concern them, so that automation cannot pick them up. *)
Ltac clear_oracles :=
  try clear dumpDir; try clear ext; try clear workDir;
  try clear clang_format;
  try clear diff_u; try clear json_dumps; try clear yaml_dump.

(** [os.path.join(dumpDir, ...)], for messages. *)
Definition render (p : path) : string :=
  foldl (λ acc c, acc +:+ "/" +:+ c) dumpDir p.

(** *** The store of dict objects *)

(** A reference always denotes an object in Python; [IndexError] on a
    dangling one only keeps the model total. *)
Definition deref (l : loc) : M style :=
  λ s, match heap s !! l with
       | Some d => Ok d s
       | None => Raise IndexError s
       end.

Definition alloc (d : style) : M loc :=
  λ s, Ok (length (heap s)) (set_heap (heap s ++ [d]) s).

Definition store (l : loc) (d : style) : M unit :=
  modify (λ s, set_heap (<[l := d]> (heap s)) s).

(** [copy.deepcopy(l)]: the values of a style are immutable scalars. *)
Definition deepcopy (l : loc) : M loc := d ← deref l; alloc d.

(** *** InputSourceCode *)

Record InputSourceCode : Type := mkInput {
  baseFilename : string;
  absPath : path;
  numLines : nat;
  dirty : bool
}.

(** [InputSourceCode.__init__]; [inputFiles] holds the content of each
    input file, which lies outside the dump directory. *)
Definition InputSourceCode_init (inputFiles : list string) :
    M InputSourceCode :=
  if decide (inputFiles = []) then raise AssertionError else
  let baseFilename := "input" +:+ ext in
  let absPath := [baseFilename] in
  s ← get_state;
  (if path_exists (fs s) [] then mret tt else fs_op [] (makedirs []));;
  s ← get_state;
  let oldContent :=
    match file_content (fs s) absPath with
    | Some c => readlines (universal_newlines c)
    | None => []
    end in
  let allLines :=
    concat ((λ c, readlines (universal_newlines c) ++ [nl]) <$> inputFiles) in
  fs_op absPath (write_file absPath (join allLines));;
  mret (mkInput baseFilename absPath (length allLines)
          (bool_decide (oldContent ≠ allLines))).

(** *** FileCache *)

Definition fmtName : string := "formatted" +:+ ext.

Definition FileCache_init (inputSC : InputSourceCode) : M unit :=
  modify (λ s, set_dirty (dirty inputSC) (set_iter 0 s)).

(** The path accessors; [n] is [self._iter]. *)
Definition iterName (n : nat) : string := "iter" +:+ pretty n.
Definition iterDir (n : nat) : path := [iterName n].
Definition getFullFilename (n : nat) (baseFilename : string) : path :=
  iterDir n ++ [baseFilename].
Definition getFullFilename2 (n : nat) (subdir baseFilename : string) : path :=
  iterDir n ++ [subdir; baseFilename].
Definition getFmtFilename (n : nat) (value : string) : path :=
  getFullFilename2 n value fmtName.
Definition getDiffFilename (n : nat) (value : string) : path :=
  getFullFilename2 n value "formatted.diff".
Definition getStyleFilename (n : nat) (value : string) : path :=
  getFullFilename2 n value ".clang-format".
Definition getValueDir (n : nat) (value : string) : path :=
  iterDir n ++ [value].

Definition nonempty_at (f : FS) (p : path) : bool :=
  path_exists f p && bool_decide (0 < getsize f p)%nat.

Definition hasFmtCache (s : state) (value : string) : bool :=
  nonempty_at (fs s) (getFmtFilename (cache_iter s) value).

Definition hasDiffCache (s : state) (value : string) : bool :=
  nonempty_at (fs s) (getDiffFilename (cache_iter s) value).

Definition ensureIterFolderExists : M unit :=
  s ← get_state;
  let fullPath := iterDir (cache_iter s) in
  if path_exists (fs s) fullPath then mret tt
  else fs_op fullPath (makedirs fullPath).

Definition readIterFileContent (baseFilename : string) : M string :=
  s ← get_state;
  let fullPath := getFullFilename (cache_iter s) baseFilename in
  if path_exists (fs s) fullPath then
    match file_content (fs s) fullPath with
    | Some c => mret (join (readlines c))
    | None => raise (OSError fullPath)
    end
  else mret "".

Definition writeIterFile (baseFilename content : string) : M unit :=
  s ← get_state;
  let fullPath := getFullFilename (cache_iter s) baseFilename in
  fs_op fullPath (write_file fullPath content).

(** Lines 120-124 *)
Definition checkDirty (key baseStyleStr : string) : M unit :=
  s ← get_state;
  if cache_dirty s then mret tt
  else
    cachedBaseStyle ← readIterFileContent "baseStyle";
    cachedKey ← readIterFileContent "key";
    if bool_decide (cachedBaseStyle ≠ baseStyleStr)
       || bool_decide (cachedKey ≠ key)
    then modify (set_dirty true) else mret tt.

(** Lines 127-130 *)
Definition removeIfDirty : M unit :=
  s ← get_state;
  if cache_dirty s then
    let dirPath := iterDir (cache_iter s) in
    fs_op dirPath (rmtree dirPath);; ensureIterFolderExists
  else mret tt.

(** The body of the loop of lines 138-141. *)
Definition ensureValueDir (val : string) : M unit :=
  s ← get_state;
  let dirPath := getValueDir (cache_iter s) val in
  if path_exists (fs s) dirPath then mret tt
  else fs_op dirPath (makedirs dirPath).

Definition startIteration (key : string) (baseStyle : loc)
    (values : list string) : M unit :=
  modify (λ s, set_iter (S (cache_iter s)) s);;
  ensureIterFolderExists;;
  d ← deref baseStyle;
  let baseStyleStr := json_dumps d in
  (* Check if the cache is dirty *)
  checkDirty key baseStyleStr;;
  (* If the cache is dirty, remove all the files from this folder *)
  removeIfDirty;;
  (* Save the settings for the iteration *)
  writeIterFile "key" key;;
  writeIterFile "baseStyle" baseStyleStr;;
  (* Create subfolders for each value *)
  for_each values ensureValueDir.

Definition writeStyleFile (value : string) (st : loc) : M unit :=
  s ← get_state;
  let filename := getStyleFilename (cache_iter s) value in
  if path_exists (fs s) filename then mret tt
  else
    d ← deref st;
    let content := yaml_dump d in
    fs_op filename (write_file filename content).

(** *** experimentForOption *)

(** Lines 216-224: the names of the values and their styles; [None]
    stands for the [IndexError] raised on an empty dict. *)
Fixpoint resolveValues (key : string) (values : list candidate)
    (valNamesAndStyles : pydict style) : option (pydict style) :=
  match values with
  | [] => Some valNamesAndStyles
  | Bare v :: rest =>
      resolveValues key rest (dict_set valNamesAndStyles v [(key, v)])
  | Alias [] :: rest => None
  | Alias ((vkey, vval) :: _) :: rest =>
      resolveValues key rest (dict_set valNamesAndStyles vkey vval)
  end.

(** Lines 231-243: the style files of the values that have no formatted
    file, and the working directories of the formatter runs. *)
Fixpoint prepareFormat (baseStyle : loc) (items : pydict style) :
    M (list path) :=
  match items with
  | [] => mret []
  | (valName, valDict) :: rest =>
      s ← get_state;
      if hasFmtCache s valName then prepareFormat baseStyle rest
      else
        st ← deepcopy baseStyle;
        d ← deref st;
        store st (dict_update d valDict);;
        writeStyleFile valName st;;
        let cwd := getValueDir (cache_iter s) valName in
        toRun ← prepareFormat baseStyle rest;
        mret (cwd :: toRun)
  end.

(** [cat absPath | clang-format --assume-filename=... -style=file >
    formatted.ext], run in [cwd]. *)
Definition run_format (inputSC : InputSourceCode) (cwd : path) (f : FS) : FS :=
  shell_redirect (cwd ++ [fmtName])
    (clang_format (file_content f (cwd ++ [".clang-format"]))
       (baseFilename inputSC)
       (default "" (file_content f (absPath inputSC))))
    f.

(** [invokeCommandsInParallelCwd]: [Popen] raises when [cwd] is not a
    directory.  The processes write to distinct files and read none of
    them, so they are run one after the other. *)
Definition invokeCommandsInParallelCwd (inputSC : InputSourceCode)
    (cmdsAndDirs : list path) : M unit :=
  for_each cmdsAndDirs (λ cwd,
    s ← get_state;
    if is_dir (fs s) cwd then
      modify (λ s, log (EvFormat cwd) (set_fs (run_format inputSC cwd (fs s)) s))
    else raise (OSError cwd)).

(** [diff -u absPath fmtFilename > diffFilename] *)
Definition run_diff (inputSC : InputSourceCode) (fmtFilename diffFilename : path)
    (f : FS) : FS :=
  shell_redirect diffFilename
    (match file_content f (absPath inputSC), file_content f fmtFilename with
     | Some a, Some b => diff_u a b
     | _, _ => ""
     end)
    f.

Definition invokeCommandsInParallel (inputSC : InputSourceCode)
    (cmds : list (path * path)) : M unit :=
  for_each cmds (λ cmd,
    modify (λ s, log (EvDiff cmd.2)
                   (set_fs (run_diff inputSC cmd.1 cmd.2 (fs s)) s))).

(** Lines 247-251 *)
Definition checkOutputs (valNames : list string) : M unit :=
  for_each valNames (λ val,
    s ← get_state;
    if hasFmtCache s val then mret tt
    else
      let fmtFilename := getFmtFilename (cache_iter s) val in
      raise (SystemExit 1
               ("ERROR: Formated file not generated: " +:+ render fmtFilename
                +:+ "; invalid option?"))).

(** Lines 254-260 *)
Definition diffCommands (s : state) (valNames : list string) :
    list (path * path) :=
  omap (λ val,
    if hasDiffCache s val then None
    else Some (getFmtFilename (cache_iter s) val,
               getDiffFilename (cache_iter s) val)) valNames.

(** Lines 266-269: [grep] on a missing file prints nothing, so the count
    is [0]. *)
Definition diffVal (s : state) (val : string) : nat :=
  match file_content (fs s) (getDiffFilename (cache_iter s) val) with
  | Some text => grep_count text
  | None => 0
  end.

Definition scoreValues (s : state) (valNames : list string) :
    list (nat * string) :=
  (λ val, (diffVal s val, val)) <$> valNames.

Definition experimentForOption (inputSC : InputSourceCode) (baseStyle : loc)
    (key : string) (values : list candidate) (prevScore : nat) :
    M (loc * nat) :=
  valNamesAndStyles ←
    match resolveValues key values [] with
    | Some d => mret d
    | None => raise IndexError
    end;
  let valNames := dict_keys valNamesAndStyles in
  startIteration key baseStyle valNames;;
  (* Run clang-format for all the options *)
  toRun ← prepareFormat baseStyle valNamesAndStyles;
  invokeCommandsInParallelCwd inputSC toRun;;
  (* Check the outputs *)
  checkOutputs valNames;;
  (* Compute the diffs *)
  s ← get_state;
  invokeCommandsInParallel inputSC (diffCommands s valNames);;
  (* Parse the diffs to get the score *)
  s ← get_state;
  let results := scoreValues s valNames in
  match decide_option results (numLines inputSC) prevScore with
  | None => raise IndexError
  | Some dec =>
      (if ignore dec then mret tt
       else
         d ← deref baseStyle;
         store baseStyle (dict_set d key (winner dec)));;
      mret (baseStyle, minVal dec)
  end.

(** *** main *)

(** The loop of lines 327-330.  The style returned by
    [experimentForOption] is bound to [baseStype] and never read; every
    call receives [baseStyle]. *)
Fixpoint main_loop (inputSC : InputSourceCode) (baseStyle : loc)
    (formattingOptions : list (pydict (list candidate))) (prevScore : nat) :
    M nat :=
  match formattingOptions with
  | [] => mret prevScore
  | [] :: _ => raise IndexError
  | ((key, values) :: _) :: rest =>
      r ← experimentForOption inputSC baseStyle key values prevScore;
      let baseStype := r.1 in
      main_loop inputSC baseStyle rest r.2
  end.

(** [main] returns the text printed at line 336. *)
Definition main (inputFiles : list string)
    (formattingOptions : list (pydict (list candidate))) : M string :=
  inputSC ← InputSourceCode_init inputFiles;
  FileCache_init inputSC;;
  baseStyle ← alloc [];
  main_loop inputSC baseStyle formattingOptions (numLines inputSC * 4);;
  d ← deref baseStyle;
  mret (yaml_dump d).

(** The state in which the script starts on the dump directory [f]. *)
Definition init_state (f : FS) : state := mkState f [] 0 false [].

(** ** Specification-level definitions *)

(** The first record of minimal score, in list order. *)
Fixpoint first_min (l : list (nat * string)) : option (nat * string) :=
  match l with
  | [] => None
  | x :: l' =>
      match first_min l' with
      | None => Some x
      | Some y => if decide (x.1 ≤ y.1)%nat then Some x else Some y
      end
  end.

(** The count the specification gives for a diff: lines whose first
    character is [+] or [-]. *)
Definition marker_line (l : string) : bool :=
  match l with
  | String c _ => bool_decide (c = "+"%char ∨ c = "-"%char)
  | "" => false
  end.

Definition count_marker_lines (text : string) : nat :=
  length (filter (λ l, marker_line l = true) (readlines text)).

(** The staleness rule in the words of the specification: the sample was
    dirty when the cache was built, or a signature is recorded for the
    slot and differs from the new one. *)
Definition spec_stale (dirtyAtConstruction : bool) (f : FS) (n : nat)
    (key baseStyleStr : string) : bool :=
  dirtyAtConstruction
  || ((path_exists f (getFullFilename n "key")
       || path_exists f (getFullFilename n "baseStyle"))
      && (bool_decide (file_content f (getFullFilename n "key") ≠ Some key)
          || bool_decide (file_content f (getFullFilename n "baseStyle")
                          ≠ Some baseStyleStr))).

(** The acceptance policy in the words of the specification, on the score
    records of one option: the new style and the new threshold. *)
Definition spec_accept (acc : style) (prevScore : nat) (key : string)
    (records : list (nat * string)) : style * nat :=
  match first_min records with
  | Some (minScore, winner) =>
      let maxScore := max_list records.*1 in
      (if bool_decide (minScore = maxScore)
          || bool_decide (prevScore ≤ minScore)%nat
       then acc else dict_set acc key winner,
       minScore)
  | None => (acc, prevScore)
  end.

(** The policy applied to each option in order, every step starting
    from the style that the previous step returned. *)
Fixpoint spec_accumulate (acc : style) (prevScore : nat)
    (scored : list (string * list (nat * string))) : style :=
  match scored with
  | [] => acc
  | (key, records) :: rest =>
      spec_accumulate (spec_accept acc prevScore key records).1
        (spec_accept acc prevScore key records).2 rest
  end.

(** The lines of the canonical sample. *)
Definition allLines (inputFiles : list string) : list string :=
  concat ((λ c, readlines (universal_newlines c) ++ [nl]) <$> inputFiles).

(** The lines of texts that are already translated, each text followed
    by a separator line. *)
Definition separated (texts : list string) : list string :=
  concat ((λ c, readlines c ++ [nl]) <$> texts).

(** * Properties *)

(** ** Text *)

Lemma string_app_cons (c : ascii) (a b : string) :
  String c a +:+ b = String c (a +:+ b).
Proof. reflexivity. Qed.

Lemma string_app_nil_l (a : string) : "" +:+ a = a.
Proof. reflexivity. Qed.

Lemma string_app_assoc (a b c : string) : (a +:+ b) +:+ c = a +:+ b +:+ c.
Proof.
  induction a as [|x a IH]; [done|].
  by rewrite !string_app_cons, IH.
Qed.

Lemma string_app_nil_r (a : string) : a +:+ "" = a.
Proof.
  induction a as [|x a IH]; [done|].
  by rewrite string_app_cons, IH.
Qed.

Lemma join_app (l1 l2 : list string) : join (l1 ++ l2) = join l1 +:+ join l2.
Proof.
  induction l1 as [|x l1 IH]; simpl; [done|].
  by rewrite IH, string_app_assoc.
Qed.

Lemma join_readlines (s : string) : join (readlines s) = s.
Proof.
  induction s as [|c s IH]; simpl; [done|].
  case_decide as Hc.
  - simpl. unfold nl. by rewrite string_app_cons, string_app_nil_l, IH, Hc.
  - destruct (readlines s) as [|l ls]; simpl in *.
    + by rewrite <- IH.
    + by rewrite string_app_cons, IH.
Qed.

(** ** The stable sort *)

Lemma sort_insert_perm x l : sort_insert x l ≡ₚ x :: l.
Proof.
  induction l as [|y l IH]; simpl; [done|].
  case_decide; [done|]. rewrite IH. apply Permutation_swap.
Qed.

Lemma sort_results_perm l : sort_results l ≡ₚ l.
Proof.
  induction l as [|x l IH]; simpl; [done|].
  by rewrite sort_insert_perm, IH.
Qed.

Lemma head_sort_insert x l :
  head (sort_insert x l) =
    match head l with
    | None => Some x
    | Some y => if decide (x.1 ≤ y.1)%nat then Some x else Some y
    end.
Proof. destruct l as [|y l]; simpl; [done|]. by case_decide. Qed.

Lemma head_sort_results l : head (sort_results l) = first_min l.
Proof.
  induction l as [|x l IH]; simpl; [done|].
  by rewrite head_sort_insert, IH.
Qed.

Definition sorted_by_score (l : list (nat * string)) : Prop :=
  StronglySorted (λ a b, a.1 ≤ b.1)%nat l.

Lemma sort_insert_sorted x l :
  sorted_by_score l → sorted_by_score (sort_insert x l).
Proof.
  unfold sorted_by_score.
  induction 1 as [|y l Hl IH Hy]; simpl.
  - repeat constructor.
  - case_decide as Hxy.
    + constructor; [by constructor|].
      constructor; [done|]. eapply Forall_impl; [exact Hy|].
      simpl. intros z Hz. lia.
    + constructor; [done|].
      rewrite sort_insert_perm. constructor; [lia|done].
Qed.

Lemma sort_results_sorted l : sorted_by_score (sort_results l).
Proof.
  induction l as [|x l IH]; simpl; [constructor|].
  by apply sort_insert_sorted.
Qed.

Lemma sorted_last_max l y :
  sorted_by_score l → last l = Some y → ∀ x, x ∈ l → (x.1 ≤ y.1)%nat.
Proof.
  unfold sorted_by_score. induction 1 as [|z l Hl IH Hz]; [done|].
  intros Hlast x Hx. destruct l as [|z' l].
  - simpl in Hlast. apply list_elem_of_singleton in Hx. by simplify_eq.
  - rewrite last_cons_cons in Hlast.
    apply elem_of_cons in Hx as [->|Hx]; [|by apply IH].
    rewrite Forall_forall in Hz. apply Hz.
    apply last_Some_elem_of in Hlast. done.
Qed.

(** [first_min] returns a record of the list whose score is minimal and
    which comes before every other record of that score. *)
Lemma first_min_spec l r :
  first_min l = Some r ↔
  ∃ i, l !! i = Some r
       ∧ (∀ j x, l !! j = Some x → (r.1 ≤ x.1)%nat)
       ∧ (∀ j x, (j < i)%nat → l !! j = Some x → (r.1 < x.1)%nat).
Proof.
  revert r. induction l as [|x l IH]; intros r; simpl.
  - split; [done|]. by intros (i & ? & _).
  - destruct (first_min l) as [y|] eqn:Hfm.
    + pose proof (proj1 (IH y) eq_refl) as (i & Hi & Hmin & Hfirst).
      case_decide as Hxy; split.
      * intros [= <-]. exists 0%nat. split_and!; [done| |lia].
        intros [|j] z Hz; simpl in Hz; [by simplify_eq|].
        specialize (Hmin _ _ Hz). lia.
      * intros (k & Hk & Hkmin & Hkfirst). destruct k as [|k]; [by simplify_eq/=|].
        simpl in Hk. specialize (Hkfirst 0%nat x ltac:(lia) eq_refl).
        specialize (Hmin _ _ Hk). lia.
      * intros [= <-]. exists (S i). split_and!; [done| |].
        -- intros [|j] z Hz; simpl in Hz; [simplify_eq; lia|by eapply Hmin].
        -- intros [|j] z Hj Hz; simpl in Hz; [simplify_eq; lia|].
           eapply Hfirst; [|done]. lia.
      * intros (k & Hk & Hkmin & Hkfirst). destruct k as [|k].
        { simpl in Hk. simplify_eq. specialize (Hkmin (S i) y Hi). lia. }
        simpl in Hk. apply IH. exists k. split_and!; [done| |].
        -- intros j z Hz. by apply (Hkmin (S j)).
        -- intros j z Hj Hz. apply (Hkfirst (S j)); [lia|done].
    + assert (l = []) as -> by (by destruct l as [|z l]; [|simpl in Hfm;
        destruct (first_min l); [case_decide|]]).
      split.
      * intros [= <-]. exists 0%nat. split_and!; [done| |lia].
        intros [|j] z Hz; simpl in Hz; by simplify_eq.
      * intros ([|k] & Hk & _); simpl in Hk; by simplify_eq.
Qed.

(** ** The monad *)

Lemma bind_Ok {A B} (m : M A) (k : A → M B) s b s' :
  (m ≫= k) s = Ok b s' ↔ ∃ a s1, m s = Ok a s1 ∧ k a s1 = Ok b s'.
Proof.
  unfold mbind, M_bind. destruct (m s) as [a s1|e s1]; split.
  - intros H. by exists a, s1.
  - by intros (? & ? & [= -> ->] & ?).
  - done.
  - by intros (? & ? & ? & ?).
Qed.

Lemma bind_Raise {A B} (m : M A) (k : A → M B) s e s' :
  (m ≫= k) s = Raise e s' ↔
  m s = Raise e s' ∨ ∃ a s1, m s = Ok a s1 ∧ k a s1 = Raise e s'.
Proof.
  unfold mbind, M_bind. destruct (m s) as [a s1|e1 s1]; split.
  - intros H. right. by exists a, s1.
  - by intros [?|(? & ? & [= -> ->] & ?)].
  - intros [= -> ->]. by left.
  - by intros [[= -> ->]|(? & ? & ? & ?)].
Qed.

Lemma ret_Ok {A} (a b : A) s s' : (mret a : M A) s = Ok b s' ↔ a = b ∧ s = s'.
Proof. unfold mret, M_ret. split; [by intros [= -> ->]|by intros [-> ->]]. Qed.

Lemma get_state_Ok s a s' : get_state s = Ok a s' ↔ a = s ∧ s' = s.
Proof. unfold get_state. split; [by intros [= -> ->]|by intros [-> ->]]. Qed.

Lemma modify_Ok g s u s' : modify g s = Ok u s' ↔ s' = g s.
Proof. unfold modify. destruct u. split; [by intros [= <-]|by intros ->]. Qed.

Lemma raise_Ok {A} e s (a : A) s' : raise e s = Ok a s' ↔ False.
Proof. done. Qed.

Lemma fs_op_Ok p op s u s' :
  fs_op p op s = Ok u s' ↔ ∃ f', op (fs s) = Some f' ∧ s' = set_fs f' s.
Proof.
  unfold fs_op. destruct (op (fs s)) as [f'|]; split.
  - intros [= <-]. by exists f'.
  - intros (? & [= <-] & ->). by destruct u.
  - done.
  - by intros (? & ? & ?).
Qed.

Lemma deref_Ok l s d s' : deref l s = Ok d s' ↔ heap s !! l = Some d ∧ s' = s.
Proof.
  unfold deref. destruct (heap s !! l) as [d'|]; split.
  - by intros [= -> ->].
  - by intros [[= ->] ->].
  - done.
  - by intros [? ?].
Qed.

Lemma alloc_Ok d s l s' :
  alloc d s = Ok l s' ↔ l = length (heap s) ∧ s' = set_heap (heap s ++ [d]) s.
Proof. unfold alloc. split; [by intros [= <- <-]|by intros [-> ->]]. Qed.

(** Inversion of a successful run of a monadic program. *)
Ltac minv H :=
  lazymatch type of H with
  | (_ ≫= _) _ = Ok _ _ =>
      let a := fresh "a" in
      let s1 := fresh "s" in
      let H1 := fresh "H" in
      apply bind_Ok in H as (a & s1 & H1 & H); minv H1; minv H
  | mret _ _ = Ok _ _ => apply ret_Ok in H as [? ?]; subst
  | get_state _ = Ok _ _ => apply get_state_Ok in H as [? ?]; subst
  | modify _ _ = Ok _ _ => apply modify_Ok in H; subst
  | raise _ _ = Ok _ _ => by apply raise_Ok in H
  | deref _ _ = Ok _ _ => apply deref_Ok in H as [? ?]; subst
  | alloc _ _ = Ok _ _ => apply alloc_Ok in H as [? ?]; subst
  | fs_op _ _ _ = Ok _ _ =>
      let f' := fresh "f" in
      apply fs_op_Ok in H as (f' & ? & ?); subst
  | (if ?b then _ else _) _ = Ok _ _ =>
      let Hb := fresh "Hb" in
      destruct b eqn:Hb; minv H
  | (let _ := _ in _) _ = Ok _ _ => cbv zeta in H; minv H
  | _ => idtac
  end.

(** One step of a successful run, keeping the names of the states. *)
Tactic Notation "mstep" hyp(H) "as" simple_intropattern(a) ident(s1) ident(H1) :=
  apply bind_Ok in H as (a & s1 & H1 & H).
Ltac mget H :=
  let a := fresh in
  let s1 := fresh in
  let H1 := fresh in
  apply bind_Ok in H as (a & s1 & H1 & H);
  apply get_state_Ok in H1 as [-> ->].

(** ** What each operation leaves alone *)

(** [only_fs s s']: the two states differ in the dump directory only. *)
Definition only_fs (s s' : state) : Prop := s' = set_fs (fs s') s.

Lemma only_fs_refl s : only_fs s s.
Proof. by destruct s. Qed.

Lemma only_fs_trans s1 s2 s3 : only_fs s1 s2 → only_fs s2 s3 → only_fs s1 s3.
Proof. unfold only_fs. intros -> ->. done. Qed.

Lemma only_fs_set_fs f s : only_fs s (set_fs f s).
Proof. done. Qed.

Lemma only_fs_heap s s' : only_fs s s' → heap s' = heap s.
Proof. by intros ->. Qed.
Lemma only_fs_iter s s' : only_fs s s' → cache_iter s' = cache_iter s.
Proof. by intros ->. Qed.
Lemma only_fs_dirty s s' : only_fs s s' → cache_dirty s' = cache_dirty s.
Proof. by intros ->. Qed.
Lemma only_fs_trace s s' : only_fs s s' → trace s' = trace s.
Proof. by intros ->. Qed.

Lemma ensureIterFolderExists_only_fs s u s' :
  ensureIterFolderExists s = Ok u s' → only_fs s s'.
Proof.
  unfold ensureIterFolderExists. intros H. minv H.
  - apply only_fs_refl.
  - apply only_fs_set_fs.
Qed.

Lemma writeIterFile_only_fs b c s u s' :
  writeIterFile b c s = Ok u s' → only_fs s s'.
Proof. unfold writeIterFile. intros H. minv H. apply only_fs_set_fs. Qed.

(** What [_readIterFileContent] returns, when it returns. *)
Definition recorded (f : FS) (n : nat) (baseFilename : string) : string :=
  default "" (file_content f (getFullFilename n baseFilename)).

Lemma readIterFileContent_Ok b s c s' :
  readIterFileContent b s = Ok c s' →
  s' = s ∧ c = default "" (file_content (fs s) (getFullFilename (cache_iter s) b)).
Proof.
  unfold readIterFileContent. intros H. minv H.
  - destruct (file_content _ _) as [c'|] eqn:Hc; minv H.
    by rewrite join_readlines.
  - split; [done|]. unfold path_exists in Hb.
    apply bool_decide_eq_false in Hb. unfold file_content.
    destruct (fs s' !! _) as [[]|] eqn:E; try done; by destruct Hb.
Qed.

Lemma writeStyleFile_only_fs v l s u s' :
  writeStyleFile v l s = Ok u s' → only_fs s s'.
Proof.
  unfold writeStyleFile. intros H. minv H.
  - apply only_fs_refl.
  - apply only_fs_set_fs.
Qed.

Lemma for_each_only_fs {A} (l : list A) (body : A → M unit) s u s' :
  (∀ x s u s', body x s = Ok u s' → only_fs s s') →
  for_each l body s = Ok u s' → only_fs s s'.
Proof.
  intros Hbody. revert s. induction l as [|x l IH]; intros s H; simpl in H.
  - minv H. apply only_fs_refl.
  - minv H. eapply only_fs_trans; [by eapply Hbody|by eapply IH].
Qed.

Lemma checkDirty_Ok key str s u s' :
  checkDirty key str s = Ok u s' →
  ∃ b, s' = set_dirty b s
       ∧ b = cache_dirty s
             || bool_decide (recorded (fs s) (cache_iter s) "baseStyle" ≠ str)
             || bool_decide (recorded (fs s) (cache_iter s) "key" ≠ key).
Proof.
  unfold checkDirty. intros H. mget H.
  destruct (cache_dirty s) eqn:Hdirty.
  - apply ret_Ok in H as [_ <-]. exists true. split; [|done].
    destruct s; simpl in *; by subst.
  - mstep H as c1 s1 H1. apply readIterFileContent_Ok in H1 as [-> ->].
    mstep H as c2 s2 H2. apply readIterFileContent_Ok in H2 as [-> ->].
    unfold recorded. simpl.
    destruct (bool_decide _ || bool_decide _) eqn:Hb.
    + apply modify_Ok in H as ->. by exists true.
    + apply ret_Ok in H as [_ <-]. exists false. split; [|done].
      destruct s; simpl in *; by subst.
Qed.

Lemma removeIfDirty_only_fs s u s' :
  removeIfDirty s = Ok u s' → only_fs s s'.
Proof.
  unfold removeIfDirty. intros H. mget H.
  destruct (cache_dirty s); [|minv H; apply only_fs_refl].
  cbv zeta in H. mstep H as ? st Hw.
  apply fs_op_Ok in Hw as (? & _ & ->).
  apply ensureIterFolderExists_only_fs in H. by rewrite H.
Qed.

Lemma startIteration_frame key l values s u s' :
  startIteration key l values s = Ok u s' →
  is_Some (heap s !! l) ∧ heap s' = heap s ∧ trace s' = trace s
  ∧ cache_iter s' = S (cache_iter s).
Proof.
  unfold startIteration. intros H.
  mstep H as ? s1 H1. apply modify_Ok in H1 as ->.
  mstep H as ? s2 H2. apply ensureIterFolderExists_only_fs in H2.
  mstep H as d s3 H3. apply deref_Ok in H3 as [Hd ->]. cbv zeta in H.
  mstep H as ? s5 H5. apply checkDirty_Ok in H5 as (b & -> & _).
  mstep H as ? s7 H7. apply removeIfDirty_only_fs in H7.
  mstep H as ? s8 H8. apply writeIterFile_only_fs in H8.
  mstep H as ? s9 H9. apply writeIterFile_only_fs in H9.
  apply for_each_only_fs in H.
  2: { intros ? ? ? ? Hx. unfold ensureValueDir in Hx.
       minv Hx; [apply only_fs_refl|apply only_fs_set_fs]. }
  pose proof (only_fs_trans _ _ _ (only_fs_trans _ _ _ H7 H8)
                (only_fs_trans _ _ _ H9 H)) as F.
  rewrite (only_fs_heap _ _ F), (only_fs_trace _ _ F), (only_fs_iter _ _ F).
  simpl.
  rewrite (only_fs_heap _ _ H2) in Hd |- *.
  rewrite (only_fs_trace _ _ H2), (only_fs_iter _ _ H2).
  split; [by eexists|done].
Qed.

(** [rest s s']: the store, the iteration counter and the dirty flag are
    the same; the dump directory and the trace may differ. *)
Definition same_cache (s s' : state) : Prop :=
  heap s' = heap s ∧ cache_iter s' = cache_iter s
  ∧ cache_dirty s' = cache_dirty s.

Lemma same_cache_refl s : same_cache s s.
Proof. done. Qed.

Lemma same_cache_trans s1 s2 s3 :
  same_cache s1 s2 → same_cache s2 s3 → same_cache s1 s3.
Proof. unfold same_cache. intros (-> & -> & ->) (-> & -> & ->). done. Qed.

Lemma for_each_same_cache {A} (l : list A) (body : A → M unit) s u s' :
  (∀ x s u s', body x s = Ok u s' → same_cache s s') →
  for_each l body s = Ok u s' → same_cache s s'.
Proof.
  intros Hbody. revert s. induction l as [|x l IH]; intros s H; simpl in H.
  - minv H. apply same_cache_refl.
  - minv H. eapply same_cache_trans; [by eapply Hbody|by eapply IH].
Qed.

Lemma invokeCommandsInParallelCwd_same_cache inputSC jobs s u s' :
  invokeCommandsInParallelCwd inputSC jobs s = Ok u s' → same_cache s s'.
Proof.
  apply for_each_same_cache. intros cwd t v t' H. by minv H.
Qed.

Lemma invokeCommandsInParallel_same_cache inputSC jobs s u s' :
  invokeCommandsInParallel inputSC jobs s = Ok u s' → same_cache s s'.
Proof.
  apply for_each_same_cache. intros cwd t v t' H. by minv H.
Qed.

Lemma checkOutputs_Ok valNames s u s' :
  checkOutputs valNames s = Ok u s' →
  s' = s ∧ ∀ val, val ∈ valNames → hasFmtCache s val = true.
Proof.
  unfold checkOutputs. revert s.
  induction valNames as [|v vs IH]; intros s H; simpl in H.
  - minv H. split; [done|]. by intros val ?%elem_of_nil.
  - minv H. apply IH in H as [-> Hvs]. split; [done|].
    intros val [->|?]%elem_of_cons; [done|by apply Hvs].
Qed.

Lemma prepareFormat_frame l items s jobs s' :
  prepareFormat l items s = Ok jobs s' →
  (∃ h, heap s' = heap s ++ h) ∧ cache_iter s' = cache_iter s
  ∧ cache_dirty s' = cache_dirty s ∧ trace s' = trace s.
Proof.
  revert s jobs. induction items as [|[valName valDict] items IH];
    intros s jobs H; simpl in H.
  - minv H. split; [by exists []; rewrite app_nil_r|done].
  - mget H.
    destruct (hasFmtCache s valName); [by eapply IH|].
    mstep H as st s1 H1. unfold deepcopy in H1.
    mstep H1 as d0 s0 H0. apply deref_Ok in H0 as [Hd0 ->].
    apply alloc_Ok in H1 as [-> ->].
    mstep H as d s2 H2. apply deref_Ok in H2 as [Hd ->].
    mstep H as ? s3 H3. unfold store in H3. apply modify_Ok in H3 as ->.
    mstep H as ? s4 H4. apply writeStyleFile_only_fs in H4.
    cbv zeta in H. mstep H as toRun s5 H5. apply ret_Ok in H as [<- ->].
    apply IH in H5 as ((h & Hh) & E2 & E3 & E4).
    rewrite Hh, E2, E3, E4.
    rewrite (only_fs_heap _ _ H4), (only_fs_iter _ _ H4),
      (only_fs_dirty _ _ H4), (only_fs_trace _ _ H4). simpl.
    split; [|done].
    rewrite insert_app_r_alt, Nat.sub_diag by done. simpl.
    rewrite <- app_assoc. by eexists.
Qed.

(** ** The decision *)

Lemma decide_option_Some results n prev dec :
  decide_option results n prev = Some dec →
  first_min results = Some (minVal dec, winner dec)
  ∧ (∀ x, x ∈ results → (minVal dec ≤ x.1 ≤ maxVal dec)%nat)
  ∧ (∃ v, (maxVal dec, v) ∈ results)
  ∧ ignore dec = bool_decide (minVal dec = maxVal dec)
                 || bool_decide (prev ≤ minVal dec)%nat.
Proof.
  unfold decide_option. rewrite head_sort_results.
  destruct (first_min results) as [r0|] eqn:Hmin; [|done].
  destruct (last (sort_results results)) as [rn|] eqn:Hlast; [|done].
  intros [= <-]. simpl. split_and!; [by destruct r0| | |done].
  - intros x Hx. split.
    + apply first_min_spec in Hmin as (i & _ & Hle & _).
      apply list_elem_of_lookup in Hx as [j Hj]. by eapply Hle.
    + eapply sorted_last_max; [apply sort_results_sorted|done|].
      by rewrite sort_results_perm.
  - exists rn.2. apply last_Some_elem_of in Hlast.
    rewrite sort_results_perm in Hlast. by destruct rn.
Qed.

Lemma decide_option_None results n prev :
  decide_option results n prev = None ↔ results = [].
Proof.
  unfold decide_option. rewrite head_sort_results. split.
  - destruct results as [|x results]; [done|]. intros H. exfalso.
    destruct (first_min (x :: results)) as [r0|] eqn:Hmin.
    + destruct (last (sort_results (x :: results))) as [rn|] eqn:Hlast; [done|].
      apply last_None in Hlast.
      pose proof (sort_results_perm (x :: results)) as Hp.
      rewrite Hlast in Hp. by apply Permutation_nil_cons in Hp.
    + simpl in Hmin. destruct (first_min results); [by case_decide|done].
  - by intros ->.
Qed.

(** ** One option *)

Lemma scoreValues_ext s s' valNames :
  fs s' = fs s → cache_iter s' = cache_iter s →
  scoreValues s' valNames = scoreValues s valNames.
Proof.
  intros Hf Hi. unfold scoreValues, diffVal. by rewrite Hf, Hi.
Qed.

Lemma experimentForOption_Ok inputSC l key values prev s r s' :
  experimentForOption inputSC l key values prev s = Ok r s' →
  ∃ names d dec h,
    resolveValues key values [] = Some names
    ∧ heap s !! l = Some d
    ∧ decide_option (scoreValues s' (dict_keys names)) (numLines inputSC) prev
      = Some dec
    ∧ r = (l, minVal dec)
    ∧ cache_iter s' = S (cache_iter s)
    ∧ heap s' =
        <[l := if ignore dec then d else dict_set d key (winner dec)]>
          (heap s ++ h).
Proof.
  unfold experimentForOption. intros H.
  mstep H as names s0 H0.
  destruct (resolveValues key values []) as [names'|] eqn:Hres; [|done].
  apply ret_Ok in H0 as [-> <-]. cbv zeta in H.
  mstep H as ? s1 H1.
  apply startIteration_frame in H1 as ([d Hd] & Eh1 & _ & Ei1).
  mstep H as toRun s2 H2.
  apply prepareFormat_frame in H2 as ((h & Eh2) & Ei2 & _ & _).
  mstep H as ? s3 H3.
  apply invokeCommandsInParallelCwd_same_cache in H3 as (Eh3 & Ei3 & _).
  mstep H as ? s4 H4. apply checkOutputs_Ok in H4 as [-> _].
  mget H.
  mstep H as ? s5 H5.
  apply invokeCommandsInParallel_same_cache in H5 as (Eh5 & Ei5 & _).
  mget H.
  assert (heap s5 = heap s ++ h) as Eh by congruence.
  assert (cache_iter s5 = S (cache_iter s)) as Ei by congruence.
  destruct (decide_option _ _ _) as [dec|] eqn:Hdec; [|done].
  exists names, d, dec, h.
  assert (heap s5 !! l = Some d) as Hl.
  { rewrite Eh. by apply lookup_app_l_Some. }
  mstep H as ? s6 H6. apply ret_Ok in H as [<- ->].
  destruct (ignore dec).
  - apply ret_Ok in H6 as [_ <-]. split_and!; try done.
    by rewrite <- Eh, list_insert_id.
  - mstep H6 as d' s7 H7. apply deref_Ok in H7 as [Hd' ->].
    unfold store in H6. apply modify_Ok in H6 as ->. simpl.
    assert (d' = d) as -> by congruence.
    split_and!; try done. by rewrite Eh.
Qed.

Lemma dict_get_set {V} (d : pydict V) k v : dict_get (dict_set d k v) k = Some v.
Proof.
  induction d as [|[k' v'] d IH]; simpl.
  - by rewrite decide_True.
  - case_decide as Hk; simpl; [by rewrite decide_True|by rewrite decide_False].
Qed.

Lemma lookup_insert_app_l {A} (h1 h2 : list A) l d x :
  h1 !! l = Some d → <[l := x]> (h1 ++ h2) !! l = Some x.
Proof.
  intros Hd%lookup_lt_Some. apply list_lookup_insert_eq.
  rewrite length_app. lia.
Qed.

Lemma scoreValues_lookup s valNames i x :
  scoreValues s valNames !! i = Some x ↔
  valNames !! i = Some x.2 ∧ x.1 = diffVal s x.2.
Proof.
  unfold scoreValues. rewrite list_lookup_fmap. destruct (valNames !! i) as [v|]; simpl.
  - split; [by intros [= <-]|]. destruct x as [m w]. simpl. by intros [[= ->] ->].
  - split; [done|by intros [? _]].
Qed.

(** ** The dump directory *)

Lemma is_dir_true f p : is_dir f p = true ↔ f !! p = Some Dir.
Proof. unfold is_dir. apply bool_decide_eq_true. Qed.

Lemma is_dir_false f p : is_dir f p = false ↔ f !! p ≠ Some Dir.
Proof. unfold is_dir. apply bool_decide_eq_false. Qed.

Lemma path_exists_true f p : path_exists f p = true ↔ is_Some (f !! p).
Proof. unfold path_exists. apply bool_decide_eq_true. Qed.

Lemma path_exists_false f p : path_exists f p = false ↔ f !! p = None.
Proof.
  unfold path_exists. rewrite bool_decide_eq_false. symmetry. apply eq_None_not_Some.
Qed.

Lemma elem_of_inits q p : q ∈ inits p ↔ q `prefix_of` p.
Proof.
  revert q. induction p as [|x p IH]; intros q; simpl.
  - rewrite list_elem_of_singleton. split; [by intros ->|].
    intros H. by apply prefix_nil_inv in H.
  - rewrite elem_of_cons, list_elem_of_fmap. split.
    + intros [->|(q' & -> & Hq')]; [apply prefix_nil|].
      by apply prefix_cons, IH.
    + destruct q as [|y q]; [by left|]. intros H. right. exists q.
      pose proof (prefix_cons_inv_1 _ _ _ _ H) as ->. split; [done|].
      apply IH. by eapply prefix_cons_inv_2.
Qed.

Lemma lookup_foldr_insert_Dir (l : list path) (f : FS) q :
  foldr (λ q acc, <[q := Dir]> acc) f l !! q
  = if decide (q ∈ l) then Some Dir else f !! q.
Proof.
  induction l as [|x l IH]; simpl.
  - done.
  - rewrite lookup_insert, IH.
    destruct (decide (x = q)) as [Hx|Hx].
    + rewrite decide_True; [done|]. subst. by left.
    + destruct (decide (q ∈ l)) as [Hq|Hq].
      * rewrite decide_True; [done|]. by right.
      * rewrite decide_False; [done|]. by intros [?|?]%elem_of_cons.
Qed.

Lemma makedirs_lookup p f f' q :
  makedirs p f = Some f' →
  f' !! q = if decide (q `prefix_of` p) then Some Dir else f !! q.
Proof.
  unfold makedirs. destruct (existsb _ _); [done|]. intros [= <-].
  rewrite lookup_foldr_insert_Dir.
  case_decide as H1; case_decide as H2; try done;
    rewrite elem_of_inits in H1; done.
Qed.

Lemma makedirs_mono p f f' q x :
  makedirs p f = Some f' → f !! q = Some x → f' !! q = Some x.
Proof.
  intros H Hq. rewrite (makedirs_lookup _ _ _ _ H).
  case_decide as Hp; [|done].
  unfold makedirs in H. destruct (existsb _ _) eqn:He; [done|].
  destruct x as [c|]; [|done].
  assert (existsb (is_file f) (inits p) = true) as He'; [|congruence].
  apply existsb_exists. exists q. split.
  - apply list_elem_of_In, elem_of_inits, Hp.
  - unfold is_file. by rewrite Hq.
Qed.

Lemma write_file_Some p c f f' :
  write_file p c f = Some f' ↔
  is_dir f (parent p) = true ∧ is_dir f p = false ∧ f' = <[p := File c]> f.
Proof.
  clear_oracles.
  unfold write_file.
  destruct (is_dir f (parent p)), (is_dir f p); simpl; naive_solver.
Qed.

Lemma rmtree_Some p f f' :
  rmtree p f = Some f' ↔
  is_dir f p = true ∧ f' = filter (λ kv, ¬ p `prefix_of` kv.1) f.
Proof.
  clear_oracles. unfold rmtree. destruct (is_dir f p); naive_solver. Qed.

Lemma rmtree_lookup p f f' q :
  rmtree p f = Some f' →
  f' !! q = if decide (p `prefix_of` q) then None else f !! q.
Proof.
  intros [_ ->]%rmtree_Some. case_decide as Hq.
  - apply map_lookup_filter_None. right. intros x _ Hx. by apply Hx.
  - destruct (f !! q) as [x|] eqn:E.
    + by apply map_lookup_filter_Some.
    + apply map_lookup_filter_None. by left.
Qed.

(** [changed_within P f f']: the two directories agree outside [P]. *)
Definition changed_within (P : path → Prop) (f f' : FS) : Prop :=
  ∀ p, ¬ P p → f' !! p = f !! p.

Lemma changed_within_refl P f : changed_within P f f.
Proof. by intros p _. Qed.

Lemma changed_within_trans P f1 f2 f3 :
  changed_within P f1 f2 → changed_within P f2 f3 → changed_within P f1 f3.
Proof. intros H1 H2 p Hp. by rewrite H2, H1. Qed.

Lemma changed_within_weaken (P Q : path → Prop) f f' :
  (∀ p, P p → Q p) → changed_within P f f' → changed_within Q f f'.
Proof.
  clear_oracles. intros HPQ H p Hp. apply H. naive_solver. Qed.

Lemma changed_within_insert (P : path → Prop) f p x :
  P p → changed_within P f (<[p := x]> f).
Proof. intros HP q Hq. apply lookup_insert_ne. by intros ->. Qed.

Lemma shell_redirect_cases p out f :
  shell_redirect p out f = f
  ∨ (is_dir f (parent p) = true ∧ is_dir f p = false
     ∧ shell_redirect p out f = <[p := File out]> f).
Proof.
  unfold shell_redirect. destruct (write_file p out f) as [f'|] eqn:E.
  - right. by apply write_file_Some in E as (? & ? & ->).
  - by left.
Qed.

Lemma changed_within_shell_redirect (P : path → Prop) f p out :
  P p → changed_within P f (shell_redirect p out f).
Proof.
  intros HP. destruct (shell_redirect_cases p out f) as [->|(_ & _ & ->)].
  - apply changed_within_refl.
  - by apply changed_within_insert.
Qed.

(** ** [startIteration] as a function on the dump directory *)

Definition ensure_dir (p : path) (f : FS) : option FS :=
  if path_exists f p then Some f else makedirs p f.

Fixpoint ensure_dirs (ps : list path) (f : FS) : option FS :=
  match ps with
  | [] => Some f
  | p :: ps' =>
      match ensure_dir p f with
      | Some f' => ensure_dirs ps' f'
      | None => None
      end
  end.

Definition readable (f : FS) (p : path) : bool :=
  negb (path_exists f p) || is_file f p.

Definition stale_check (key baseStyleStr : string) (n : nat) (dirty : bool)
    (f : FS) : option bool :=
  if dirty then Some true
  else if readable f (getFullFilename n "baseStyle")
          && readable f (getFullFilename n "key")
       then Some (bool_decide (recorded f n "baseStyle" ≠ baseStyleStr)
                  || bool_decide (recorded f n "key" ≠ key))
       else None.

Definition wipe (n : nat) (stale : bool) (f : FS) : option FS :=
  if stale then
    match rmtree (iterDir n) f with
    | Some f' => ensure_dir (iterDir n) f'
    | None => None
    end
  else Some f.

Definition startIteration_fs (key baseStyleStr : string) (values : list string)
    (n : nat) (dirty : bool) (f : FS) : option (FS * bool) :=
  f1 ← ensure_dir (iterDir n) f;
  stale ← stale_check key baseStyleStr n dirty f1;
  f2 ← wipe n stale f1;
  f3 ← write_file (getFullFilename n "key") key f2;
  f4 ← write_file (getFullFilename n "baseStyle") baseStyleStr f3;
  f5 ← ensure_dirs (getValueDir n <$> values) f4;
  Some (f5, stale).

Definition raises {A} (m : M A) (s : state) : Prop :=
  ∃ e s', m s = Raise e s'.

Lemma set_fs_id s : set_fs (fs s) s = s.
Proof. by destruct s. Qed.

Lemma ensureIterFolderExists_eval s :
  ensureIterFolderExists s =
    match ensure_dir (iterDir (cache_iter s)) (fs s) with
    | Some f' => Ok tt (set_fs f' s)
    | None => Raise (OSError (iterDir (cache_iter s))) s
    end.
Proof.
  unfold ensureIterFolderExists, ensure_dir, mbind, M_bind, get_state, fs_op.
  destruct (path_exists _ _).
  - by rewrite set_fs_id.
  - by destruct (makedirs _ _).
Qed.

Lemma readIterFileContent_eval b s :
  readIterFileContent b s =
    if readable (fs s) (getFullFilename (cache_iter s) b)
    then Ok (recorded (fs s) (cache_iter s) b) s
    else Raise (OSError (getFullFilename (cache_iter s) b)) s.
Proof.
  unfold readIterFileContent, readable, recorded, mbind, M_bind, get_state.
  unfold path_exists, is_file, file_content.
  destruct (fs s !! _) as [[c|]|] eqn:E; simpl.
  - by rewrite join_readlines.
  - done.
  - done.
Qed.

Lemma bind_eval {A B} (m : M A) (k : A → M B) s :
  (m ≫= k) s = match m s with
               | Ok a s' => k a s'
               | Raise e s' => Raise e s'
               end.
Proof. done. Qed.

Lemma ensureValueDir_eval v s :
  ensureValueDir v s =
    match ensure_dir (getValueDir (cache_iter s) v) (fs s) with
    | Some f' => Ok tt (set_fs f' s)
    | None => Raise (OSError (getValueDir (cache_iter s) v)) s
    end.
Proof.
  unfold ensureValueDir, ensure_dir, mbind, M_bind, get_state, fs_op.
  destruct (path_exists _ _).
  - by rewrite set_fs_id.
  - by destruct (makedirs _ _).
Qed.

Lemma ensure_values_eval values s :
  match ensure_dirs (getValueDir (cache_iter s) <$> values) (fs s) with
  | Some f' => for_each values ensureValueDir s = Ok tt (set_fs f' s)
  | None => raises (for_each values ensureValueDir) s
  end.
Proof.
  revert s. induction values as [|v vs IH]; intros s; simpl.
  - by rewrite set_fs_id.
  - unfold raises. rewrite bind_eval, ensureValueDir_eval.
    destruct (ensure_dir _ _) as [f1|]; [|by eexists _, _].
    specialize (IH (set_fs f1 s)). simpl in IH.
    by destruct (ensure_dirs _ f1).
Qed.

Tactic Notation "proj_simpl" :=
  cbn [fs heap cache_iter cache_dirty trace set_fs set_iter set_dirty
       set_heap log].
Tactic Notation "proj_simpl" "in" hyp(H) :=
  cbn [fs heap cache_iter cache_dirty trace set_fs set_iter set_dirty
       set_heap log] in H.

(** [evals_to m s o a upd]: on [s], the program [m] succeeds exactly when
    [o] is [Some x], and then returns [a] in the state [upd x]. *)
Definition evals_to {A X} (m : M A) (s : state) (o : option X) (a : A)
    (upd : X → state) : Prop :=
  match o with
  | Some x => m s = Ok a (upd x)
  | None => raises m s
  end.

Lemma evals_to_Ok {A X} (m : M A) s (o : option X) a upd a' s' :
  evals_to m s o a upd →
  m s = Ok a' s' ↔ ∃ x, o = Some x ∧ a' = a ∧ s' = upd x.
Proof.
  unfold evals_to, raises. destruct o as [x|].
  - intros ->. split; [intros [= <- <-]; by exists x|].
    by intros (? & [= <-] & -> & ->).
  - intros (e & s'' & ->). split; [done|by intros (? & ? & _)].
Qed.

Lemma ensureIterFolderExists_evals s :
  evals_to ensureIterFolderExists s
    (ensure_dir (iterDir (cache_iter s)) (fs s)) tt (λ f', set_fs f' s).
Proof.
  unfold evals_to, raises. rewrite ensureIterFolderExists_eval.
  destruct (ensure_dir _ _); [done|by eexists _, _].
Qed.

Lemma checkDirty_evals key str s :
  evals_to (checkDirty key str) s
    (stale_check key str (cache_iter s) (cache_dirty s) (fs s)) tt
    (λ b, set_dirty b s).
Proof.
  unfold evals_to, stale_check, checkDirty, raises.
  rewrite bind_eval. unfold get_state.
  destruct (cache_dirty s) eqn:Hdirty.
  - unfold mret, M_ret. f_equal. destruct s; simpl in *; by subst.
  - rewrite bind_eval, readIterFileContent_eval.
    destruct (readable (fs s) (getFullFilename (cache_iter s) "baseStyle"));
      simpl; [|by eexists _, _].
    rewrite bind_eval, readIterFileContent_eval.
    destruct (readable (fs s) (getFullFilename (cache_iter s) "key"));
      simpl; [|by eexists _, _].
    destruct (bool_decide _ || bool_decide _); [done|].
    unfold mret, M_ret. f_equal. destruct s; simpl in *; by subst.
Qed.

Lemma removeIfDirty_evals s :
  evals_to removeIfDirty s (wipe (cache_iter s) (cache_dirty s) (fs s)) tt
    (λ f', set_fs f' s).
Proof.
  unfold evals_to, wipe, removeIfDirty, raises.
  rewrite bind_eval. unfold get_state.
  destruct (cache_dirty s) eqn:Hdirty.
  - cbv zeta. rewrite bind_eval. unfold fs_op.
    destruct (rmtree _ _) as [f1|]; [|by eexists _, _].
    rewrite ensureIterFolderExists_eval. proj_simpl.
    destruct (ensure_dir _ f1); [done|by eexists _, _].
  - by rewrite set_fs_id.
Qed.

Lemma writeIterFile_evals b c s :
  evals_to (writeIterFile b c) s
    (write_file (getFullFilename (cache_iter s) b) c (fs s)) tt
    (λ f', set_fs f' s).
Proof.
  unfold evals_to, writeIterFile, raises.
  rewrite bind_eval. unfold get_state, fs_op.
  destruct (write_file _ _ _); [done|by eexists _, _].
Qed.

Lemma ensure_values_evals values s :
  evals_to (for_each values ensureValueDir) s
    (ensure_dirs (getValueDir (cache_iter s) <$> values) (fs s)) tt
    (λ f', set_fs f' s).
Proof. apply ensure_values_eval. Qed.

(** [startIteration] succeeds exactly when the pipeline on the dump
    directory does, and then leaves its result. *)
Lemma startIteration_Ok_iff key l values s u s' :
  startIteration key l values s = Ok u s' ↔
  ∃ d f' stale,
    heap s !! l = Some d
    ∧ startIteration_fs key (json_dumps d) values (S (cache_iter s))
        (cache_dirty s) (fs s) = Some (f', stale)
    ∧ s' = mkState f' (heap s) (S (cache_iter s)) stale (trace s).
Proof.
  unfold startIteration, startIteration_fs. split.
  - intros H.
    mstep H as ? s1 H1. apply modify_Ok in H1 as ->.
    mstep H as ? s2 H2.
    apply (evals_to_Ok _ _ _ _ _ _ _ (ensureIterFolderExists_evals _)) in H2
      as (f1 & E1 & _ & ->). proj_simpl in E1.
    mstep H as d s3 H3. apply deref_Ok in H3 as [Hd ->]. proj_simpl in Hd.
    cbv zeta in H. exists d.
    mstep H as ? s4 H4.
    apply (evals_to_Ok _ _ _ _ _ _ _ (checkDirty_evals _ _ _)) in H4
      as (stale & E2 & _ & ->). proj_simpl in E2.
    mstep H as ? s5 H5.
    apply (evals_to_Ok _ _ _ _ _ _ _ (removeIfDirty_evals _)) in H5
      as (f2 & E3 & _ & ->). proj_simpl in E3.
    mstep H as ? s6 H6.
    apply (evals_to_Ok _ _ _ _ _ _ _ (writeIterFile_evals _ _ _)) in H6
      as (f3 & E4 & _ & ->). proj_simpl in E4.
    mstep H as ? s7 H7.
    apply (evals_to_Ok _ _ _ _ _ _ _ (writeIterFile_evals _ _ _)) in H7
      as (f4 & E5 & _ & ->). proj_simpl in E5.
    apply (evals_to_Ok _ _ _ _ _ _ _ (ensure_values_evals _ _)) in H
      as (f5 & E6 & _ & ->). proj_simpl in E6.
    exists f5, stale. split; [done|]. split; [|done].
    rewrite E1. simpl. rewrite E2. simpl. rewrite E3. simpl.
    rewrite E4. simpl. rewrite E5. simpl. by rewrite E6.
  - intros (d & f' & stale & Hd & Hfs & ->).
    destruct (ensure_dir _ _) as [f1|] eqn:E1; [|done]. simpl in Hfs.
    destruct (stale_check _ _ _ _ _) as [st|] eqn:E2; [|done]. simpl in Hfs.
    destruct (wipe _ _ _) as [f2|] eqn:E3; [|done]. simpl in Hfs.
    destruct (write_file _ _ f2) as [f3|] eqn:E4; [|done]. simpl in Hfs.
    destruct (write_file _ _ f3) as [f4|] eqn:E5; [|done]. simpl in Hfs.
    destruct (ensure_dirs _ _) as [f5|] eqn:E6; [|done]. simpl in Hfs.
    injection Hfs as <- <-.
    apply bind_Ok. eexists tt, _. split; [by apply modify_Ok|].
    apply bind_Ok. eexists tt, _. split.
    { apply (evals_to_Ok _ _ _ _ _ _ _ (ensureIterFolderExists_evals _)).
      proj_simpl. by eexists. }
    apply bind_Ok. eexists _, _. split; [by apply deref_Ok|]. cbv zeta.
    apply bind_Ok. eexists tt, _. split.
    { apply (evals_to_Ok _ _ _ _ _ _ _ (checkDirty_evals _ _ _)).
      proj_simpl. by eexists. }
    apply bind_Ok. eexists tt, _. split.
    { apply (evals_to_Ok _ _ _ _ _ _ _ (removeIfDirty_evals _)).
      proj_simpl. by eexists. }
    apply bind_Ok. eexists tt, _. split.
    { apply (evals_to_Ok _ _ _ _ _ _ _ (writeIterFile_evals _ _ _)).
      proj_simpl. by eexists. }
    apply bind_Ok. eexists tt, _. split.
    { apply (evals_to_Ok _ _ _ _ _ _ _ (writeIterFile_evals _ _ _)).
      proj_simpl. by eexists. }
    destruct u.
    apply (evals_to_Ok _ _ _ _ _ _ _ (ensure_values_evals _ _)).
    proj_simpl. by eexists.
Qed.

(** *** Prefixes of the paths in use *)

Lemma prefix_of_singleton (q : path) a : q `prefix_of` [a] ↔ q = [] ∨ q = [a].
Proof.
  clear_oracles.
  rewrite <- elem_of_inits. simpl. rewrite !elem_of_cons, elem_of_nil.
  naive_solver.
Qed.

Lemma prefix_of_pair (q : path) a b :
  q `prefix_of` [a; b] ↔ q = [] ∨ q = [a] ∨ q = [a; b].
Proof.
  clear_oracles.
  rewrite <- elem_of_inits. simpl. rewrite !elem_of_cons, elem_of_nil.
  naive_solver.
Qed.

Lemma iterName_inj n m : iterName n = iterName m → n = m.
Proof.
  unfold iterName. intros H. apply (inj (String.app "iter")) in H.
  by apply (inj pretty) in H.
Qed.

Lemma iterDir_prefix_inv n (p : path) :
  iterDir n `prefix_of` p ↔ ∃ q, p = iterName n :: q.
Proof.
  unfold iterDir. split.
  - intros [q ->]. by exists q.
  - intros [q ->]. by exists q.
Qed.

(** *** [ensure_dir] and [ensure_dirs] *)

Lemma ensure_dir_mono p f f' q x :
  ensure_dir p f = Some f' → f !! q = Some x → f' !! q = Some x.
Proof.
  unfold ensure_dir. destruct (path_exists f p); [by intros [= <-]|].
  apply makedirs_mono.
Qed.

Lemma ensure_dir_frame p f f' q :
  ensure_dir p f = Some f' → ¬ q `prefix_of` p → f' !! q = f !! q.
Proof.
  unfold ensure_dir. destruct (path_exists f p); [by intros [= <-]|].
  intros H Hq. rewrite (makedirs_lookup _ _ _ _ H). by rewrite decide_False.
Qed.

Lemma ensure_dir_exists p f f' :
  ensure_dir p f = Some f' → is_Some (f' !! p).
Proof.
  unfold ensure_dir. destruct (path_exists f p) eqn:E.
  - intros [= <-]. by apply path_exists_true.
  - intros H. rewrite (makedirs_lookup _ _ _ _ H). by rewrite decide_True.
Qed.

Lemma ensure_dir_lookup p f f' q :
  ensure_dir p f = Some f' →
  f' !! q = match f !! q with
            | Some x => Some x
            | None => if decide (f !! p = None ∧ q `prefix_of` p)
                      then Some Dir else None
            end.
Proof.
  intros H. destruct (f !! q) as [x|] eqn:Hq.
  - by eapply ensure_dir_mono.
  - unfold ensure_dir in H. destruct (path_exists f p) eqn:E.
    + injection H as <-. apply path_exists_true in E as [y Hy].
      rewrite decide_False; [done|]. rewrite Hy. by intros [? _].
    + apply path_exists_false in E.
      rewrite (makedirs_lookup _ _ _ _ H).
      destruct (decide (q `prefix_of` p)).
      * by rewrite decide_True.
      * rewrite decide_False; [done|]. by intros [_ ?].
Qed.

Lemma ensure_dirs_mono ps f f' q x :
  ensure_dirs ps f = Some f' → f !! q = Some x → f' !! q = Some x.
Proof.
  revert f. induction ps as [|p ps IH]; intros f; simpl.
  - by intros [= <-].
  - destruct (ensure_dir p f) as [f1|] eqn:E; [|done].
    intros H Hq. eapply IH; [done|]. by eapply ensure_dir_mono.
Qed.

Lemma ensure_dirs_frame ps f f' q :
  ensure_dirs ps f = Some f' →
  (∀ p, p ∈ ps → ¬ q `prefix_of` p) → f' !! q = f !! q.
Proof.
  revert f. induction ps as [|p ps IH]; intros f; simpl.
  - by intros [= <-].
  - destruct (ensure_dir p f) as [f1|] eqn:E; [|done].
    intros H Hq. rewrite (IH _ H).
    + eapply ensure_dir_frame; [done|]. apply Hq. by left.
    + intros p' Hp'. apply Hq. by right.
Qed.

Lemma ensure_dirs_exists ps f f' p :
  ensure_dirs ps f = Some f' → p ∈ ps → is_Some (f' !! p).
Proof.
  revert f. induction ps as [|p' ps IH]; intros f; simpl.
  - by intros _ ?%elem_of_nil.
  - destruct (ensure_dir p' f) as [f1|] eqn:E; [|done].
    intros H [->|Hp]%elem_of_cons; [|by eapply IH].
    apply ensure_dir_exists in E as [x Hx]. exists x.
    by eapply ensure_dirs_mono.
Qed.

(** Directories of values, created below an existing iteration folder. *)
Lemma ensure_dirs_values_lookup n vs f f' a q :
  ensure_dirs (getValueDir n <$> vs) f = Some f' →
  f !! iterDir n = Some Dir →
  f' !! (a :: q) = match f !! (a :: q) with
                   | Some x => Some x
                   | None => if decide (a :: q ∈ getValueDir n <$> vs)
                             then Some Dir else None
                   end.
Proof.
  revert f. induction vs as [|v vs IH]; intros f; simpl.
  - intros [= <-] _. by destruct (f !! (a :: q)).
  - destruct (ensure_dir _ f) as [f1|] eqn:E; [|done].
    intros H HI.
    assert (f1 !! iterDir n = Some Dir) as HI1 by by eapply ensure_dir_mono.
    rewrite (IH _ H HI1). rewrite (ensure_dir_lookup _ _ _ (a :: q) E).
    destruct (f !! (a :: q)) as [x|] eqn:Hq; [done|].
    destruct (decide (f !! getValueDir n v = None
                      ∧ a :: q `prefix_of` getValueDir n v)) as [[Hn Hp]|Hn].
    + unfold getValueDir, iterDir in Hp. simpl in Hp.
      apply prefix_of_pair in Hp as [?|[Hp|Hp]]; [done| |].
      * exfalso. assert (f !! (a :: q) = Some Dir) as Hq'
          by (rewrite Hp; exact HI).
        rewrite Hq in Hq'. discriminate.
      * rewrite decide_True; [done|]. rewrite Hp. by left.
    + destruct (decide (a :: q ∈ getValueDir n <$> vs)) as [Hin|Hin].
      * rewrite decide_True; [done|]. by right.
      * destruct (decide (a :: q = getValueDir n v)) as [Heq|Hne].
        -- exfalso. apply Hn. rewrite <- Heq. split; [done|reflexivity].
        -- rewrite decide_False; [done|].
           by intros [?|?]%elem_of_cons.
Qed.

(** *** The pipeline of [startIteration] *)

Lemma startIteration_fs_Some key str values n dirty f f' stale :
  startIteration_fs key str values n dirty f = Some (f', stale) ↔
  ∃ f1 f2 f3 f4,
    ensure_dir (iterDir n) f = Some f1
    ∧ stale_check key str n dirty f1 = Some stale
    ∧ wipe n stale f1 = Some f2
    ∧ write_file (getFullFilename n "key") key f2 = Some f3
    ∧ write_file (getFullFilename n "baseStyle") str f3 = Some f4
    ∧ ensure_dirs (getValueDir n <$> values) f4 = Some f'.
Proof.
  unfold startIteration_fs. split.
  - intros H.
    destruct (ensure_dir _ _) as [f1|] eqn:E1; [|done]. simpl in H.
    destruct (stale_check _ _ _ _ _) as [st|] eqn:E2; [|done]. simpl in H.
    destruct (wipe _ _ _) as [f2|] eqn:E3; [|done]. simpl in H.
    destruct (write_file _ _ f2) as [f3|] eqn:E4; [|done]. simpl in H.
    destruct (write_file _ _ f3) as [f4|] eqn:E5; [|done]. simpl in H.
    destruct (ensure_dirs _ _) as [f5|] eqn:E6; [|done]. simpl in H.
    injection H as <- <-. by exists f1, f2, f3, f4.
  - intros (f1 & f2 & f3 & f4 & E1 & E2 & E3 & E4 & E5 & E6).
    rewrite E1. simpl. rewrite E2. simpl. rewrite E3. simpl.
    rewrite E4. simpl. rewrite E5. simpl. by rewrite E6.
Qed.

Lemma recorded_ext f f' n b :
  f' !! getFullFilename n b = f !! getFullFilename n b →
  recorded f' n b = recorded f n b.
Proof. unfold recorded, file_content. by intros ->. Qed.

Lemma readable_ext f f' p :
  f' !! p = f !! p → readable f' p = readable f p.
Proof. unfold readable, path_exists, is_file. by intros ->. Qed.

Lemma stale_check_Some key str n dirty f stale :
  stale_check key str n dirty f = Some stale →
  stale = dirty || bool_decide (recorded f n "baseStyle" ≠ str)
          || bool_decide (recorded f n "key" ≠ key).
Proof.
  unfold stale_check. destruct dirty; [by intros [= <-]|].
  destruct (readable _ _ && readable _ _); [|done]. by intros [= <-].
Qed.

(** When the check finds the cache valid, a file of the signature that
    exists holds the new signature already. *)
Lemma stale_check_false key str n dirty f b x :
  stale_check key str n dirty f = Some false →
  f !! getFullFilename n b = Some x →
  (b = "key" → x = File key) ∧ (b = "baseStyle" → x = File str).
Proof.
  unfold stale_check. destruct dirty; [done|].
  destruct (readable f (getFullFilename n "baseStyle")) eqn:R1; [|done].
  destruct (readable f (getFullFilename n "key")) eqn:R2; [|done].
  simpl. intros [= H] Hx. apply orb_false_iff in H as [H1 H2].
  apply bool_decide_eq_false in H1, H2.
  apply dec_stable in H1, H2.
  unfold readable, path_exists, is_file, recorded, file_content in *.
  split; intros ->; rewrite Hx in *; simpl in *.
  - destruct x; [by subst|done].
  - destruct x; [by subst|done].
Qed.

Lemma wipe_frame n stale f f' p :
  wipe n stale f = Some f' →
  p ≠ [] → ¬ iterDir n `prefix_of` p → f' !! p = f !! p.
Proof.
  unfold wipe. destruct stale; [|by intros [= <-]].
  destruct (rmtree _ _) as [f1|] eqn:E; [|done]. intros H Hp Hnp.
  rewrite (ensure_dir_frame _ _ _ _ H).
  - rewrite (rmtree_lookup _ _ _ _ E). by rewrite decide_False.
  - unfold iterDir. rewrite prefix_of_singleton. intros [?| ->]; [done|].
    by apply Hnp.
Qed.

Lemma wipe_root n stale f f' :
  wipe n stale f = Some f' → f' !! [] = f !! [] ∨ f' !! [] = Some Dir.
Proof.
  unfold wipe. destruct stale; [|intros [= <-]; by left].
  destruct (rmtree _ _) as [f1|] eqn:E; [|done]. intros H.
  rewrite (ensure_dir_lookup _ _ _ [] H).
  rewrite (rmtree_lookup _ _ _ [] E).
  rewrite decide_False.
  2: { unfold iterDir. intros Hp. by apply prefix_nil_inv in Hp. }
  destruct (f !! []); [by left|]. case_decide; [by right|by left].
Qed.

Lemma wipe_stale_lookup n f f' q :
  wipe n true f = Some f' →
  f' !! (iterName n :: q) = if decide (q = []) then Some Dir else None.
Proof.
  unfold wipe. destruct (rmtree _ _) as [f1|] eqn:E; [|done]. intros H.
  assert (∀ q', f1 !! (iterName n :: q') = None) as Hgone.
  { intros q'. rewrite (rmtree_lookup _ _ _ _ E).
    rewrite decide_True; [done|]. by exists q'. }
  rewrite (ensure_dir_lookup _ _ _ _ H), Hgone.
  unfold iterDir. destruct (decide (q = [])) as [->|Hq].
  - rewrite decide_True; [done|]. split; [apply Hgone|done].
  - rewrite decide_False; [done|]. intros [_ Hp].
    apply prefix_of_singleton in Hp as [?|[= ?]]; done.
Qed.

Lemma parent_pair (a b : string) : parent [a; b] = [a].
Proof. done. Qed.

Lemma parent_triple (a b c : string) : parent [a; b; c] = [a; b].
Proof. done. Qed.

Lemma not_prefix_of_longer (p q : path) :
  (length q < length p)%nat → ¬ p `prefix_of` q.
Proof. intros Hl Hp%prefix_length. lia. Qed.

(** What [startIteration] does to the dump directory. *)
Lemma startIteration_fs_spec key str values n dirty f f' stale :
  startIteration_fs key str values n dirty f = Some (f', stale) →
  stale = dirty || bool_decide (recorded f n "baseStyle" ≠ str)
          || bool_decide (recorded f n "key" ≠ key)
  ∧ (∀ p, p ≠ [] → ¬ iterDir n `prefix_of` p → f' !! p = f !! p)
  ∧ (f' !! [] = f !! [] ∨ f' !! [] = Some Dir)
  ∧ f' !! iterDir n = Some Dir
  ∧ f' !! getFullFilename n "key" = Some (File key)
  ∧ f' !! getFullFilename n "baseStyle" = Some (File str)
  ∧ (∀ v, v ∈ values → is_Some (f' !! getValueDir n v))
  ∧ (stale = true → ∀ q,
       f' !! (iterName n :: q) =
         if decide (q = []) then Some Dir
         else if decide (q = ["baseStyle"]) then Some (File str)
         else if decide (q = ["key"]) then Some (File key)
         else if decide (iterName n :: q ∈ getValueDir n <$> values)
              then Some Dir else None)
  ∧ (stale = false →
       (∀ p x, f !! p = Some x → f' !! p = Some x)
       ∧ (∀ p, (3 ≤ length p)%nat → f' !! p = f !! p)).
Proof.
  intros (f1 & f2 & f3 & f4 & E1 & E2 & E3 & E4 & E5 & E6)%startIteration_fs_Some.
  apply write_file_Some in E4 as (D4 & _ & ->).
  apply write_file_Some in E5 as (D5 & _ & ->).
  unfold getFullFilename, iterDir in *. simpl in *.
  rewrite parent_pair in D4, D5. apply is_dir_true in D4, D5.
  assert (∀ b, f1 !! [iterName n; b] = f !! [iterName n; b]) as Hf1.
  { intros b. apply (ensure_dir_frame _ _ _ _ E1).
    rewrite prefix_of_singleton. by intros [?|?]. }
  assert (∀ v, ¬ ([iterName n; "key"] : path) `prefix_of` getValueDir n v
               ∨ getValueDir n v = [iterName n; "key"]) as Hk.
  { intros v. unfold getValueDir, iterDir. simpl.
    destruct (decide (v = "key")) as [->|Hv]; [by right|left].
    intros [q Hq]. simplify_eq/=. }
  split_and!.
  - apply stale_check_Some in E2. rewrite E2. unfold recorded, file_content.
    unfold getFullFilename, iterDir. simpl. by rewrite !Hf1.
  - intros p Hp Hnp.
    rewrite (ensure_dirs_frame _ _ _ _ E6).
    2: { intros p' (v & -> & _)%list_elem_of_fmap. unfold getValueDir, iterDir.
         simpl. rewrite prefix_of_pair. intros [?|[->| ->]]; [done| |].
         - by apply Hnp.
         - apply Hnp. by exists [v]. }
    rewrite lookup_insert_ne.
    2: { intros <-. apply Hnp. by exists ["baseStyle"]. }
    rewrite lookup_insert_ne.
    2: { intros <-. apply Hnp. by exists ["key"]. }
    rewrite (wipe_frame _ _ _ _ _ E3 Hp Hnp).
    apply (ensure_dir_frame _ _ _ _ E1).
    rewrite prefix_of_singleton. intros [?| ->]; [done|]. by apply Hnp.
  - assert (f1 !! [] = f !! [] ∨ f1 !! [] = Some Dir) as R1.
    { rewrite (ensure_dir_lookup _ _ _ [] E1).
      destruct (f !! []); [by left|]. case_decide; [by right|by left]. }
    pose proof (wipe_root _ _ _ _ E3) as R2.
    assert (∀ g g' : FS, ensure_dirs (getValueDir n <$> values) g = Some g' →
              g' !! [] = g !! [] ∨ g' !! [] = Some Dir) as R3.
    { clear E6. induction values as [|v vs IH]; intros g g'; simpl.
      - intros [= <-]. by left.
      - destruct (ensure_dir _ g) as [g1|] eqn:E; [|done]. intros H.
        destruct (IH _ _ H) as [->| ->]; [|by right].
        rewrite (ensure_dir_lookup _ _ _ [] E).
        destruct (g !! []); [by left|]. case_decide; [by right|by left]. }
    destruct (R3 _ _ E6) as [->| ->]; [|by right].
    rewrite !lookup_insert_ne by done.
    destruct R2 as [->| ->]; [|by right]. done.
  - eapply ensure_dirs_mono; [done|]. by rewrite !lookup_insert_ne.
  - eapply ensure_dirs_mono; [done|].
    rewrite lookup_insert_ne by done. apply lookup_insert_eq.
  - eapply ensure_dirs_mono; [done|]. apply lookup_insert_eq.
  - intros v Hv. eapply ensure_dirs_exists; [done|].
    apply list_elem_of_fmap. by exists v.
  - intros -> q.
    rewrite (ensure_dirs_values_lookup _ _ _ _ _ _ E6).
    2: { unfold iterDir. by rewrite !lookup_insert_ne. }
    rewrite !lookup_insert. rewrite (wipe_stale_lookup _ _ _ _ E3).
    destruct (decide (q = [])) as [->|Hq].
    { rewrite !decide_False by done. done. }
    destruct (decide (q = ["baseStyle"])) as [->|Hq1].
    { by rewrite decide_True. }
    rewrite decide_False by congruence.
    destruct (decide (q = ["key"])) as [->|Hq2].
    { by rewrite decide_True. }
    rewrite decide_False by congruence. done.
  - intros ->. unfold wipe in E3. injection E3 as <-. split.
    + intros p x Hp. eapply ensure_dirs_mono; [done|].
      pose proof (ensure_dir_mono _ _ _ _ _ E1 Hp) as Hp1.
      destruct (decide (p = [iterName n; "baseStyle"])) as [->|N1].
      { rewrite lookup_insert_eq. f_equal. symmetry.
        by apply (stale_check_false _ _ _ _ _ "baseStyle" x E2 Hp1). }
      rewrite lookup_insert_ne by done.
      destruct (decide (p = [iterName n; "key"])) as [->|N2].
      { rewrite lookup_insert_eq. f_equal. symmetry.
        by apply (stale_check_false _ _ _ _ _ "key" x E2 Hp1). }
      by rewrite lookup_insert_ne.
    + intros p Hp.
      rewrite (ensure_dirs_frame _ _ _ _ E6).
      2: { intros p' (v & -> & _)%list_elem_of_fmap.
           apply not_prefix_of_longer. simpl. lia. }
      rewrite !lookup_insert_ne.
      2,3: intros <-; simpl in Hp; lia.
      apply (ensure_dir_frame _ _ _ _ E1).
      apply not_prefix_of_longer. simpl. lia.
Qed.

(** ** The cache signature *)

(** C3 (amended).  In [startIteration] the cache is stale exactly when
    the dirty flag is set on entry, or the recorded key or base style of
    the slot, read as the empty string when the file is absent, differs
    from the new one.  When it is stale, the iteration folder holds
    afterwards only the new signature and one empty folder per value;
    when it is not, nothing that was in the dump directory is lost. *)
Theorem C3_stale_rule key baseStyle values s u s' d :
  startIteration key baseStyle values s = Ok u s' →
  heap s !! baseStyle = Some d →
  cache_iter s' = S (cache_iter s)
  ∧ cache_dirty s' =
      cache_dirty s
      || bool_decide (recorded (fs s) (S (cache_iter s)) "baseStyle"
                      ≠ json_dumps d)
      || bool_decide (recorded (fs s) (S (cache_iter s)) "key" ≠ key)
  ∧ (cache_dirty s' = true → ∀ q,
       fs s' !! (iterName (S (cache_iter s)) :: q) =
         if decide (q = []) then Some Dir
         else if decide (q = ["baseStyle"]) then Some (File (json_dumps d))
         else if decide (q = ["key"]) then Some (File key)
         else if decide (iterName (S (cache_iter s)) :: q
                         ∈ getValueDir (S (cache_iter s)) <$> values)
              then Some Dir else None)
  ∧ (cache_dirty s' = false →
       ∀ p x, fs s !! p = Some x → fs s' !! p = Some x).
Proof.
  intros (d' & f' & stale & Hd' & Hfs & ->)%startIteration_Ok_iff Hd.
  assert (d' = d) as -> by congruence. simpl.
  apply startIteration_fs_spec in Hfs
    as (Hst & _ & _ & _ & _ & _ & _ & Hstale & Hkeep).
  split_and!; [done|done|done|]. intros Hf. by apply Hkeep.
Qed.

(** ** The artifacts of one iteration *)

(** The artifact paths of iteration [n]: three components below the
    iteration folder. *)
Definition artifact_path (n : nat) (p : path) : Prop :=
  ∃ v x, p = [iterName n; v; x].

Lemma writeStyleFile_fs v st s u s' :
  writeStyleFile v st s = Ok u s' →
  changed_within (artifact_path (cache_iter s)) (fs s) (fs s').
Proof.
  unfold writeStyleFile. intros H. mget H.
  destruct (path_exists _ _).
  - apply ret_Ok in H as [_ <-]. apply changed_within_refl.
  - mstep H as d s1 H1. apply deref_Ok in H1 as [_ ->]. cbv zeta in H.
    apply fs_op_Ok in H as (f' & Hw & ->).
    apply write_file_Some in Hw as (_ & _ & ->). simpl.
    apply changed_within_insert. by eexists _, _.
Qed.

Lemma prepareFormat_fs l items s toRun s' :
  prepareFormat l items s = Ok toRun s' →
  changed_within (artifact_path (cache_iter s)) (fs s) (fs s')
  ∧ Forall (λ cwd, ∃ v, cwd = getValueDir (cache_iter s) v) toRun.
Proof.
  revert s toRun. induction items as [|[valName valDict] items IH];
    intros s toRun H; simpl in H.
  - apply ret_Ok in H as [<- <-]. split; [apply changed_within_refl|done].
  - mget H.
    destruct (hasFmtCache s valName); [by eapply IH|].
    mstep H as st s1 H1. unfold deepcopy in H1.
    mstep H1 as d0 s0 H0. apply deref_Ok in H0 as [Hd0 ->].
    apply alloc_Ok in H1 as [-> ->].
    mstep H as d s2 H2. apply deref_Ok in H2 as [Hd ->].
    mstep H as ? s3 H3. unfold store in H3. apply modify_Ok in H3 as ->.
    mstep H as ? s4 H4.
    pose proof (writeStyleFile_only_fs _ _ _ _ _ H4) as F4.
    apply writeStyleFile_fs in H4. simpl in H4.
    cbv zeta in H. mstep H as toRun' s5 H5. apply ret_Ok in H as [<- ->].
    apply IH in H5 as [H5 Hjobs].
    rewrite (only_fs_iter _ _ F4) in H5, Hjobs. simpl in H5, Hjobs.
    split; [by eapply changed_within_trans|].
    constructor; [by eexists|done].
Qed.

Lemma invokeCommandsInParallelCwd_fs inputSC jobs s u s' n :
  invokeCommandsInParallelCwd inputSC jobs s = Ok u s' →
  Forall (λ cwd, ∃ v, cwd = getValueDir n v) jobs →
  changed_within (artifact_path n) (fs s) (fs s').
Proof.
  unfold invokeCommandsInParallelCwd. revert s.
  induction jobs as [|cwd jobs IH]; intros s H Hjobs; simpl in H.
  - apply ret_Ok in H as [_ <-]. apply changed_within_refl.
  - apply Forall_cons in Hjobs as [[v ->] Hjobs].
    mstep H as ? s1 H1. mget H1.
    destruct (is_dir _ _); [|done]. apply modify_Ok in H1 as ->.
    apply IH in H; [|done]. simpl in H.
    eapply changed_within_trans; [|exact H].
    unfold run_format. apply changed_within_shell_redirect.
    by eexists _, _.
Qed.

(** *** The diff batch *)

(** The output of [diff -u] on the file [sample] and the file [a]. *)
Definition diff_output (sample : path) (f : FS) (a : path) : string :=
  match file_content f sample, file_content f a with
  | Some x, Some y => diff_u x y
  | _, _ => ""
  end.

(** [settled sample f a b]: running the diff of [a] into [b] once more
    changes nothing. *)
Definition settled (sample : path) (f : FS) (a b : path) : Prop :=
  f !! b = Some (File (diff_output sample f a))
  ∨ is_dir f (parent b) = false
  ∨ is_dir f b = true.

Definition diff_batch (inputSC : InputSourceCode) (cmds : list (path * path))
    (f : FS) : FS :=
  foldl (λ f cmd, run_diff inputSC cmd.1 cmd.2 f) f cmds.

Lemma run_diff_eq inputSC a b f :
  run_diff inputSC a b f = shell_redirect b (diff_output (absPath inputSC) f a) f.
Proof. done. Qed.

Lemma settled_run_diff inputSC f a b :
  settled (absPath inputSC) f a b → run_diff inputSC a b f = f.
Proof.
  rewrite run_diff_eq. intros Hs.
  destruct (shell_redirect_cases b (diff_output (absPath inputSC) f a) f)
    as [->|(Hp & Hb & ->)]; [done|].
  destruct Hs as [Hs|[Hs|Hs]]; [|congruence..].
  by apply insert_id.
Qed.

Lemma invokeCommandsInParallel_Ok inputSC cmds s :
  invokeCommandsInParallel inputSC cmds s =
    Ok tt (mkState (diff_batch inputSC cmds (fs s)) (heap s) (cache_iter s)
             (cache_dirty s) (trace s ++ (EvDiff ∘ snd <$> cmds))).
Proof.
  unfold invokeCommandsInParallel, diff_batch. revert s.
  induction cmds as [|cmd cmds IH]; intros s; simpl.
  - rewrite app_nil_r. by destruct s.
  - rewrite bind_eval. unfold modify at 1. rewrite IH. simpl.
    by rewrite <- app_assoc.
Qed.

Lemma diff_batch_changed inputSC cmds f :
  changed_within (λ p, p ∈ cmds.*2) f (diff_batch inputSC cmds f).
Proof.
  unfold diff_batch. revert f.
  induction cmds as [|cmd cmds IH]; intros f.
  - apply changed_within_refl.
  - rewrite fmap_cons. cbn [foldl].
    apply (changed_within_trans _ _ (run_diff inputSC cmd.1 cmd.2 f)).
    + rewrite run_diff_eq. apply changed_within_shell_redirect.
      apply list_elem_of_here.
    + eapply changed_within_weaken; [|apply IH]. intros p Hp. by right.
Qed.

Lemma is_dir_ext f f' p : f' !! p = f !! p → is_dir f' p = is_dir f p.
Proof. unfold is_dir. by intros ->. Qed.

Lemma file_content_ext f f' p :
  f' !! p = f !! p → file_content f' p = file_content f p.
Proof. unfold file_content. by intros ->. Qed.

Lemma file_content_File (f : FS) (p : path) c :
  f !! p = Some (File c) → file_content f p = Some c.
Proof. unfold file_content. by intros ->. Qed.

Lemma nonempty_at_ext f f' p :
  f' !! p = f !! p → nonempty_at f' p = nonempty_at f p.
Proof. unfold nonempty_at, path_exists, getsize. by intros ->. Qed.

Lemma diff_output_ext inputSC f f' a :
  f' !! absPath inputSC = f !! absPath inputSC → f' !! a = f !! a →
  diff_output (absPath inputSC) f' a = diff_output (absPath inputSC) f a.
Proof.
  intros H1 H2. unfold diff_output.
  by rewrite (file_content_ext _ _ _ H1), (file_content_ext _ _ _ H2).
Qed.

Lemma settled_ext inputSC f f' a b :
  f' !! absPath inputSC = f !! absPath inputSC → f' !! a = f !! a →
  f' !! b = f !! b → f' !! parent b = f !! parent b →
  settled (absPath inputSC) f a b → settled (absPath inputSC) f' a b.
Proof.
  intros H1 H2 H3 H4. unfold settled.
  rewrite (diff_output_ext _ _ _ _ H1 H2), H3.
  by rewrite (is_dir_ext _ _ _ H3), (is_dir_ext _ _ _ H4).
Qed.

Lemma shell_redirect_cases3 p out f :
  (is_dir f (parent p) = false ∧ shell_redirect p out f = f)
  ∨ (is_dir f p = true ∧ shell_redirect p out f = f)
  ∨ (is_dir f (parent p) = true ∧ is_dir f p = false
     ∧ shell_redirect p out f = <[p := File out]> f).
Proof.
  unfold shell_redirect, write_file.
  destruct (is_dir f (parent p)) eqn:E1; [|by left].
  destruct (is_dir f p) eqn:E2; simpl; [right; by left|].
  right. by right.
Qed.

Lemma run_diff_settled inputSC f a b :
  a ≠ b → absPath inputSC ≠ b → parent b ≠ b →
  settled (absPath inputSC) (run_diff inputSC a b f) a b.
Proof.
  intros Ha Hi Hp. rewrite run_diff_eq.
  destruct (shell_redirect_cases3 b (diff_output (absPath inputSC) f a) f)
    as [[H ->]|[[H ->]|(H1 & H2 & ->)]].
  - right. by left.
  - right. by right.
  - left. rewrite lookup_insert_eq. do 2 f_equal. symmetry.
    apply diff_output_ext; by rewrite lookup_insert_ne.
Qed.

(** After the batch, every command of the batch is settled, provided the
    commands write to distinct files and read none of them. *)
Lemma diff_batch_settled inputSC cmds f a b :
  NoDup (cmds.*2) →
  (∀ c, c ∈ cmds → c.1 ∉ cmds.*2 ∧ parent c.2 ∉ cmds.*2) →
  absPath inputSC ∉ cmds.*2 →
  (a, b) ∈ cmds →
  settled (absPath inputSC) (diff_batch inputSC cmds f) a b.
Proof.
  unfold diff_batch. revert f.
  induction cmds as [|c cs IH]; intros f Hnd Hread Hin Hab.
  - by apply elem_of_nil in Hab.
  - rewrite fmap_cons in Hnd, Hin. apply NoDup_cons in Hnd as [Hc Hnd].
    apply not_elem_of_cons in Hin as [Hin1 Hin2]. cbn [foldl].
    apply elem_of_cons in Hab as [<-|Hab].
    + destruct (Hread (a, b)) as [Ha Hp]; [by left|].
      rewrite fmap_cons in Ha, Hp. simpl in *.
      apply not_elem_of_cons in Ha as [Ha1 Ha2].
      apply not_elem_of_cons in Hp as [Hp1 Hp2].
      pose proof (diff_batch_changed inputSC cs (run_diff inputSC a b f))
        as Hch. unfold diff_batch in Hch.
      eapply settled_ext; [by apply Hch..|].
      by apply run_diff_settled.
    + apply IH; [done| |done|done].
      intros c' Hc'. destruct (Hread c') as [H1 H2]; [by right|].
      rewrite fmap_cons in H1, H2.
      apply not_elem_of_cons in H1 as [_ H1].
      by apply not_elem_of_cons in H2 as [_ H2].
Qed.

(** *** Value names *)

Lemma dict_keys_set {V} (d : pydict V) k v :
  dict_keys (dict_set d k v) =
    if decide (k ∈ dict_keys d) then dict_keys d else dict_keys d ++ [k].
Proof.
  clear_oracles. unfold dict_keys.
  induction d as [|[k' v'] d IH]; [done|]. cbn [dict_set].
  destruct (decide (k' = k)) as [->|Hk]; rewrite !fmap_cons; cbn [fst].
  - rewrite decide_True; [done|]. by left.
  - rewrite IH. destruct (decide (k ∈ d.*1)) as [Hin|Hin].
    + rewrite decide_True; [done|]. by right.
    + rewrite decide_False; [done|]. by intros [?|?]%elem_of_cons.
Qed.

Lemma dict_set_NoDup {V} (d : pydict V) k v :
  NoDup (dict_keys d) → NoDup (dict_keys (dict_set d k v)).
Proof.
  intros Hd. rewrite dict_keys_set. case_decide as Hk; [done|].
  apply NoDup_app. split_and!; [done| |apply NoDup_singleton].
  intros x Hx ->%list_elem_of_singleton. done.
Qed.

Lemma resolveValues_NoDup key values acc names :
  resolveValues key values acc = Some names →
  NoDup (dict_keys acc) → NoDup (dict_keys names).
Proof.
  revert acc. induction values as [|[v|[|[vkey vval] d]] values IH];
    intros acc H Hacc; simpl in H.
  - by injection H as <-.
  - eapply IH; [done|]. by apply dict_set_NoDup.
  - done.
  - eapply IH; [done|]. by apply dict_set_NoDup.
Qed.

Lemma elem_of_diffCommands s valNames c :
  c ∈ diffCommands s valNames ↔
  ∃ v, v ∈ valNames ∧ hasDiffCache s v = false
       ∧ c = (getFmtFilename (cache_iter s) v, getDiffFilename (cache_iter s) v).
Proof.
  unfold diffCommands. rewrite list_elem_of_omap. split.
  - intros (v & Hv & Hc). exists v. destruct (hasDiffCache s v); [done|].
    by injection Hc as <-.
  - intros (v & Hv & Hd & ->). exists v. by rewrite Hd.
Qed.

Lemma getDiffFilename_inj n v w :
  getDiffFilename n v = getDiffFilename n w → v = w.
Proof. by intros [= ?]. Qed.

Lemma diffCommands_NoDup s valNames :
  NoDup valNames → NoDup (diffCommands s valNames).*2.
Proof.
  unfold diffCommands. induction 1 as [|v vs Hv Hvs IH]; simpl.
  - constructor.
  - destruct (hasDiffCache s v); [done|]. simpl. constructor; [|done].
    intros ((a & b) & Hb & (w & Hw & Hc)%list_elem_of_omap)%list_elem_of_fmap.
    simpl in Hb. subst b. destruct (hasDiffCache s w); [done|].
    injection Hc as _ Hc. by subst.
Qed.

(** *** What one option leaves in the dump directory *)

(** The canonical sample is a file directly in the dump directory, and
    is no iteration folder. *)
Definition wf_input (inputSC : InputSourceCode) : Prop :=
  ∃ a, absPath inputSC = [a] ∧ ∀ k, a ≠ iterName k.

(** [cached_iter sample f n key str valNames]: the folder of iteration
    [n] holds the signature [(key, str)], and for every value a
    non-empty formatted file and a diff that is either non-empty or would
    come out the same if it were computed again. *)
Definition cached_iter (sample : path) (f : FS) (n : nat)
    (key str : string) (valNames : list string) : Prop :=
  f !! iterDir n = Some Dir
  ∧ f !! getFullFilename n "key" = Some (File key)
  ∧ f !! getFullFilename n "baseStyle" = Some (File str)
  ∧ ∀ v, v ∈ valNames →
      is_Some (f !! getValueDir n v)
      ∧ nonempty_at f (getFmtFilename n v) = true
      ∧ (nonempty_at f (getDiffFilename n v) = true
         ∨ settled sample f (getFmtFilename n v) (getDiffFilename n v)).

Lemma cached_iter_ext inputSC f f' n key str valNames :
  (∀ p, iterDir n `prefix_of` p → f' !! p = f !! p) →
  f' !! absPath inputSC = f !! absPath inputSC →
  cached_iter (absPath inputSC) f n key str valNames →
  cached_iter (absPath inputSC) f' n key str valNames.
Proof.
  intros Hsame Habs (H1 & H2 & H3 & H4).
  assert (∀ q, f' !! (iterName n :: q) = f !! (iterName n :: q)) as Hq.
  { intros q. apply Hsame. by exists q. }
  unfold cached_iter, getFullFilename, getValueDir, getFmtFilename,
    getDiffFilename, getFullFilename2, iterDir in *. simpl in *.
  rewrite !Hq. split_and!; [done..|].
  intros v Hv. destruct (H4 v Hv) as (E1 & E2 & E3).
  split_and!.
  - by rewrite Hq.
  - by rewrite (nonempty_at_ext f f') by apply Hq.
  - destruct E3 as [E3|E3].
    + left. by rewrite (nonempty_at_ext f f') by apply Hq.
    + right. eapply settled_ext; [done|apply Hq..|done].
Qed.

Lemma artifact_path_inv n (p : path) :
  artifact_path n p → iterDir n `prefix_of` p ∧ length p = 3.
Proof. intros (v & x & ->). split; [by eexists|done]. Qed.

Lemma experimentForOption_fs inputSC l key values prev s r s' :
  wf_input inputSC →
  experimentForOption inputSC l key values prev s = Ok r s' →
  ∃ names d,
    resolveValues key values [] = Some names
    ∧ heap s !! l = Some d
    ∧ cached_iter (absPath inputSC) (fs s') (S (cache_iter s)) key (json_dumps d)
        (dict_keys names)
    ∧ (∀ p, p ≠ [] → ¬ iterDir (S (cache_iter s)) `prefix_of` p →
            fs s' !! p = fs s !! p)
    ∧ (fs s' !! [] = fs s !! [] ∨ fs s' !! [] = Some Dir).
Proof.
  intros (ap & Hap & Hapne) H. unfold experimentForOption in H.
  mstep H as names s0 H0.
  destruct (resolveValues key values []) as [names'|] eqn:Hres; [|done].
  apply ret_Ok in H0 as [-> <-]. cbv zeta in H.
  pose proof (resolveValues_NoDup _ _ _ _ Hres (NoDup_nil_2)) as Hnd.
  mstep H as ? s1 H1.
  apply startIteration_Ok_iff in H1 as (d & f1 & stale & Hd & Hfs & ->).
  apply startIteration_fs_spec in Hfs
    as (_ & Hframe & Hroot & HI & Hkey & Hstyle & Hdirs & _ & _).
  set (n := S (cache_iter s)) in *.
  mstep H as toRun s2 H2.
  pose proof (prepareFormat_frame _ _ _ _ _ H2) as (_ & Ei2 & _ & _).
  apply prepareFormat_fs in H2 as [C2 Hjobs]. simpl in C2, Hjobs, Ei2.
  mstep H as ? s3 H3.
  pose proof (invokeCommandsInParallelCwd_same_cache _ _ _ _ _ H3)
    as (_ & Ei3 & _).
  apply (invokeCommandsInParallelCwd_fs _ _ _ _ _ n) in H3 as C3; [|done].
  mstep H as ? s4 H4. apply checkOutputs_Ok in H4 as [-> Hfmt].
  mget H. mstep H as ? s5 H5.
  rewrite invokeCommandsInParallel_Ok in H5. injection H5 as <- <-.
  mget H.
  destruct (decide_option _ _ _) as [dec|]; [|done].
  assert (fs s' = diff_batch inputSC (diffCommands s3 (dict_keys names))
                    (fs s3)) as ->.
  { mstep H as ? s6 H6. apply ret_Ok in H as [_ <-].
    destruct (ignore dec).
    - by apply ret_Ok in H6 as [_ <-].
    - mstep H6 as ? s7 H7. apply deref_Ok in H7 as [_ ->].
      unfold store in H6. by apply modify_Ok in H6 as ->. }
  clear H. assert (cache_iter s3 = n) as En by congruence.
  set (cmds := diffCommands s3 (dict_keys names)).
  pose proof (diff_batch_changed inputSC cmds (fs s3)) as C5.
  assert (∀ p, p ∈ cmds.*2 →
            ∃ v, v ∈ dict_keys names ∧ hasDiffCache s3 v = false
                 ∧ p = getDiffFilename n v) as Hcmd.
  { intros p ((a & b) & -> & (v & Hv & Hdc & [= -> ->])%elem_of_diffCommands)%list_elem_of_fmap.
    exists v. by rewrite <- En. }
  assert (∀ p, ¬ artifact_path n p →
            diff_batch inputSC cmds (fs s3) !! p = f1 !! p) as Hkeep.
  { intros p Hp. rewrite C5, C3, C2; [done..|].
    intros (v & _ & _ & ->)%Hcmd. apply Hp. by eexists _, _. }
  assert (∀ v, v ∈ dict_keys names → getFmtFilename n v ∉ cmds.*2) as Hfmtne.
  { intros v Hv (w & Hw & Hdc & Heq)%Hcmd.
    specialize (Hfmt v Hv). unfold hasFmtCache, hasDiffCache in *.
    rewrite En in *. rewrite Heq in Hfmt. congruence. }
  exists names, d. split_and!; [done|done| | |].
  - unfold cached_iter. rewrite !Hkeep.
    2-4: intros (? & ? & ?); done.
    split_and!; [done..|]. intros v Hv. split_and!.
    + rewrite Hkeep; [by apply Hdirs|]. intros (? & ? & ?); done.
    + rewrite (nonempty_at_ext (fs s3)); [|by apply C5, Hfmtne].
      specialize (Hfmt v Hv). unfold hasFmtCache in Hfmt. by rewrite En in Hfmt.
    + destruct (hasDiffCache s3 v) eqn:Hdc.
      * left. rewrite (nonempty_at_ext (fs s3)).
        { unfold hasDiffCache in Hdc. by rewrite En in Hdc. }
        apply C5. intros (w & Hw & Hdcw & Heq)%Hcmd.
        apply getDiffFilename_inj in Heq. congruence.
      * right. apply diff_batch_settled.
        -- by apply diffCommands_NoDup.
        -- intros c (w & Hw & Hdcw & ->)%elem_of_diffCommands. simpl.
           rewrite En. split; [by apply Hfmtne|].
           intros (? & _ & _ & ?)%Hcmd. done.
        -- rewrite Hap. intros (? & _ & _ & ?)%Hcmd. done.
        -- apply elem_of_diffCommands. exists v. by rewrite En.
  - intros p Hp Hnp. rewrite Hkeep; [by apply Hframe|].
    by intros [? _]%artifact_path_inv.
  - rewrite Hkeep; [done|]. intros (? & ? & ?); done.
Qed.

(** *** Running an option on a valid cache *)

Lemma ensure_dirs_all_exist ps f :
  (∀ p, p ∈ ps → is_Some (f !! p)) → ensure_dirs ps f = Some f.
Proof.
  induction ps as [|p ps IH]; intros Hex; simpl; [done|].
  unfold ensure_dir. rewrite (proj2 (path_exists_true f p)).
  - apply IH. intros q Hq. apply Hex. by right.
  - apply Hex. by left.
Qed.

Lemma write_file_same p c f :
  is_dir f (parent p) = true → f !! p = Some (File c) →
  write_file p c f = Some f.
Proof.
  intros Hp Hc. apply write_file_Some. split_and!; [done| |].
  - apply is_dir_false. by rewrite Hc.
  - by rewrite insert_id.
Qed.

Lemma startIteration_fs_cached key str values n f :
  f !! iterDir n = Some Dir →
  f !! getFullFilename n "key" = Some (File key) →
  f !! getFullFilename n "baseStyle" = Some (File str) →
  (∀ v, v ∈ values → is_Some (f !! getValueDir n v)) →
  startIteration_fs key str values n false f = Some (f, false).
Proof.
  intros HI Hkey Hstyle Hdirs. apply startIteration_fs_Some.
  exists f, f, f, f. split_and!.
  - unfold ensure_dir. by rewrite (proj2 (path_exists_true _ _)) by eauto.
  - unfold stale_check, readable, is_file, recorded, file_content.
    rewrite Hkey, Hstyle. simpl. rewrite !orb_true_r. simpl.
    by rewrite !bool_decide_eq_false_2 by (by intros ?).
  - done.
  - apply write_file_same; [|done]. by apply is_dir_true.
  - apply write_file_same; [|done]. by apply is_dir_true.
  - apply ensure_dirs_all_exist.
    intros p (v & -> & Hv)%list_elem_of_fmap. by apply Hdirs.
Qed.

Lemma prepareFormat_cached l items s :
  (∀ v, v ∈ dict_keys items → hasFmtCache s v = true) →
  prepareFormat l items s = Ok [] s.
Proof.
  induction items as [|[valName valDict] items IH]; intros Hall; simpl.
  - done.
  - rewrite bind_eval. unfold get_state at 1.
    rewrite Hall; [|by left]. apply IH. intros v Hv. apply Hall. by right.
Qed.

Lemma checkOutputs_all valNames s :
  (∀ v, v ∈ valNames → hasFmtCache s v = true) →
  checkOutputs valNames s = Ok tt s.
Proof.
  unfold checkOutputs. induction valNames as [|v vs IH]; intros Hall; simpl.
  - done.
  - rewrite bind_eval, bind_eval. unfold get_state at 1.
    rewrite Hall; [|by left]. unfold mret at 1, M_ret at 1.
    apply IH. intros w Hw. apply Hall. by right.
Qed.

Lemma diff_batch_id inputSC cmds f :
  (∀ c, c ∈ cmds → settled (absPath inputSC) f c.1 c.2) →
  diff_batch inputSC cmds f = f.
Proof.
  unfold diff_batch. induction cmds as [|c cs IH]; intros Hall; [done|].
  cbn [foldl]. rewrite settled_run_diff; [|apply Hall; by left].
  apply IH. intros c' Hc'. apply Hall. by right.
Qed.

Lemma experimentForOption_cached inputSC l key values prev s names d dec :
  resolveValues key values [] = Some names →
  heap s !! l = Some d →
  cache_dirty s = false →
  cached_iter (absPath inputSC) (fs s) (S (cache_iter s)) key (json_dumps d)
    (dict_keys names) →
  decide_option (scoreValues (set_iter (S (cache_iter s)) s) (dict_keys names))
    (numLines inputSC) prev = Some dec →
  experimentForOption inputSC l key values prev s =
    Ok (l, minVal dec)
      (mkState (fs s)
         (<[l := if ignore dec then d else dict_set d key (winner dec)]>
            (heap s))
         (S (cache_iter s)) false
         (trace s ++ (EvDiff ∘ snd
                      <$> diffCommands (set_iter (S (cache_iter s)) s)
                            (dict_keys names)))).
Proof.
  intros Hres Hd Hclean (HI & Hkey & Hstyle & Hvals) Hdec.
  set (s1 := mkState (fs s) (heap s) (S (cache_iter s)) false (trace s)).
  assert (startIteration key l (dict_keys names) s = Ok tt s1) as E1.
  { apply startIteration_Ok_iff. exists d, (fs s), false.
    split_and!; [done| |done]. rewrite Hclean.
    apply startIteration_fs_cached; try done. intros v Hv.
    by destruct (Hvals v Hv). }
  assert (∀ v, v ∈ dict_keys names → hasFmtCache s1 v = true) as Hfmt.
  { intros v Hv. by destruct (Hvals v Hv) as (_ & ? & _). }
  assert (diff_batch inputSC (diffCommands s1 (dict_keys names)) (fs s)
          = fs s) as E5.
  { apply diff_batch_id.
    intros c (v & Hv & Hdc & ->)%elem_of_diffCommands. simpl.
    destruct (Hvals v Hv) as (_ & _ & [Hne|Hs]); [|done].
    unfold hasDiffCache in Hdc. simpl in Hdc. congruence. }
  unfold experimentForOption. rewrite Hres.
  rewrite bind_eval. unfold mret at 1, M_ret at 1. cbv zeta.
  rewrite bind_eval, E1.
  rewrite bind_eval, (prepareFormat_cached _ _ _ Hfmt).
  rewrite bind_eval. unfold invokeCommandsInParallelCwd at 1. simpl for_each.
  unfold mret at 1, M_ret at 1.
  rewrite bind_eval, (checkOutputs_all _ _ Hfmt).
  rewrite bind_eval. unfold get_state at 1.
  rewrite bind_eval, invokeCommandsInParallel_Ok.
  rewrite bind_eval. unfold get_state at 1.
  cbn [fs heap cache_iter cache_dirty trace s1]. rewrite E5.
  erewrite scoreValues_ext; [rewrite Hdec|done..].
  rewrite bind_eval. destruct (ignore dec).
  - unfold mret, M_ret. f_equal. f_equal. by rewrite list_insert_id.
  - rewrite bind_eval. unfold deref at 1. proj_simpl. rewrite Hd.
    unfold store, modify, mret, M_ret. done.
Qed.

(** ** The whole option list *)

(** The score records of iteration [n], read from the directory [f]. *)
Definition scores_at (f : FS) (n : nat) (valNames : list string) :
    list (nat * string) :=
  scoreValues (mkState f [] n false []) valNames.

Lemma scoreValues_scores_at s valNames :
  scoreValues s valNames = scores_at (fs s) (cache_iter s) valNames.
Proof. done. Qed.

Lemma scores_at_ext f f' n valNames :
  (∀ p, iterDir n `prefix_of` p → f' !! p = f !! p) →
  scores_at f' n valNames = scores_at f n valNames.
Proof.
  intros Hsame. unfold scores_at, scoreValues.
  apply list_fmap_ext. intros i v _. f_equal.
  unfold diffVal. simpl. rewrite (file_content_ext f f'); [done|].
  apply Hsame. by eexists.
Qed.

(** The style and threshold that the decisions on the scores found in
    [f] lead to, starting from [d] and [prev] after iteration [n]. *)
Fixpoint replay (lines : nat) (f : FS) (n : nat)
    (opts : list (pydict (list candidate))) (d : style) (prev : nat) :
    style * nat :=
  match opts with
  | ((key, values) :: _) :: rest =>
      match resolveValues key values [] with
      | Some names =>
          match decide_option (scores_at f (S n) (dict_keys names)) lines prev
          with
          | Some dec =>
              replay lines f (S n) rest
                (if ignore dec then d else dict_set d key (winner dec))
                (minVal dec)
          | None => (d, prev)
          end
      | None => (d, prev)
      end
  | _ => (d, prev)
  end.

(** [cached_all sample lines f n opts d prev]: the directory [f] holds a
    valid cache for every option of [opts], in the iterations after [n],
    when the style is [d] and the threshold [prev] on entry. *)
Fixpoint cached_all (sample : path) (lines : nat) (f : FS) (n : nat)
    (opts : list (pydict (list candidate))) (d : style) (prev : nat) : Prop :=
  match opts with
  | [] => True
  | [] :: _ => False
  | ((key, values) :: _) :: rest =>
      ∃ names dec,
        resolveValues key values [] = Some names
        ∧ cached_iter sample f (S n) key (json_dumps d) (dict_keys names)
        ∧ decide_option (scores_at f (S n) (dict_keys names)) lines prev
          = Some dec
        ∧ cached_all sample lines f (S n) rest
            (if ignore dec then d else dict_set d key (winner dec))
            (minVal dec)
  end.

Lemma iterDir_prefix_other n k (p : path) :
  iterDir n `prefix_of` p → iterDir k `prefix_of` p → k = n.
Proof.
  intros [q ->] [q' Hq]. unfold iterDir in Hq. simpl in Hq.
  apply iterName_inj. congruence.
Qed.

(** A successful run of the loop leaves a valid cache for all its
    options; the style object holds what the decisions lead to; only
    the folders of its own iterations have changed. *)
Lemma main_loop_fs inputSC l opts prev s p s' d :
  wf_input inputSC →
  main_loop inputSC l opts prev s = Ok p s' →
  heap s !! l = Some d →
  cached_all (absPath inputSC) (numLines inputSC) (fs s') (cache_iter s)
    opts d prev
  ∧ heap s' !! l
    = Some (replay (numLines inputSC) (fs s') (cache_iter s) opts d prev).1
  ∧ (∀ q, q ≠ [] → (∀ k, (cache_iter s < k)%nat → ¬ iterDir k `prefix_of` q) →
          fs s' !! q = fs s !! q)
  ∧ (fs s' !! [] = fs s !! [] ∨ fs s' !! [] = Some Dir).
Proof.
  intros Hwf. revert prev s d.
  induction opts as [|[|[key values] entry] rest IH]; intros prev s d H Hd.
  - apply ret_Ok in H as [_ <-]. simpl. split_and!; [done|done|done|by left].
  - done.
  - cbn [main_loop] in H. mstep H as r s1 H1.
    pose proof H1 as (names & d' & dec & h & Hres & Hd' & Hdec & -> & Ei & Hh)%experimentForOption_Ok.
    pose proof (eq_trans (eq_sym Hd') Hd) as [= ->].
    apply (experimentForOption_fs _ _ _ _ _ _ _ _ Hwf) in H1
      as (names' & d' & Hres' & Hd'' & Hc & Hframe1 & Hroot1).
    pose proof (eq_trans (eq_sym Hres') Hres) as [= ->].
    pose proof (eq_trans (eq_sym Hd'') Hd) as [= ->].
    set (d1 := if ignore dec then d else dict_set d key (winner dec)) in *.
    assert (heap s1 !! l = Some d1) as Hd1.
    { rewrite Hh. by eapply lookup_insert_app_l. }
    simpl in H. destruct (IH _ _ _ H Hd1) as (Hall & Hheap & Hframe2 & Hroot2).
    rewrite Ei in Hall, Hheap, Hframe2.
    assert (∀ q, iterDir (S (cache_iter s)) `prefix_of` q →
                 fs s' !! q = fs s1 !! q) as Hsame.
    { intros q Hq. apply Hframe2.
      - intros ->. by apply prefix_nil_inv in Hq.
      - intros k Hk Hkq. pose proof (iterDir_prefix_other _ _ _ Hq Hkq). lia. }
    assert (fs s' !! absPath inputSC = fs s1 !! absPath inputSC) as Habs.
    { destruct Hwf as (a & -> & Ha). apply Hframe2; [done|].
      intros k _ [q [= ?]]. by eapply Ha. }
    assert (decide_option (scores_at (fs s') (S (cache_iter s)) (dict_keys names))
              (numLines inputSC) prev = Some dec) as Hdec'.
    { rewrite (scores_at_ext (fs s1)) by done.
      by rewrite scoreValues_scores_at, Ei in Hdec. }
    split_and!.
    + cbn [cached_all]. exists names, dec. split_and!; [done| |done|done].
      by eapply cached_iter_ext.
    + cbn [replay]. by rewrite Hres, Hdec'.
    + intros q Hq Hk. rewrite Hframe2, Hframe1; [done|done| |done|].
      * apply Hk. lia.
      * intros k Hlt. apply Hk. lia.
    + destruct Hroot2 as [->|?]; [|by right]. done.
Qed.

(** On a valid cache the loop runs to its end without touching the dump
    directory; the only processes it starts are diffs whose output file
    is empty. *)
Lemma main_loop_cached inputSC l opts prev s d :
  cached_all (absPath inputSC) (numLines inputSC) (fs s) (cache_iter s)
    opts d prev →
  cache_dirty s = false →
  heap s !! l = Some d →
  ∃ tr,
    main_loop inputSC l opts prev s =
      Ok (replay (numLines inputSC) (fs s) (cache_iter s) opts d prev).2
        (mkState (fs s)
           (<[l := (replay (numLines inputSC) (fs s) (cache_iter s) opts d
                      prev).1]> (heap s))
           (cache_iter s + length opts) false (trace s ++ tr))
    ∧ Forall (λ e, ∃ p, e = EvDiff p ∧ nonempty_at (fs s) p = false) tr.
Proof.
  revert prev s d.
  induction opts as [|[|[key values] entry] rest IH]; intros prev s d Hall Hc Hd.
  - exists []. split; [|done]. simpl. unfold mret, M_ret.
    rewrite list_insert_id by done. rewrite app_nil_r, Nat.add_0_r.
    destruct s; simpl in *; by subst.
  - done.
  - cbn [cached_all] in Hall.
    destruct Hall as (names & dec & Hres & Hci & Hdec & Hall).
    set (d1 := if ignore dec then d else dict_set d key (winner dec)) in *.
    pose proof (experimentForOption_cached inputSC l key values prev s names
                  d dec Hres Hd Hc Hci Hdec) as H1.
    fold d1 in H1.
    set (s1 := mkState _ _ _ _ _) in H1.
    assert (heap s1 !! l = Some d1) as Hd1.
    { simpl. apply list_lookup_insert_eq. by eapply lookup_lt_Some. }
    destruct (IH (minVal dec) s1 d1 Hall eq_refl Hd1) as (tr & H2 & Htr).
    eexists. split.
    + cbn [main_loop]. rewrite bind_eval, H1. cbn [fst snd]. rewrite H2.
      cbn [replay]. rewrite Hres, Hdec. fold d1. simpl.
      rewrite list_insert_insert_eq, <- app_assoc.
      by rewrite Nat.add_succ_r.
    + apply Forall_app. split; [|done].
      apply Forall_fmap, Forall_forall.
      intros c (v & Hv & Hdc & ->)%elem_of_diffCommands. simpl.
      eexists. split; [done|]. exact Hdc.
Qed.

(** ** Lines of the canonical sample *)

(** The text is empty or ends with a newline. *)
Fixpoint newline_terminated (s : string) : bool :=
  match s with
  | "" => true
  | String c "" => bool_decide (c = newline)
  | String _ s' => newline_terminated s'
  end.

Lemma readlines_app a b :
  newline_terminated a = true →
  readlines (a +:+ b) = readlines a ++ readlines b.
Proof.
  induction a as [|c a IH]; [done|]. intros Ha.
  rewrite string_app_cons. cbn [readlines].
  destruct a as [|c' a].
  - simpl in Ha. apply bool_decide_eq_true in Ha as ->.
    rewrite string_app_nil_l. by rewrite decide_True.
  - rewrite IH by done. case_decide; [done|].
    cbn [readlines]. by destruct (decide (c' = newline)), (readlines a).
Qed.

Lemma readlines_separated texts :
  Forall (λ c, newline_terminated c = true) texts →
  readlines (join (separated texts)) = separated texts.
Proof.
  unfold separated. induction 1 as [|c cs Hc Hcs IH]; [done|].
  rewrite fmap_cons. cbn [concat]. rewrite <- app_assoc, join_app.
  rewrite join_readlines, readlines_app by done. f_equal.
  rewrite join_app, readlines_app by done. by rewrite IH.
Qed.

(** *** Newline translation *)

Fixpoint no_cr (s : string) : bool :=
  match s with
  | "" => true
  | String c s' => bool_decide (c ≠ cr) && no_cr s'
  end.

Lemma no_cr_translate b s : no_cr (translate_from b s) = true.
Proof.
  revert b. induction s as [|c s IH]; intros b; [done|]. cbn [translate_from].
  destruct (decide (c = cr)) as [->|Hc].
  - cbn [no_cr]. by rewrite IH.
  - destruct (decide (c = newline)) as [->|Hn].
    + destruct b; [done|]. cbn [no_cr]. by rewrite IH.
    + cbn [no_cr]. by rewrite IH, bool_decide_eq_true_2.
Qed.

Lemma translate_no_cr s : no_cr s = true → translate_from false s = s.
Proof.
  induction s as [|c s IH]; [done|]. cbn [no_cr translate_from].
  intros [Hc Hs]%andb_true_iff. apply bool_decide_eq_true in Hc.
  rewrite decide_False by done. rewrite IH by done.
  by destruct (decide (c = newline)) as [->|].
Qed.

Lemma universal_newlines_idemp s :
  universal_newlines (universal_newlines s) = universal_newlines s.
Proof. apply translate_no_cr, no_cr_translate. Qed.

Lemma no_cr_app a b : no_cr (a +:+ b) = no_cr a && no_cr b.
Proof.
  induction a as [|c a IH]; [done|]. rewrite string_app_cons.
  cbn [no_cr]. by rewrite IH, andb_assoc.
Qed.

Lemma translate_nil b s :
  translate_from b s = "" → s = "" ∨ (b = true ∧ s = nl).
Proof.
  destruct s as [|c s]; [by left|]. cbn [translate_from].
  destruct (decide (c = cr)); [done|].
  destruct (decide (c = newline)) as [->|]; [|done].
  destruct b; [|done]. destruct s as [|c' s]; [by right|].
  cbn [translate_from]. by repeat case_decide.
Qed.

Lemma newline_terminated_cons c s :
  newline_terminated (String c s)
  = if decide (s = "") then bool_decide (c = newline) else newline_terminated s.
Proof. by destruct s. Qed.

Lemma newline_terminated_translate b s :
  newline_terminated s = true → newline_terminated (translate_from b s) = true.
Proof.
  revert b. induction s as [|c s IH]; intros b; [done|].
  rewrite newline_terminated_cons. cbn [translate_from].
  destruct (decide (s = "")) as [->|Hs].
  - intros ->%bool_decide_eq_true. rewrite decide_False by done.
    rewrite decide_True by done. by destruct b.
  - intros Hnt.
    destruct (decide (c = cr)) as [->|Hc].
    { rewrite newline_terminated_cons. case_decide; [done|]. by apply IH. }
    destruct (decide (c = newline)) as [->|Hn].
    { destruct b; [by apply IH|].
      rewrite newline_terminated_cons. case_decide; [done|]. by apply IH. }
    rewrite newline_terminated_cons. case_decide as Hnil; [|by apply IH].
    by apply translate_nil in Hnil as [?|[? _]].
Qed.

Lemma allLines_separated inputFiles :
  allLines inputFiles = separated (universal_newlines <$> inputFiles).
Proof. unfold allLines, separated. by rewrite <- list_fmap_compose. Qed.

Lemma no_cr_separated texts :
  Forall (λ c, no_cr c = true) texts → no_cr (join (separated texts)) = true.
Proof.
  unfold separated. induction 1 as [|c cs Hc Hcs IH]; [done|].
  rewrite fmap_cons. cbn [concat]. rewrite <- app_assoc, join_app.
  rewrite join_readlines, no_cr_app, Hc. cbn [app join foldr andb].
  fold (join (concat ((λ c, readlines c ++ [nl]) <$> cs))).
  by rewrite no_cr_app, IH.
Qed.

Lemma universal_newlines_allLines inputFiles :
  universal_newlines (join (allLines inputFiles)) = join (allLines inputFiles).
Proof.
  apply translate_no_cr. rewrite allLines_separated.
  apply no_cr_separated, Forall_fmap, Forall_forall. intros c _.
  apply no_cr_translate.
Qed.

Lemma readlines_allLines inputFiles :
  Forall (λ c, newline_terminated c = true) inputFiles →
  readlines (universal_newlines (join (allLines inputFiles)))
  = allLines inputFiles.
Proof.
  intros H. rewrite universal_newlines_allLines, allLines_separated.
  apply readlines_separated, Forall_fmap. eapply Forall_impl; [exact H|].
  intros c Hc. by apply newline_terminated_translate.
Qed.

(** ** The claims about one option *)

(** C1.  After a successful [experimentForOption], let the least and the
    greatest score of the value names be [minVal] and [maxVal], and the
    winner the first value name with the least score.  The style object
    passed in is unchanged when [minVal = maxVal] or [prevScore <= minVal],
    and otherwise differs from its old value only by [key] being set to
    the winner.  In particular, when all the values have the same score
    the style is unchanged; when two values differ and the least score is
    below [prevScore], the key is set. *)
Theorem C1_acceptance_policy inputSC baseStyle key values prevScore s r s' :
  experimentForOption inputSC baseStyle key values prevScore s = Ok r s' →
  ∃ names d dec i,
    resolveValues key values [] = Some names
    ∧ heap s !! baseStyle = Some d
    ∧ decide_option (scoreValues s' (dict_keys names)) (numLines inputSC)
        prevScore = Some dec
    (* [minVal] and [maxVal] are the least and the greatest score *)
    ∧ (∀ v, v ∈ dict_keys names →
            (minVal dec ≤ diffVal s' v ≤ maxVal dec)%nat)
    ∧ (∃ v, v ∈ dict_keys names ∧ diffVal s' v = maxVal dec)
    (* the winner is the first value name with the least score *)
    ∧ dict_keys names !! i = Some (winner dec)
    ∧ diffVal s' (winner dec) = minVal dec
    ∧ (∀ j v, (j < i)%nat → dict_keys names !! j = Some v →
              (minVal dec < diffVal s' v)%nat)
    (* the policy *)
    ∧ heap s' !! baseStyle =
        Some (if bool_decide (minVal dec = maxVal dec)
                 || bool_decide (prevScore ≤ minVal dec)%nat
              then d else dict_set d key (winner dec))
    ∧ ((∀ v w, v ∈ dict_keys names → w ∈ dict_keys names →
               diffVal s' v = diffVal s' w) →
       heap s' !! baseStyle = Some d)
    ∧ ((∃ v w, v ∈ dict_keys names ∧ w ∈ dict_keys names
               ∧ diffVal s' v ≠ diffVal s' w) →
       (minVal dec < prevScore)%nat →
       heap s' !! baseStyle = Some (dict_set d key (winner dec))).
Proof.
  intros H.
  apply experimentForOption_Ok in H as (names & d & dec & h & Hres & Hd & Hdec & _ & _ & Hh).
  pose proof (decide_option_Some _ _ _ _ Hdec)
    as (Hmin & Hle & (vmax & Hmax) & Hig).
  pose proof Hmin as (i & Hi & _ & Hlt)%first_min_spec.
  apply scoreValues_lookup in Hi as [Hi1 Hi2]. cbn [fst snd] in Hi1, Hi2.
  assert (∀ v, v ∈ dict_keys names →
            (minVal dec ≤ diffVal s' v ≤ maxVal dec)%nat) as Hbound.
  { intros v Hv. apply (Hle (diffVal s' v, v)). unfold scoreValues.
    apply list_elem_of_fmap. by exists v. }
  assert (vmax ∈ dict_keys names ∧ diffVal s' vmax = maxVal dec) as [Hv1 E1].
  { unfold scoreValues in Hmax.
    apply list_elem_of_fmap in Hmax as (v & [= E ->] & Hv). by split. }
  assert (heap s' !! baseStyle =
            Some (if bool_decide (minVal dec = maxVal dec)
                     || bool_decide (prevScore ≤ minVal dec)%nat
                  then d else dict_set d key (winner dec))) as Hpol.
  { rewrite <- Hig, Hh. by eapply lookup_insert_app_l. }
  exists names, d, dec, i.
  split_and!; [done|done|done|done|by exists vmax|done|done| |done| |].
  - intros j v Hj Hv. apply (Hlt j (diffVal s' v, v)); [done|].
    by apply scoreValues_lookup.
  - intros Heq. rewrite Hpol.
    assert (minVal dec = maxVal dec) as Hmm.
    { rewrite Hi2, <- E1. apply Heq; [by eapply list_elem_of_lookup_2|done]. }
    by rewrite bool_decide_eq_true_2.
  - intros (v & w & Hv & Hw & Hne) Hlow. rewrite Hpol.
    rewrite bool_decide_eq_false_2.
    + by rewrite bool_decide_eq_false_2 by lia.
    + intros Hmm. apply Hne.
      pose proof (Hbound v Hv). pose proof (Hbound w Hw). lia.
Qed.


(** C6.  The name recorded as the winner has the least score, and it is
    the first value with that score in the order of the value names; it
    is the head of the stably sorted records, and it is the value stored
    under [key] whenever the option is not ignored. *)
Theorem C6_winner_first_minimal inputSC baseStyle key values prevScore s r s' :
  experimentForOption inputSC baseStyle key values prevScore s = Ok r s' →
  ∃ names dec i,
    resolveValues key values [] = Some names
    ∧ decide_option (scoreValues s' (dict_keys names)) (numLines inputSC)
        prevScore = Some dec
    ∧ head (sort_results (scoreValues s' (dict_keys names)))
      = Some (minVal dec, winner dec)
    ∧ dict_keys names !! i = Some (winner dec)
    ∧ diffVal s' (winner dec) = minVal dec
    ∧ (∀ j v, dict_keys names !! j = Some v → (minVal dec ≤ diffVal s' v)%nat)
    ∧ (∀ j v, (j < i)%nat → dict_keys names !! j = Some v →
              (minVal dec < diffVal s' v)%nat)
    ∧ (ignore dec = false →
       ∃ d', heap s' !! baseStyle = Some d'
             ∧ dict_get d' key = Some (winner dec)).
Proof.
  intros H.
  apply experimentForOption_Ok in H as (names & d & dec & h & Hres & Hd & Hdec & _ & _ & Hh).
  pose proof (decide_option_Some _ _ _ _ Hdec) as (Hmin & _ & _ & _).
  pose proof Hmin as (i & Hi & Hle & Hlt)%first_min_spec.
  apply scoreValues_lookup in Hi as [Hi1 Hi2]. simpl in *.
  exists names, dec, i. split_and!; try done.
  - by rewrite head_sort_results.
  - intros j v Hv. apply (Hle j (diffVal s' v, v)).
    by apply scoreValues_lookup.
  - intros j v Hj Hv. apply (Hlt j (diffVal s' v, v)); [done|].
    by apply scoreValues_lookup.
  - intros Hig. rewrite Hig in Hh. eexists. split.
    + rewrite Hh. by eapply lookup_insert_app_l.
    + apply dict_get_set.
Qed.

(** C5 (the code departs from the claim).  The score of a value is the
    number of lines of its diff file that [grep] selects; a line that
    starts with a backslash is selected too, so on a diff that ends with
    the marker for a missing final newline the score is [5], while [4]
    lines start with [+] or [-]. *)
Theorem C5_backslash_line_is_counted :
  let s := mkState {[ getDiffFilename 1 "Never"
                      := File Sample.diff_without_final_newline ]}
             [] 1 false [] in
  scoreValues s ["Never"] = [(5, "Never")]
  ∧ count_marker_lines Sample.diff_without_final_newline = 4.
Proof. vm_compute. done. Qed.

(** ** The style file *)

(** C8.  Once [writeStyleFile] has returned for a value, the style file of
    that value exists, and a further call for the same value, with any
    style, changes nothing at all.  When the first call found no file it
    wrote the dump of its own style. *)
Theorem C8_style_file_written_once value st st' s u s1 :
  writeStyleFile value st s = Ok u s1 →
  path_exists (fs s1) (getStyleFilename (cache_iter s1) value) = true
  ∧ writeStyleFile value st' s1 = Ok tt s1
  ∧ (path_exists (fs s) (getStyleFilename (cache_iter s) value) = false →
     ∃ d, heap s !! st = Some d
          ∧ file_content (fs s1) (getStyleFilename (cache_iter s1) value)
            = Some (yaml_dump d)).
Proof.
  unfold writeStyleFile. intros H. mget H.
  destruct (path_exists (fs s) _) eqn:Hex.
  - apply ret_Ok in H as [_ <-]. split_and!; [done| |done].
    unfold mbind, M_bind, get_state. by rewrite Hex.
  - mstep H as d s2 H2. apply deref_Ok in H2 as [Hd ->]. cbv zeta in H.
    apply fs_op_Ok in H as (f' & Hw & ->). simpl.
    unfold write_file in Hw.
    destruct (is_dir _ _ && negb _); [|done]. injection Hw as <-.
    assert (path_exists (<[getStyleFilename (cache_iter s) value
                           := File (yaml_dump d)]> (fs s))
              (getStyleFilename (cache_iter s) value) = true) as Hex'.
    { unfold path_exists. apply bool_decide_eq_true.
      rewrite lookup_insert_eq. by eexists. }
    split_and!; [done| |].
    + unfold mbind, M_bind, get_state. simpl. by rewrite Hex'.
    + intros _. exists d. split; [done|].
      unfold file_content. by rewrite lookup_insert_eq.
Qed.

(** ** The check of the formatter outputs *)

Lemma checkOutputs_Raise valNames s v :
  v ∈ valNames → hasFmtCache s v = false →
  ∃ v0, v0 ∈ valNames ∧ hasFmtCache s v0 = false
        ∧ checkOutputs valNames s =
            Raise (SystemExit 1
                     ("ERROR: Formated file not generated: "
                      +:+ render (getFmtFilename (cache_iter s) v0)
                      +:+ "; invalid option?")) s.
Proof.
  unfold checkOutputs. induction valNames as [|w ws IH]; intros Hv Hfalse.
  - by apply elem_of_nil in Hv.
  - simpl. unfold mbind, M_bind, get_state.
    destruct (hasFmtCache s w) eqn:Hw.
    + apply elem_of_cons in Hv as [->|Hv]; [congruence|].
      destruct (IH Hv Hfalse) as (v0 & Hv0 & Hf0 & Hr).
      exists v0. split_and!; [by right|done|].
      unfold mret, M_ret. exact Hr.
    + exists w. split_and!; [by left|done|done].
Qed.

Lemma invokeCommandsInParallelCwd_trace inputSC jobs s u s' :
  invokeCommandsInParallelCwd inputSC jobs s = Ok u s' →
  trace s' = trace s ++ (EvFormat <$> jobs).
Proof.
  unfold invokeCommandsInParallelCwd. revert s.
  induction jobs as [|cwd jobs IH]; intros s H; simpl in H.
  - apply ret_Ok in H as [_ <-]. by rewrite app_nil_r.
  - mstep H as ? s1 H1. mget H1.
    destruct (is_dir (fs s) cwd); [|done].
    apply modify_Ok in H1 as ->. apply IH in H. rewrite H. simpl.
    by rewrite <- app_assoc.
Qed.

(** C9.  When, after the formatter runs of an iteration, some value has
    no non-empty formatted file, [experimentForOption] exits with status
    [1] and a message that names the formatted file of such a value.  It
    does so in the state the formatter runs left: no diff was run and
    each formatter process was started once. *)
Theorem C9_missing_output_is_fatal inputSC baseStyle key values prevScore
    names s u1 s1 toRun s2 u3 s3 v :
  resolveValues key values [] = Some names →
  startIteration key baseStyle (dict_keys names) s = Ok u1 s1 →
  prepareFormat baseStyle names s1 = Ok toRun s2 →
  invokeCommandsInParallelCwd inputSC toRun s2 = Ok u3 s3 →
  v ∈ dict_keys names → hasFmtCache s3 v = false →
  ∃ v0,
    v0 ∈ dict_keys names ∧ hasFmtCache s3 v0 = false
    ∧ experimentForOption inputSC baseStyle key values prevScore s =
        Raise (SystemExit 1
                 ("ERROR: Formated file not generated: "
                  +:+ render (getFmtFilename (cache_iter s3) v0)
                  +:+ "; invalid option?")) s3
    ∧ trace s3 = trace s ++ (EvFormat <$> toRun).
Proof.
  intros Hres H1 H2 H3 Hv Hfalse.
  destruct (checkOutputs_Raise _ _ _ Hv Hfalse) as (v0 & Hv0 & Hf0 & Hr).
  exists v0. split_and!; [done|done| |].
  - unfold experimentForOption. rewrite Hres.
    unfold mbind at 1, M_bind at 1. unfold mret at 1, M_ret at 1. cbv zeta.
    unfold mbind at 1, M_bind at 1. rewrite H1.
    unfold mbind at 1, M_bind at 1. rewrite H2.
    unfold mbind at 1, M_bind at 1. rewrite H3.
    unfold mbind at 1, M_bind at 1. by rewrite Hr.
  - apply invokeCommandsInParallelCwd_trace in H3. rewrite H3.
    apply prepareFormat_frame in H2 as (_ & _ & _ & ->).
    by apply startIteration_frame in H1 as (_ & _ & -> & _).
Qed.

(** ** Start-up *)

Lemma InputSourceCode_init_Ok inputFiles s inputSC s1 :
  InputSourceCode_init inputFiles s = Ok inputSC s1 →
  inputFiles ≠ []
  ∧ only_fs s s1
  ∧ baseFilename inputSC = "input" +:+ ext
  ∧ absPath inputSC = ["input" +:+ ext]
  ∧ numLines inputSC = length (allLines inputFiles)
  ∧ dirty inputSC =
      bool_decide (match file_content (fs s) ["input" +:+ ext] with
                   | Some c => readlines (universal_newlines c)
                   | None => []
                   end ≠ allLines inputFiles)
  ∧ fs s1 !! [] = Some Dir
  ∧ fs s1 !! ["input" +:+ ext] = Some (File (join (allLines inputFiles)))
  ∧ (∀ p, p ≠ [] → p ≠ ["input" +:+ ext] → fs s1 !! p = fs s !! p)
  ∧ (fs s1 !! [] = fs s !! [] ∨ fs s !! [] = None).
Proof.
  unfold InputSourceCode_init. intros H.
  destruct (decide (inputFiles = [])) as [|Hne]; [done|]. cbv zeta in H.
  mget H. mstep H as ? s2 H2.
  assert (∃ f2, s2 = set_fs f2 s ∧ ensure_dir [] (fs s) = Some f2)
    as (f2 & -> & E2).
  { unfold ensure_dir. destruct (path_exists (fs s) []).
    - apply ret_Ok in H2 as [_ <-]. exists (fs s). by rewrite set_fs_id.
    - apply fs_op_Ok in H2 as (f2 & ? & ->). by exists f2. }
  mget H. proj_simpl in H.
  mstep H as ? s3 H3. apply fs_op_Ok in H3 as (f3 & Hw & ->).
  apply ret_Ok in H as [<- <-]. proj_simpl. simpl.
  apply write_file_Some in Hw as (Dp & _ & ->).
  change (parent ["input" +:+ ext]) with ([] : path) in Dp.
  apply is_dir_true in Dp. proj_simpl in Dp. proj_simpl.
  assert (∀ p, p ≠ [] → f2 !! p = fs s !! p) as Hf2.
  { intros p Hp. apply (ensure_dir_frame _ _ _ _ E2).
    intros Hpre. by apply prefix_nil_inv in Hpre. }
  split_and!; try done.
  - unfold file_content. by rewrite Hf2.
  - by rewrite lookup_insert_ne.
  - apply lookup_insert_eq.
  - intros p Hp1 Hp2. rewrite lookup_insert_ne by done. by apply Hf2.
  - rewrite lookup_insert_ne by done.
    rewrite (ensure_dir_lookup _ _ _ [] E2).
    destruct (fs s !! []); [by left|by right].
Qed.

(** C7 (amended).  [main] passes four times the line count of the
    sample as the first [prevScore]: a run of [main] that completes is
    the start-up, then [experimentForOption] on the first option with
    this threshold and the empty style, then the loop on the other
    options, whose final state and style are those of [main].  The first
    option is then ignored exactly when its scores are all equal or its
    least score is at least that number; when the least score is below
    that number and the scores differ, the key is set to the winner, the
    first value name with the least score. *)
Theorem C7_initial_threshold inputFiles key values entry rest s0 out sf :
  main inputFiles (((key, values) :: entry) :: rest) s0 = Ok out sf →
  ∃ inputSC sa r s2 names w i p dfinal,
    (* the start-up *)
    InputSourceCode_init inputFiles s0 = Ok inputSC sa
    ∧ numLines inputSC = length (allLines inputFiles)
    (* the first option, with the threshold and the empty style *)
    ∧ experimentForOption inputSC (length (heap s0)) key values
        (length (allLines inputFiles) * 4)
        (set_heap (heap s0 ++ [[]])
           (set_dirty (dirty inputSC) (set_iter 0 sa)))
      = Ok r s2
    ∧ resolveValues key values [] = Some names
    (* the winner and the least score *)
    ∧ dict_keys names !! i = Some w
    ∧ r.2 = diffVal s2 w
    ∧ (∀ v, v ∈ dict_keys names → (r.2 ≤ diffVal s2 v)%nat)
    ∧ (∀ j v, (j < i)%nat → dict_keys names !! j = Some v →
              (r.2 < diffVal s2 v)%nat)
    (* ignored, or set to the winner *)
    ∧ ((∀ v, v ∈ dict_keys names → diffVal s2 v = r.2)
       ∨ (length (allLines inputFiles) * 4 ≤ r.2)%nat →
       heap s2 !! length (heap s0) = Some [])
    ∧ ((∃ v, v ∈ dict_keys names ∧ diffVal s2 v ≠ r.2) →
       (r.2 < length (allLines inputFiles) * 4)%nat →
       heap s2 !! length (heap s0) = Some [(key, w)])
    (* the other options, and the result of [main] *)
    ∧ main_loop inputSC (length (heap s0)) rest r.2 s2 = Ok p sf
    ∧ heap sf !! length (heap s0) = Some dfinal
    ∧ out = yaml_dump dfinal.
Proof.
  unfold main. intros H.
  mstep H as inputSC sa H1.
  pose proof (InputSourceCode_init_Ok _ _ _ _ H1) as (_ & F1 & _ & _ & Hn & _).
  mstep H as ? s2 H2. unfold FileCache_init in H2. apply modify_Ok in H2 as ->.
  mstep H as l s3 H3. apply alloc_Ok in H3 as [-> ->].
  mstep H as p s4 H4. cbn [main_loop] in H4.
  mstep H4 as r s5 H5.
  mstep H as dfinal s6 H6. apply deref_Ok in H6 as [Hfinal ->].
  apply ret_Ok in H as [<- <-].
  cbn [heap set_dirty set_iter] in H5, H4, Hfinal.
  rewrite (only_fs_heap _ _ F1) in H5, H4, Hfinal.
  pose proof H5 as (names & d & dec & h & Hres & Hd & Hdec & -> & _ & Hh)%experimentForOption_Ok.
  cbn [heap set_heap set_dirty set_iter] in Hd, Hh.
  rewrite lookup_app_r, Nat.sub_diag in Hd by done. injection Hd as <-.
  assert (heap s5 !! length (heap s0) =
            Some (if ignore dec then [] else [(key, winner dec)])) as Hpol.
  { rewrite Hh. apply lookup_insert_app_l with (d := []).
    by rewrite lookup_app_r, Nat.sub_diag. }
  pose proof (decide_option_Some _ _ _ _ Hdec)
    as (Hmin & Hle & (vmax & Hmax) & Hig).
  pose proof Hmin as (i & Hi & _ & Hlt)%first_min_spec.
  apply scoreValues_lookup in Hi as [Hi1 Hi2]. cbn [fst snd] in Hi1, Hi2.
  assert (∀ v, v ∈ dict_keys names →
            (minVal dec ≤ diffVal s5 v ≤ maxVal dec)%nat) as Hbound.
  { intros v Hv. apply (Hle (diffVal s5 v, v)). unfold scoreValues.
    apply list_elem_of_fmap. by exists v. }
  assert (vmax ∈ dict_keys names ∧ diffVal s5 vmax = maxVal dec) as [Hv1 E1].
  { unfold scoreValues in Hmax.
    apply list_elem_of_fmap in Hmax as (v & [= E ->] & Hv). by split. }
  rewrite Hn in H5, Hdec, Hig. cbn [snd] in H4.
  exists inputSC, sa, (length (heap s0), minVal dec), s5, names, (winner dec),
    i, p, dfinal.
  cbn [snd].
  split_and!; [done|done|exact H5|done|done|done| | | | |exact H4|done|done].
  - intros v Hv. by apply Hbound.
  - intros j v Hj Hv. apply (Hlt j (diffVal s5 v, v)); [done|].
    by apply scoreValues_lookup.
  - intros Hcase. rewrite Hpol, Hig.
    destruct Hcase as [Heq|Hhigh].
    + rewrite bool_decide_eq_true_2; [done|]. rewrite <- E1. symmetry.
      by apply Heq.
    + by rewrite (bool_decide_eq_true_2 (_ ≤ _)%nat), orb_true_r by done.
  - intros (v & Hv & Hne) Hlow. rewrite Hpol, Hig.
    rewrite bool_decide_eq_false_2.
    + by rewrite bool_decide_eq_false_2 by lia.
    + intros Hmm. apply Hne. pose proof (Hbound v Hv). lia.
Qed.

(** ** Two runs *)

Lemma input_not_iter k : "input" +:+ ext ≠ iterName k.
Proof.
  unfold iterName. rewrite !string_app_cons. intros H. discriminate H.
Qed.

Lemma InputSourceCode_init_wf inputFiles s inputSC s1 :
  InputSourceCode_init inputFiles s = Ok inputSC s1 → wf_input inputSC.
Proof.
  intros (_ & _ & _ & Hap & _)%InputSourceCode_init_Ok.
  exists ("input" +:+ ext). split; [done|]. apply input_not_iter.
Qed.

Lemma InputSourceCode_init_cached inputFiles s :
  inputFiles ≠ [] →
  Forall (λ c, newline_terminated c = true) inputFiles →
  fs s !! [] = Some Dir →
  fs s !! ["input" +:+ ext] = Some (File (join (allLines inputFiles))) →
  InputSourceCode_init inputFiles s =
    Ok (mkInput ("input" +:+ ext) ["input" +:+ ext]
          (length (allLines inputFiles)) false) s.
Proof.
  intros Hne Hnl Hroot Hin. unfold InputSourceCode_init.
  rewrite decide_False by done. cbv zeta.
  rewrite bind_eval. unfold get_state at 1.
  rewrite (proj2 (path_exists_true _ _)) by eauto.
  rewrite bind_eval. unfold mret at 1, M_ret at 1.
  rewrite bind_eval. unfold get_state at 1.
  rewrite bind_eval. unfold fs_op.
  fold (allLines inputFiles).
  rewrite write_file_same; [|by apply is_dir_true|done].
  rewrite set_fs_id. unfold mret, M_ret. do 2 f_equal.
  rewrite (file_content_File _ _ _ Hin).
  rewrite readlines_allLines by done.
  apply bool_decide_eq_false_2. by intros ?.
Qed.

(** C4 (amended).  When the input files end with a newline (or are
    empty) and a run has completed, a second run on the dump directory it
    left, with the same input files and option list, completes with the
    same final style and leaves the directory as it is; it starts no
    formatter, and it starts a diff only where the diff file is empty. *)
Theorem C4_second_run inputFiles opts s0 out s1 s0' :
  Forall (λ c, newline_terminated c = true) inputFiles →
  main inputFiles opts s0 = Ok out s1 →
  fs s0' = fs s1 →
  ∃ s2 tr,
    main inputFiles opts s0' = Ok out s2
    ∧ fs s2 = fs s1
    ∧ trace s2 = trace s0' ++ tr
    ∧ Forall (λ e, ∃ p, e = EvDiff p ∧ nonempty_at (fs s1) p = false) tr.
Proof.
  intros Hnl H Hfs. unfold main in H.
  mstep H as inputSC sa H1.
  pose proof (InputSourceCode_init_wf _ _ _ _ H1) as Hwf.
  apply InputSourceCode_init_Ok in H1
    as (Hne & Fa & _ & Hap & Hlines & _ & Hroot & Hin & _).
  mstep H as ? sb H2. unfold FileCache_init in H2. apply modify_Ok in H2 as ->.
  mstep H as l sc H3. apply alloc_Ok in H3 as [-> ->].
  mstep H as p sd H4. mstep H as dfin se H5.
  apply deref_Ok in H5 as [H5 ->]. apply ret_Ok in H as [<- <-].
  eapply main_loop_fs in H4 as (Hall & Hheap & Hframe & Hroot'); [|done|].
  2: { simpl. by rewrite lookup_app_r, Nat.sub_diag. }
  simpl in Hall, Hheap, Hframe, Hroot', H5.
  assert (fs sd !! [] = Some Dir) as Hroot2.
  { destruct Hroot' as [->|?]; done. }
  assert (fs sd !! ["input" +:+ ext] = Some (File (join (allLines inputFiles))))
    as Hin2.
  { rewrite Hframe; [done|done|]. intros k _ [q Hq].
    unfold iterDir in Hq. simpl in Hq. apply (input_not_iter k).
    congruence. }
  pose proof (eq_trans (eq_sym H5) Hheap) as [= ->].
  (* the second run *)
  rewrite <- Hfs in Hroot2, Hin2.
  pose proof (InputSourceCode_init_cached inputFiles s0' Hne Hnl Hroot2 Hin2)
    as E1.
  set (inputSC' := mkInput _ _ _ _) in E1.
  set (sc' := set_heap (heap s0' ++ [[]])
                (set_dirty (dirty inputSC') (set_iter 0 s0'))).
  destruct (main_loop_cached inputSC' (length (heap s0')) opts
              (numLines inputSC' * 4) sc' [])
    as (tr & E2 & Htr).
  { simpl. rewrite Hfs, <- Hap, <- Hlines. exact Hall. }
  { done. }
  { simpl. by rewrite lookup_app_r, Nat.sub_diag. }
  eexists _, tr. split_and!.
  - unfold main. apply bind_Ok. eexists _, _. split; [exact E1|].
    apply bind_Ok. eexists tt, _. split; [by apply modify_Ok|].
    apply bind_Ok. eexists _, _. split; [by apply alloc_Ok|].
    apply bind_Ok. eexists _, _. split; [exact E2|].
    apply bind_Ok. eexists _, _. split.
    { apply deref_Ok. split; [|done]. simpl.
      apply list_lookup_insert_eq. rewrite length_app. simpl. lia. }
    apply ret_Ok. split; [|done].
    simpl. by rewrite Hfs, <- Hlines.
  - simpl. done.
  - simpl. done.
  - simpl in Htr. by rewrite Hfs in Htr.
Qed.

(** ** The final style *)

Lemma max_list_bound (l : list nat) m :
  m ∈ l → (∀ x, x ∈ l → (x ≤ m)%nat) → max_list l = m.
Proof.
  clear_oracles. intros Hm Hle. apply Nat.le_antisymm.
  - clear Hm. induction l as [|x l IH]; simpl; [lia|].
    apply Nat.max_lub; [apply Hle; by left|].
    apply IH. intros y Hy. apply Hle. by right.
  - by apply max_list_elem_of_le.
Qed.

Lemma decide_option_spec_accept results lines prev dec acc key :
  decide_option results lines prev = Some dec →
  spec_accept acc prev key results =
    (if ignore dec then acc else dict_set acc key (winner dec), minVal dec).
Proof.
  intros (Hmin & Hle & (v & Hmax) & Hig)%decide_option_Some.
  unfold spec_accept. rewrite Hmin.
  rewrite (max_list_bound _ (maxVal dec)).
  - by rewrite Hig.
  - apply list_elem_of_fmap. by exists (maxVal dec, v).
  - intros x ((m & w) & -> & Hx)%list_elem_of_fmap. by apply (Hle (m, w)).
Qed.

(** The score records of the options, read from the directory [f]:
    option number [i] has its files in iteration [n + i]. *)
Fixpoint score_records (f : FS) (n : nat)
    (opts : list (pydict (list candidate))) :
    list (string * list (nat * string)) :=
  match opts with
  | ((key, values) :: _) :: rest =>
      (key, scores_at f (S n)
              (dict_keys (default [] (resolveValues key values []))))
      :: score_records f (S n) rest
  | _ => []
  end.

Lemma replay_spec sample lines f n opts d prev :
  cached_all sample lines f n opts d prev →
  (replay lines f n opts d prev).1
  = spec_accumulate d prev (score_records f n opts).
Proof.
  revert n d prev.
  induction opts as [|[|[key values] entry] rest IH]; intros n d prev Hall.
  - done.
  - done.
  - cbn [cached_all] in Hall.
    destruct Hall as (names & dec & Hres & _ & Hdec & Hall).
    cbn [replay score_records spec_accumulate]. rewrite Hres, Hdec.
    cbn [default]. unfold id.
    rewrite (decide_option_spec_accept _ _ _ _ d key Hdec). cbn [fst snd].
    by apply IH.
Qed.

(** C10.  The text that [main] prints is the dump of the style obtained
    by applying the acceptance policy to the options in order, each step
    starting from the style the previous one returned: the writes of
    [experimentForOption] go to the one object that [main] passes to
    every call and dumps at the end. *)
Theorem C10_final_style inputFiles opts s0 out sf :
  main inputFiles opts s0 = Ok out sf →
  out = yaml_dump
          (spec_accumulate [] (length (allLines inputFiles) * 4)
             (score_records (fs sf) 0 opts)).
Proof.
  intros H. unfold main in H.
  mstep H as inputSC sa H1.
  pose proof (InputSourceCode_init_wf _ _ _ _ H1) as Hwf.
  apply InputSourceCode_init_Ok in H1 as (_ & _ & _ & _ & Hlines & _).
  mstep H as ? sb H2. unfold FileCache_init in H2. apply modify_Ok in H2 as ->.
  mstep H as l sc H3. apply alloc_Ok in H3 as [-> ->].
  mstep H as p sd H4. mstep H as dfin se H5.
  apply deref_Ok in H5 as [H5 ->]. apply ret_Ok in H as [<- <-].
  eapply main_loop_fs in H4 as (Hall & Hheap & _); [|done|].
  2: { simpl. by rewrite lookup_app_r, Nat.sub_diag. }
  simpl in Hall, Hheap, H5.
  pose proof (eq_trans (eq_sym H5) Hheap) as [= ->].
  f_equal. rewrite <- Hlines. by eapply replay_spec.
Qed.

(** * Further properties of the engine *)

(** ** The canonical sample *)

Lemma join_separated texts :
  join (separated texts) = join ((λ c, c +:+ nl) <$> texts).
Proof.
  unfold separated. induction texts as [|c cs IH]; [done|].
  rewrite !fmap_cons. cbn [concat]. rewrite <- app_assoc, join_app.
  rewrite join_readlines. cbn [join foldr app].
  fold (join (concat ((λ c, readlines c ++ [nl]) <$> cs))).
  fold (join ((λ c, c +:+ nl) <$> cs)).
  by rewrite IH, !string_app_assoc.
Qed.

Lemma length_separated texts :
  length (separated texts)
  = sum_list ((λ c, length (readlines c)) <$> texts) + length texts.
Proof.
  unfold separated. induction texts as [|c cs IH]; [done|].
  rewrite !fmap_cons. cbn [concat sum_list_with id length].
  rewrite !length_app, IH. simpl. lia.
Qed.

Lemma join_allLines inputFiles :
  join (allLines inputFiles)
  = join ((λ c, universal_newlines c +:+ nl) <$> inputFiles).
Proof.
  by rewrite allLines_separated, join_separated, <- list_fmap_compose.
Qed.

Lemma length_allLines inputFiles :
  length (allLines inputFiles)
  = sum_list ((λ c, length (readlines (universal_newlines c))) <$> inputFiles)
    + length inputFiles.
Proof.
  by rewrite allLines_separated, length_separated, <- list_fmap_compose,
    length_fmap.
Qed.

(** X1.  [InputSourceCode.__init__], lines 77-88.  The canonical sample holds
    the texts of the input files in order, as read in text mode (every
    carriage return, with the line feed that may follow it, read as one
    line feed), each followed by one newline; the line count is the number
    of lines of these texts plus one separator line per file. *)
Theorem InputSourceCode_sample_text inputFiles s inputSC s1 :
  InputSourceCode_init inputFiles s = Ok inputSC s1 →
  file_content (fs s1) (absPath inputSC)
  = Some (join ((λ c, universal_newlines c +:+ nl) <$> inputFiles))
  ∧ numLines inputSC
    = sum_list ((λ c, length (readlines (universal_newlines c)))
                  <$> inputFiles)
      + length inputFiles.
Proof.
  intros (_ & _ & _ & -> & -> & _ & _ & Hf & _)%InputSourceCode_init_Ok.
  split; [|apply length_allLines].
  by rewrite (file_content_File _ _ _ Hf), join_allLines.
Qed.

(** X2.  [InputSourceCode.__init__] completes exactly when it is given an
    input file, the dump directory is not a regular file, and the path of
    the canonical sample is not a directory. *)
Theorem InputSourceCode_init_succeeds_iff inputFiles s :
  (∃ inputSC s1, InputSourceCode_init inputFiles s = Ok inputSC s1)
  ↔ inputFiles ≠ []
    ∧ is_file (fs s) [] = false
    ∧ is_dir (fs s) ["input" +:+ ext] = false.
Proof.
  unfold InputSourceCode_init.
  destruct (decide (inputFiles = [])) as [->|Hne].
  { split; [by intros (? & ? & ?)|by intros [? _]]. }
  cbv zeta. unfold mbind, M_bind, get_state, fs_op, mret, M_ret.
  unfold path_exists, is_file, write_file, makedirs.
  change (parent ["input" +:+ ext]) with ([] : path).
  destruct (fs s !! ([] : path)) as [[c|]|] eqn:Hroot.
  - rewrite bool_decide_eq_true_2 by eauto. proj_simpl.
    rewrite (proj2 (is_dir_false _ _)) by (rewrite Hroot; done).
    simpl. split; [by intros (? & ? & ?)|by intros (_ & ? & _)].
  - rewrite bool_decide_eq_true_2 by eauto. proj_simpl.
    rewrite (proj2 (is_dir_true _ _)) by done. simpl.
    destruct (is_dir (fs s) ["input" +:+ ext]); simpl.
    + split; [by intros (? & ? & ?)|by intros (_ & _ & ?)].
    + split; [done|by eexists _, _].
  - rewrite bool_decide_eq_false_2 by (intros [? ?]; congruence).
    cbn [inits existsb]. unfold is_file at 1. rewrite Hroot.
    cbn [orb foldr]. proj_simpl.
    rewrite (proj2 (is_dir_true _ _)) by apply lookup_insert_eq.
    rewrite (is_dir_ext (fs s)) by (by rewrite lookup_insert_ne).
    destruct (is_dir (fs s) ["input" +:+ ext]); simpl.
    + split; [by intros (? & ? & ?)|by intros (_ & _ & ?)].
    + split; [done|by eexists _, _].
Qed.

(** *** A second start on the same input *)

Fixpoint count_newlines (s : string) : nat :=
  match s with
  | "" => 0
  | String c s' => (if decide (c = newline) then 1 else 0) + count_newlines s'
  end.

Lemma readlines_nil s : readlines s = [] ↔ s = "".
Proof.
  destruct s as [|c s]; [done|]. cbn [readlines]. split; [|done].
  case_decide; [done|]. by destruct (readlines s).
Qed.

Lemma length_readlines s :
  length (readlines s)
  = count_newlines s + (if newline_terminated s then 0 else 1).
Proof.
  induction s as [|c s IH]; [done|]. cbn [readlines count_newlines].
  destruct (decide (c = newline)) as [->|Hc].
  - cbn [length]. rewrite IH. destruct s; [done|]. cbn [newline_terminated].
    lia.
  - destruct s as [|c' s].
    + simpl. by rewrite bool_decide_eq_false_2.
    + destruct (readlines (String c' s)) as [|l ls] eqn:Hl.
      * by apply readlines_nil in Hl.
      * cbn [length] in IH |- *.
        change (newline_terminated (String c (String c' s)))
          with (newline_terminated (String c' s)).
        lia.
Qed.

Lemma count_newlines_app a b :
  count_newlines (a +:+ b) = count_newlines a + count_newlines b.
Proof.
  induction a as [|c a IH]; [done|].
  rewrite string_app_cons. cbn [count_newlines]. rewrite IH. lia.
Qed.

Lemma newline_terminated_app_nl a : newline_terminated (a +:+ nl) = true.
Proof.
  induction a as [|c a IH]; [done|]. rewrite string_app_cons.
  cbn [newline_terminated]. rewrite IH. by destruct a.
Qed.

Lemma newline_terminated_app a b :
  newline_terminated a = true → newline_terminated b = true →
  newline_terminated (a +:+ b) = true.
Proof.
  intros Ha Hb. induction a as [|c a IH]; [done|].
  rewrite string_app_cons. destruct a as [|c' a].
  - rewrite string_app_nil_l. destruct b; [done|]. done.
  - cbn [newline_terminated] in Ha |- *. rewrite string_app_cons in IH |- *.
    by apply IH.
Qed.

Lemma newline_terminated_sample inputFiles :
  newline_terminated (join ((λ c, c +:+ nl) <$> inputFiles)) = true.
Proof.
  induction inputFiles as [|c cs IH]; [done|]. rewrite fmap_cons.
  cbn [join foldr]. apply newline_terminated_app; [|done].
  apply newline_terminated_app_nl.
Qed.

Lemma count_newlines_sample inputFiles :
  count_newlines (join ((λ c, c +:+ nl) <$> inputFiles))
  = sum_list (count_newlines <$> inputFiles) + length inputFiles.
Proof.
  induction inputFiles as [|c cs IH]; [done|]. rewrite !fmap_cons.
  cbn [join foldr sum_list_with id length].
  fold (join ((λ c, c +:+ nl) <$> cs)).
  rewrite !count_newlines_app, IH. simpl. lia.
Qed.

(** The lines of a text made of separated texts are these lines exactly
    when every one of the texts is empty or ends with a newline. *)
Lemma readlines_separated_iff texts :
  readlines (join (separated texts)) = separated texts
  ↔ forallb newline_terminated texts = true.
Proof.
  split.
  - intros H. apply (f_equal length) in H.
    rewrite length_readlines, length_separated, join_separated in H.
    rewrite newline_terminated_sample, count_newlines_sample in H.
    assert (sum_list (count_newlines <$> texts)
            = sum_list ((λ c, length (readlines c)) <$> texts)) as Hsum
      by lia.
    clear H. induction texts as [|c cs IH]; [done|].
    rewrite !fmap_cons in Hsum. cbn [sum_list_with id] in Hsum.
    rewrite length_readlines in Hsum. cbn [forallb].
    assert (sum_list (count_newlines <$> cs)
            ≤ sum_list ((λ c, length (readlines c)) <$> cs))%nat as Hle.
    { clear. induction cs as [|c cs IH]; [done|]. rewrite !fmap_cons.
      cbn [sum_list_with id]. rewrite length_readlines. lia. }
    destruct (newline_terminated c); [|lia].
    apply IH. lia.
  - intros H. apply readlines_separated. apply Forall_forall.
    intros c Hc. rewrite forallb_forall in H. apply H.
    by apply list_elem_of_In.
Qed.

(** The lines read back from the canonical sample are the lines that
    were written exactly when every input file, as read in text mode, is
    empty or ends with a newline. *)
Lemma readlines_allLines_iff inputFiles :
  readlines (universal_newlines (join (allLines inputFiles)))
  = allLines inputFiles
  ↔ forallb (λ c, newline_terminated (universal_newlines c)) inputFiles = true.
Proof.
  rewrite universal_newlines_allLines, allLines_separated.
  rewrite readlines_separated_iff.
  assert (forallb newline_terminated (universal_newlines <$> inputFiles)
          = forallb (λ c, newline_terminated (universal_newlines c)) inputFiles)
    as ->; [|done].
  induction inputFiles as [|c cs IH]; [done|].
  rewrite fmap_cons. cbn [forallb]. by rewrite IH.
Qed.

Lemma InputSourceCode_init_again inputFiles s :
  inputFiles ≠ [] →
  fs s !! [] = Some Dir →
  fs s !! ["input" +:+ ext] = Some (File (join (allLines inputFiles))) →
  InputSourceCode_init inputFiles s =
    Ok (mkInput ("input" +:+ ext) ["input" +:+ ext]
          (length (allLines inputFiles))
          (negb (forallb (λ c, newline_terminated (universal_newlines c))
                   inputFiles))) s.
Proof.
  intros Hne Hroot Hin. unfold InputSourceCode_init.
  rewrite decide_False by done. cbv zeta.
  rewrite bind_eval. unfold get_state at 1.
  rewrite (proj2 (path_exists_true _ _)) by eauto.
  rewrite bind_eval. unfold mret at 1, M_ret at 1.
  rewrite bind_eval. unfold get_state at 1.
  rewrite bind_eval. unfold fs_op.
  fold (allLines inputFiles).
  rewrite write_file_same; [|by apply is_dir_true|done].
  rewrite set_fs_id. unfold mret, M_ret. do 2 f_equal.
  rewrite (file_content_File _ _ _ Hin).
  destruct (forallb _ inputFiles) eqn:Hnl; simpl.
  - apply bool_decide_eq_false_2. intros Hno. apply Hno.
    by apply readlines_allLines_iff.
  - apply bool_decide_eq_true_2. intros Heq%readlines_allLines_iff.
    congruence.
Qed.

(** X3.  [InputSourceCode.__init__], lines 69-91.  Started again on the dump
    directory that an earlier start on the same input files left, the
    constructor completes, rewrites the sample with the same text, and
    finds the sample dirty exactly when some input file, as read in text
    mode, is not empty and does not end with a newline (a final carriage
    return counts as a newline). *)
Theorem InputSourceCode_dirty_on_restart inputFiles s inputSC s1 s' :
  InputSourceCode_init inputFiles s = Ok inputSC s1 →
  fs s' = fs s1 →
  ∃ inputSC',
    InputSourceCode_init inputFiles s' = Ok inputSC' s'
    ∧ numLines inputSC' = numLines inputSC
    ∧ dirty inputSC'
      = negb (forallb (λ c, newline_terminated (universal_newlines c))
                inputFiles).
Proof.
  intros (Hne & _ & _ & _ & Hn & _ & Hroot & Hf & _)%InputSourceCode_init_Ok
    Hfs.
  eexists. split_and!.
  - apply InputSourceCode_init_again; [done|by rewrite Hfs..].
  - by rewrite Hn.
  - done.
Qed.

(** ** What a run leaves alone *)

Lemma main_loop_frame inputSC l opts prev s p s' :
  wf_input inputSC →
  main_loop inputSC l opts prev s = Ok p s' →
  cache_iter s' = cache_iter s + length opts
  ∧ ∀ q, q ≠ [] →
      (∀ k, (cache_iter s < k ≤ cache_iter s + length opts)%nat →
            ¬ iterDir k `prefix_of` q) →
      fs s' !! q = fs s !! q.
Proof.
  intros Hwf. revert prev s.
  induction opts as [|[|[key values] entry] rest IH]; intros prev s H.
  - apply ret_Ok in H as [_ <-]. simpl. split; [lia|done].
  - done.
  - cbn [main_loop] in H. mstep H as r s1 H1.
    pose proof H1 as (_ & _ & _ & _ & _ & _ & _ & _ & Ei & _)%experimentForOption_Ok.
    apply (experimentForOption_fs _ _ _ _ _ _ _ _ Hwf) in H1
      as (_ & _ & _ & _ & _ & Hout & _).
    apply IH in H as [En Hrest]. rewrite Ei in En, Hrest.
    cbn [length]. split; [lia|]. intros q Hq Hno.
    rewrite Hrest; [|done|].
    + apply Hout; [done|]. apply Hno. lia.
    + intros k Hk. apply Hno. lia.
Qed.

(** X4.  [main], lines 317-330.  A run that completes changes, below the dump
    directory, only the canonical sample and the folders [iter1] ...
    [iterN] of its [N] options: every other entry, the folders of higher
    iterations that an earlier run with more options left included, is
    as it was. *)
Theorem main_changes_only_its_folders inputFiles opts s0 out sf p :
  main inputFiles opts s0 = Ok out sf →
  p ≠ [] → p ≠ ["input" +:+ ext] →
  (∀ k, (1 ≤ k ≤ length opts)%nat → ¬ iterDir k `prefix_of` p) →
  fs sf !! p = fs s0 !! p.
Proof.
  intros H Hp1 Hp2 Hno. unfold main in H.
  mstep H as inputSC sa H1.
  pose proof (InputSourceCode_init_wf _ _ _ _ H1) as Hwf.
  apply InputSourceCode_init_Ok in H1
    as (_ & _ & _ & _ & _ & _ & _ & _ & Hsame & _).
  mstep H as ? sb H2. unfold FileCache_init in H2.
  apply modify_Ok in H2 as ->.
  mstep H as l sc H3. apply alloc_Ok in H3 as [-> ->].
  mstep H as ? sd H4.
  apply (main_loop_frame _ _ _ _ _ _ _ Hwf) in H4 as [_ Hloop].
  mstep H as d se H5. apply deref_Ok in H5 as [_ ->].
  apply ret_Ok in H as [_ <-].
  rewrite Hloop; [|done|].
  - simpl. by apply Hsame.
  - simpl. intros k Hk. apply Hno. lia.
Qed.

Lemma cached_all_lookup sample lines f n opts d prev i key values entry :
  cached_all sample lines f n opts d prev →
  opts !! i = Some ((key, values) :: entry) →
  ∃ names str,
    resolveValues key values [] = Some names
    ∧ cached_iter sample f (S (n + i)) key str (dict_keys names).
Proof.
  revert n d prev i.
  induction opts as [|[|[key' values'] entry'] rest IH];
    intros n d prev i Hall Hi.
  - done.
  - done.
  - cbn [cached_all] in Hall.
    destruct Hall as (names & dec & Hres & Hc & _ & Hall).
    destruct i as [|i].
    + injection Hi as -> -> ->. rewrite Nat.add_0_r. by eexists _, _.
    + simpl in Hi. destruct (IH _ _ _ _ Hall Hi) as (names' & str & ? & Hc').
      exists names', str. split; [done|].
      by replace (S (n + S i)) with (S (S n + i)) by lia.
Qed.

(** X5.  [main] with [FileCache.startIteration], lines 113-141 and 327-330.
    After a run that completes, the folder [iter(i+1)] belongs to the
    option at position [i] of the option list: it records the key of that
    option and holds, for every value name of the option, a folder with a
    non-empty formatted file. *)
Theorem main_cache_layout inputFiles opts s0 out sf i key values entry :
  main inputFiles opts s0 = Ok out sf →
  opts !! i = Some ((key, values) :: entry) →
  ∃ names,
    resolveValues key values [] = Some names
    ∧ file_content (fs sf) (getFullFilename (S i) "key") = Some key
    ∧ ∀ v, v ∈ dict_keys names →
        is_Some (fs sf !! getValueDir (S i) v)
        ∧ nonempty_at (fs sf) (getFmtFilename (S i) v) = true.
Proof.
  intros H Hi. unfold main in H.
  mstep H as inputSC sa H1.
  pose proof (InputSourceCode_init_wf _ _ _ _ H1) as Hwf.
  mstep H as ? sb H2. unfold FileCache_init in H2.
  apply modify_Ok in H2 as ->.
  mstep H as l sc H3. apply alloc_Ok in H3 as [-> ->].
  mstep H as ? sd H4.
  apply (main_loop_fs _ _ _ _ _ _ _ [] Hwf) in H4 as (Hall & _).
  2: { simpl. by rewrite lookup_app_r, Nat.sub_diag. }
  mstep H as d se H5. apply deref_Ok in H5 as [_ ->].
  apply ret_Ok in H as [_ <-]. simpl in Hall.
  destruct (cached_all_lookup _ _ _ _ _ _ _ _ _ _ _ Hall Hi)
    as (names & str & Hres & _ & Hkey & _ & Hvals).
  exists names. split_and!; [done|by apply file_content_File|].
  intros v Hv. by destruct (Hvals v Hv) as (? & ? & _).
Qed.

(** ** The processes of one option *)

Lemma prepareFormat_jobs l items s toRun s' :
  prepareFormat l items s = Ok toRun s' →
  ∃ vs, toRun = getValueDir (cache_iter s) <$> vs
        ∧ sublist vs (dict_keys items).
Proof.
  revert s toRun. induction items as [|[valName valDict] items IH];
    intros s toRun H; simpl in H.
  - apply ret_Ok in H as [<- _]. by exists [].
  - mget H.
    destruct (hasFmtCache s valName).
    + apply IH in H as (vs & -> & Hsub). exists vs.
      split; [done|]. by apply sublist_cons.
    + mstep H as st s1 H1. unfold deepcopy in H1.
      mstep H1 as d0 s0 H0. apply deref_Ok in H0 as [Hd0 ->].
      apply alloc_Ok in H1 as [-> ->].
      mstep H as d s2 H2. apply deref_Ok in H2 as [Hd ->].
      mstep H as ? s3 H3. unfold store in H3. apply modify_Ok in H3 as ->.
      mstep H as ? s4 H4. apply writeStyleFile_only_fs in H4.
      cbv zeta in H. mstep H as toRun' s5 H5. apply ret_Ok in H as [<- ->].
      apply IH in H5 as (vs & -> & Hsub).
      rewrite (only_fs_iter _ _ H4). simpl.
      exists (valName :: vs). split; [done|]. by apply sublist_skip.
Qed.

Lemma diffCommands_sublist s valNames :
  ∃ ws, (diffCommands s valNames).*2 = getDiffFilename (cache_iter s) <$> ws
        ∧ sublist ws valNames.
Proof.
  unfold diffCommands. induction valNames as [|v vs (ws & E & Hsub)]; simpl.
  - by exists [].
  - destruct (hasDiffCache s v); simpl.
    + exists ws. split; [done|]. by apply sublist_cons.
    + exists (v :: ws). split; [|by apply sublist_skip].
      rewrite fmap_cons. cbn [snd]. f_equal. exact E.
Qed.

(** X6.  [experimentForOption], lines 230-261.  The processes that one option
    starts are formatter runs followed by diff runs: all the formatter
    runs come first, no value name gets more than one formatter run or
    more than one diff run, and both batches follow the order of the
    value names. *)
Theorem experimentForOption_processes inputSC baseStyle key values prevScore
    s r s' :
  experimentForOption inputSC baseStyle key values prevScore s = Ok r s' →
  ∃ names vs ws,
    resolveValues key values [] = Some names
    ∧ NoDup (dict_keys names)
    ∧ sublist vs (dict_keys names)
    ∧ sublist ws (dict_keys names)
    ∧ trace s' =
        trace s
        ++ (EvFormat ∘ getValueDir (S (cache_iter s)) <$> vs)
        ++ (EvDiff ∘ getDiffFilename (S (cache_iter s)) <$> ws).
Proof.
  unfold experimentForOption. intros H.
  mstep H as names s0 H0.
  destruct (resolveValues key values []) as [names'|] eqn:Hres; [|done].
  apply ret_Ok in H0 as [-> <-]. cbv zeta in H.
  mstep H as ? s1 H1.
  apply startIteration_frame in H1 as (_ & _ & Et1 & Ei1).
  mstep H as toRun s2 H2.
  pose proof (prepareFormat_jobs _ _ _ _ _ H2) as (vs & -> & Hvs).
  apply prepareFormat_frame in H2 as (_ & Ei2 & _ & Et2).
  mstep H as ? s3 H3.
  pose proof (invokeCommandsInParallelCwd_trace _ _ _ _ _ H3) as Et3.
  apply invokeCommandsInParallelCwd_same_cache in H3 as (_ & Ei3 & _).
  mstep H as ? s4 H4. apply checkOutputs_Ok in H4 as [-> _].
  mget H.
  mstep H as ? s5 H5. rewrite invokeCommandsInParallel_Ok in H5.
  injection H5 as _ <-.
  mget H. cbn [fs cache_iter] in H.
  destruct (diffCommands_sublist s3 (dict_keys names)) as (ws & Ews & Hws).
  exists names, vs, ws.
  split_and!; [done| |done..|].
  { eapply resolveValues_NoDup; [exact Hres|]. apply NoDup_nil_2. }
  assert (trace s' =
          trace s3 ++ (EvDiff ∘ snd <$> diffCommands s3 (dict_keys names)))
    as ->.
  { destruct (decide_option _ _ _) as [dec|]; [|done].
    mstep H as ? s6 H6. apply ret_Ok in H as [_ <-].
    destruct (ignore dec).
    - by apply ret_Ok in H6 as [_ <-].
    - mstep H6 as d' s7 H7. apply deref_Ok in H7 as [_ ->].
      unfold store in H6. by apply modify_Ok in H6 as ->. }
  rewrite Et3, Et2, Et1, <- app_assoc. do 2 f_equal.
  - rewrite Ei1. by rewrite list_fmap_compose.
  - rewrite (list_fmap_compose snd EvDiff).
    change (snd <$> diffCommands s3 (dict_keys names))
      with ((diffCommands s3 (dict_keys names)).*2).
    rewrite Ews, Ei3, Ei2, Ei1. by rewrite <- list_fmap_compose.
Qed.

(** ** Malformed options *)

(** X7.  [experimentForOption], lines 264-275.  An option without values
    fails at [results[0]] with an [IndexError]; by then the iteration has
    started, so the failure leaves the folder of the iteration with its
    signature behind. *)
Theorem experimentForOption_no_values inputSC baseStyle key prevScore s u s1 :
  startIteration key baseStyle [] s = Ok u s1 →
  experimentForOption inputSC baseStyle key [] prevScore s
  = Raise IndexError s1.
Proof.
  intros H. unfold experimentForOption. cbn [resolveValues dict_keys fmap list_fmap].
  rewrite bind_eval. unfold mret at 1, M_ret at 1. cbv zeta.
  change (dict_keys (V:=style) []) with (@nil string).
  rewrite bind_eval, H. cbn [prepareFormat].
  rewrite bind_eval. unfold mret at 1, M_ret at 1.
  unfold invokeCommandsInParallelCwd, checkOutputs, invokeCommandsInParallel.
  cbn [for_each diffCommands omap list_omap].
  rewrite bind_eval. unfold mret at 1, M_ret at 1.
  rewrite bind_eval. unfold mret at 1, M_ret at 1.
  rewrite bind_eval. unfold get_state at 1.
  unfold diffCommands. cbn [omap list_omap for_each].
  rewrite bind_eval. unfold mret at 1, M_ret at 1.
  rewrite bind_eval. unfold get_state at 1.
  done.
Qed.

Lemma resolveValues_None key values acc :
  resolveValues key values acc = None ↔ Alias [] ∈ values.
Proof.
  clear_oracles. revert acc.
  induction values as [|[v|[|[vkey vval] d]] values IH]; intros acc;
    cbn [resolveValues].
  - split; [done|by intros ?%elem_of_nil].
  - rewrite IH. split; [by right|]. by intros [?|?]%elem_of_cons.
  - split; [by left|done].
  - rewrite IH. split; [by right|]. by intros [?|?]%elem_of_cons.
Qed.

(** X8.  [experimentForOption], lines 216-224.  A value that is an empty
    mapping makes the option fail with an [IndexError] before the
    iteration starts: nothing is written and no process is started. *)
Theorem experimentForOption_empty_mapping inputSC baseStyle key values
    prevScore s :
  Alias [] ∈ values →
  experimentForOption inputSC baseStyle key values prevScore s
  = Raise IndexError s.
Proof.
  intros H%(resolveValues_None key values []).
  unfold experimentForOption. by rewrite H.
Qed.

(** ** The names of the values *)

(** The name and the settings that one candidate stands for (lines
    218-223); an empty mapping has neither. *)
Definition candidate_entry (key : string) (c : candidate) :
    option (string * style) :=
  match c with
  | Bare v => Some (v, [(key, v)])
  | Alias [] => None
  | Alias ((vkey, vval) :: _) => Some (vkey, vval)
  end.

Lemma dict_get_set_ne {V} (d : pydict V) k k' v :
  k ≠ k' → dict_get (dict_set d k v) k' = dict_get d k'.
Proof.
  clear_oracles. intros Hk. induction d as [|[k0 v0] d IH]; simpl.
  - by rewrite decide_False.
  - destruct (decide (k0 = k)) as [->|Hk0]; simpl.
    + by rewrite !decide_False.
    + by rewrite IH.
Qed.

Lemma elem_of_dict_keys_set {V} (d : pydict V) k v x :
  x ∈ dict_keys (dict_set d k v) ↔ x = k ∨ x ∈ dict_keys d.
Proof.
  clear_oracles. rewrite dict_keys_set. case_decide as Hk.
  - split; [by right|]. by intros [->|?].
  - rewrite elem_of_app, list_elem_of_singleton. tauto.
Qed.

Lemma resolveValues_entries key values acc names :
  resolveValues key values acc = Some names →
  (∀ x, x ∈ dict_keys names ↔
        x ∈ dict_keys acc
        ∨ ∃ c st, c ∈ values ∧ candidate_entry key c = Some (x, st))
  ∧ (∀ x, (∀ c st, c ∈ values → candidate_entry key c ≠ Some (x, st)) →
          dict_get names x = dict_get acc x)
  ∧ (∀ pre c post x st,
       values = pre ++ c :: post →
       candidate_entry key c = Some (x, st) →
       (∀ c' st', c' ∈ post → candidate_entry key c' ≠ Some (x, st')) →
       dict_get names x = Some st)
  ∧ ∃ rest, dict_keys names = dict_keys acc ++ rest.
Proof.
  clear_oracles. revert acc.
  induction values as [|c values IH]; intros acc H.
  - injection H as <-. split_and!.
    + intros x. split; [by left|]. intros [?|(c & st & Hc%elem_of_nil & _)]; done.
    + done.
    + intros [|? ?] ? ? ? ? Hnil; discriminate Hnil.
    + exists []. by rewrite app_nil_r.
  - assert (∃ v st, candidate_entry key c = Some (v, st)
                    ∧ resolveValues key values (dict_set acc v st) = Some names)
      as (v & st & Hc & Hrest).
    { destruct c as [v|[|[vkey vval] d]]; cbn [resolveValues] in H;
        [by eexists _, _|done|by eexists _, _]. }
    destruct (IH _ Hrest) as (Hkeys & Hget & Hlast & (rest & Hpre)).
    split_and!.
    + intros x. rewrite Hkeys, elem_of_dict_keys_set. split.
      * intros [[->|?]|(c' & st' & Hc' & E)].
        -- right. exists c, st. split; [by left|done].
        -- by left.
        -- right. exists c', st'. split; [by right|done].
      * intros [?|(c' & st' & [->|Hc']%elem_of_cons & E)].
        -- left. by right.
        -- left. left. congruence.
        -- right. by exists c', st'.
    + intros x Hx. rewrite Hget.
      * apply dict_get_set_ne. intros ->. by apply (Hx c st); [left|].
      * intros c' st' Hc'. apply Hx. by right.
    + intros pre c0 post x st0 Hval Hc0 Hpost.
      destruct pre as [|c1 pre]; simplify_eq/=.
      * rewrite Hget by done. apply dict_get_set.
      * by eapply Hlast.
    + rewrite Hpre, dict_keys_set. case_decide.
      * by exists rest.
      * exists ([v] ++ rest). by rewrite app_assoc.
Qed.

(** X9.  [experimentForOption], lines 216-225.  The value names of an option
    are the names of its candidates, each once; and when several
    candidates have the same name, the settings tried under that name
    are those of the last of them. *)
Theorem resolveValues_names key values names :
  resolveValues key values [] = Some names →
  NoDup (dict_keys names)
  ∧ (∀ x, x ∈ dict_keys names ↔
          ∃ c st, c ∈ values ∧ candidate_entry key c = Some (x, st))
  ∧ (∀ pre c post x st,
       values = pre ++ c :: post →
       candidate_entry key c = Some (x, st) →
       (∀ c' st', c' ∈ post → candidate_entry key c' ≠ Some (x, st')) →
       dict_get names x = Some st).
Proof.
  intros H. split_and!.
  - eapply resolveValues_NoDup; [exact H|]. apply NoDup_nil_2.
  - intros x. apply resolveValues_entries in H as (Hkeys & _).
    rewrite Hkeys. split; [|by right]. by intros [?%elem_of_nil|?].
  - by apply resolveValues_entries in H as (_ & _ & Hlast & _).
Qed.

(** ** The decision *)

(** X10.  [experimentForOption], lines 273-293.  An option with a single
    candidate never changes the style: its least and greatest score are
    the same record, so the option is ignored. *)
Theorem single_candidate_is_ignored inputSC baseStyle key c prevScore s r s' :
  experimentForOption inputSC baseStyle key [c] prevScore s = Ok r s' →
  heap s' !! baseStyle = heap s !! baseStyle.
Proof.
  intros (names & d & dec & h & Hres & Hd & Hdec & _ & _ & Hh)%experimentForOption_Ok.
  rewrite Hh. etrans; [|symmetry; exact Hd].
  assert (∃ v st, names = [(v, st)]) as (v & st & ->).
  { destruct c as [v|[|[vkey vval] d0]]; cbn [resolveValues dict_set] in Hres;
      [|done|]; injection Hres as <-; by eexists _, _. }
  unfold decide_option in Hdec. cbn in Hdec. injection Hdec as <-.
  cbn [ignore]. rewrite bool_decide_eq_true_2 by done. cbn [orb].
  by eapply lookup_insert_app_l.
Qed.

(** X11.  [experimentForOption], lines 276 and 285-286.  The low-confidence
    flag is only reported: the line count of the sample and its dirty
    flag have no influence on what an option does or returns. *)
Theorem lowConfidence_is_only_reported baseFilename absPath n1 n2 dty1 dty2
    baseStyle key values prevScore s :
  experimentForOption (mkInput baseFilename absPath n1 dty1) baseStyle key
    values prevScore s
  = experimentForOption (mkInput baseFilename absPath n2 dty2) baseStyle key
      values prevScore s.
Proof.
  unfold experimentForOption.
  rewrite !(bind_eval (match resolveValues key values [] with
                       | Some d => mret d
                       | None => raise IndexError
                       end)).
  destruct (match resolveValues key values [] with
            | Some d => mret d
            | None => raise IndexError
            end s) as [names s0|]; [|done].
  cbv zeta. rewrite !(bind_eval (startIteration _ _ _)).
  destruct (startIteration _ _ _ s0) as [? s1|]; [|done].
  rewrite !(bind_eval (prepareFormat _ _)).
  destruct (prepareFormat _ _ s1) as [toRun s2|]; [|done].
  change (invokeCommandsInParallelCwd (mkInput baseFilename absPath n2 dty2))
    with (invokeCommandsInParallelCwd (mkInput baseFilename absPath n1 dty1)).
  rewrite !(bind_eval (invokeCommandsInParallelCwd _ _)).
  destruct (invokeCommandsInParallelCwd _ _ s2) as [? s3|]; [|done].
  rewrite !(bind_eval (checkOutputs _)).
  destruct (checkOutputs _ s3) as [? s4|]; [|done].
  rewrite !(bind_eval get_state). unfold get_state at 1 3.
  change (invokeCommandsInParallel (mkInput baseFilename absPath n2 dty2))
    with (invokeCommandsInParallel (mkInput baseFilename absPath n1 dty1)).
  rewrite !(bind_eval (invokeCommandsInParallel _ _)).
  destruct (invokeCommandsInParallel _ _ s4) as [? s5|]; [|done].
  rewrite !(bind_eval get_state). unfold get_state.
  unfold decide_option. cbn [numLines].
  by destruct (head (sort_results (scoreValues s5 (dict_keys names)))),
       (last (sort_results (scoreValues s5 (dict_keys names)))).
Qed.

(** ** An iteration folder that is no folder *)

(** X12.  [FileCache.startIteration], lines 113-134.  When the name of the
    iteration folder is taken by a regular file, the iteration cannot
    start: whether the slot is found stale or not, the call raises. *)
Theorem startIteration_folder_is_file key baseStyle values s :
  is_file (fs s) (iterDir (S (cache_iter s))) = true →
  raises (startIteration key baseStyle values) s.
Proof.
  intros Hfile. unfold raises.
  destruct (startIteration key baseStyle values s) as [u s'|e s'] eqn:H;
    [exfalso|by eexists _, _].
  apply startIteration_Ok_iff in H as (d & f' & stale & _ & H & _).
  apply startIteration_fs_Some in H
    as (f1 & f2 & f3 & f4 & E1 & _ & E3 & E4 & _).
  assert (∃ c, fs s !! iterDir (S (cache_iter s)) = Some (File c)) as [c Hc].
  { unfold is_file in Hfile.
    destruct (fs s !! iterDir (S (cache_iter s))) as [[c|]|]; [|done..].
    by exists c. }
  unfold ensure_dir in E1.
  rewrite (proj2 (path_exists_true _ _)) in E1 by eauto.
  injection E1 as <-.
  unfold wipe in E3. destruct stale.
  - unfold rmtree in E3.
    by rewrite (proj2 (is_dir_false _ _)) in E3 by (rewrite Hc; done).
  - injection E3 as <-. unfold write_file in E4.
    change (parent (getFullFilename (S (cache_iter s)) "key"))
      with (iterDir (S (cache_iter s))) in E4.
    by rewrite (proj2 (is_dir_false _ _)) in E4 by (rewrite Hc; done).
Qed.

(** ** An iteration that starts from an empty folder *)

Lemma fmtName_not_style : fmtName ≠ ".clang-format".
Proof. unfold fmtName. rewrite !string_app_cons. intros H. discriminate H. Qed.

Lemma prepareFormat_fresh l items s toRun s' d :
  prepareFormat l items s = Ok toRun s' →
  heap s !! l = Some d →
  NoDup (dict_keys items) →
  (∀ v x, v ∈ dict_keys items →
          fs s !! [iterName (cache_iter s); v; x] = None) →
  toRun = getValueDir (cache_iter s) <$> dict_keys items
  ∧ (∀ v vd, (v, vd) ∈ items →
       fs s' !! getStyleFilename (cache_iter s) v
       = Some (File (yaml_dump (dict_update d vd))))
  ∧ (∀ p, (∀ v, v ∈ dict_keys items →
                p ≠ getStyleFilename (cache_iter s) v) →
          fs s' !! p = fs s !! p).
Proof.
  revert s toRun. induction items as [|[valName valDict] items IH];
    intros s toRun H Hd Hnd Hfresh; simpl in H.
  - apply ret_Ok in H as [<- <-]. split_and!; [done| |done].
    by intros ? ? ?%elem_of_nil.
  - unfold dict_keys in Hnd, Hfresh |- *. rewrite fmap_cons in Hnd, Hfresh |- *.
    cbn [fst] in Hnd, Hfresh |- *.
    apply NoDup_cons in Hnd as [Hv Hnd].
    mget H.
    assert (hasFmtCache s valName = false) as Hno.
    { unfold hasFmtCache, nonempty_at.
      rewrite (proj2 (path_exists_false _ _)); [done|].
      apply Hfresh. by left. }
    rewrite Hno in H.
    mstep H as st s1 H1. unfold deepcopy in H1.
    mstep H1 as d0 s0 H0. apply deref_Ok in H0 as [Hd0 ->].
    apply alloc_Ok in H1 as [-> ->].
    pose proof (eq_trans (eq_sym Hd0) Hd) as [= ->].
    mstep H as d1 s2 H2. apply deref_Ok in H2 as [Hd1 ->].
    cbn [heap set_heap] in Hd1.
    rewrite lookup_app_r, Nat.sub_diag in Hd1 by done.
    injection Hd1 as <-.
    mstep H as ? s3 H3. unfold store in H3. apply modify_Ok in H3 as ->.
    mstep H as ? s4 H4. unfold writeStyleFile in H4.
    mget H4. cbn [fs cache_iter set_heap] in H4.
    rewrite (proj2 (path_exists_false _ _)) in H4 by (apply Hfresh; by left).
    mstep H4 as d2 s5 H5. apply deref_Ok in H5 as [Hd2 ->].
    cbn [heap set_heap] in Hd2.
    rewrite list_lookup_insert_eq in Hd2
      by (rewrite length_app; simpl; lia).
    injection Hd2 as <-. cbv zeta in H4.
    apply fs_op_Ok in H4 as (f' & Hw & ->).
    apply write_file_Some in Hw as (_ & _ & ->). cbn [fs set_heap] in *.
    cbv zeta in H. mstep H as toRun' s6 H6. apply ret_Ok in H as [<- ->].
    apply IH in H6 as (-> & Hstyle & Hframe); cbn [fs heap cache_iter set_fs set_heap].
    + split_and!.
      * done.
      * intros v vd [[= -> ->]|Hin]%elem_of_cons.
        -- rewrite Hframe; [apply lookup_insert_eq|].
           intros w Hw [= ->]. done.
        -- by apply Hstyle.
      * intros p Hp. rewrite Hframe.
        -- apply lookup_insert_ne. intros <-. by apply (Hp valName); [left|].
        -- intros w Hw. apply Hp. by right.
    + rewrite list_lookup_insert_ne; [by apply lookup_app_l_Some|].
      apply lookup_lt_Some in Hd. intros E. revert Hd. rewrite <- E.
      apply Nat.lt_irrefl.
    + done.
    + intros w y Hw. rewrite lookup_insert_ne.
      * apply Hfresh. by right.
      * intros [= <- _]. done.
Qed.

Lemma invokeCommandsInParallelCwd_fresh inputSC vs s u s' n :
  invokeCommandsInParallelCwd inputSC (getValueDir n <$> vs) s = Ok u s' →
  NoDup vs →
  length (absPath inputSC) ≠ 3 →
  (∀ v, v ∈ vs → fs s !! getFmtFilename n v = None) →
  (∀ v, v ∈ vs →
     fs s' !! getFmtFilename n v
     = Some (File (clang_format (file_content (fs s) (getStyleFilename n v))
                     (baseFilename inputSC)
                     (default "" (file_content (fs s) (absPath inputSC)))))
     ∧ is_dir (fs s') (getValueDir n v) = true)
  ∧ (∀ p, (∀ v, v ∈ vs → p ≠ getFmtFilename n v) → fs s' !! p = fs s !! p).
Proof.
  unfold invokeCommandsInParallelCwd. intros H Hnd Habs. revert s H.
  induction vs as [|v vs IH]; intros s H Hfresh; simpl in H.
  - apply ret_Ok in H as [_ <-]. split; [|done]. by intros ? ?%elem_of_nil.
  - apply NoDup_cons in Hnd as [Hv Hnd].
    mstep H as ? s1 H1. mget H1.
    destruct (is_dir (fs s) (getValueDir n v)) eqn:Hdir; [|done].
    apply modify_Ok in H1 as ->.
    assert (run_format inputSC (getValueDir n v) (fs s)
            = <[getFmtFilename n v :=
                  File (clang_format
                          (file_content (fs s) (getStyleFilename n v))
                          (baseFilename inputSC)
                          (default "" (file_content (fs s) (absPath inputSC))))]>
                (fs s)) as Hrun.
    { unfold run_format, shell_redirect, write_file.
      change (getValueDir n v ++ [fmtName]) with (getFmtFilename n v).
      change (getValueDir n v ++ [".clang-format"])
        with (getStyleFilename n v).
      change (parent (getFmtFilename n v)) with (getValueDir n v).
      rewrite Hdir.
      rewrite (proj2 (is_dir_false _ _)); [done|].
      rewrite Hfresh; [done|by left]. }
    rewrite Hrun in H. clear Hrun.
    apply (IH Hnd) in H as [Hres Hframe]; cbn [fs log set_fs] in *.
    + split.
      * intros w [->|Hw]%elem_of_cons.
        -- rewrite Hframe by (by intros w Hw [= ->]).
           rewrite lookup_insert_eq. split; [done|].
           apply is_dir_true. rewrite Hframe by (by intros w Hw [= ?]).
           rewrite lookup_insert_ne by done. by apply is_dir_true.
        -- destruct (Hres w Hw) as [-> Hd]. split; [|done].
           assert (∀ p y, p ≠ getFmtFilename n v →
                     file_content (<[getFmtFilename n v := y]> (fs s)) p
                     = file_content (fs s) p) as Hfc.
           { intros p y Hp. apply file_content_ext.
             by apply lookup_insert_ne. }
           rewrite !Hfc; [done|..].
           all: intros E;
             first [by apply Habs; rewrite E
                   |injection E as E; by apply fmtName_not_style].
      * intros p Hp. rewrite Hframe by (intros w Hw; apply Hp; by right).
        apply lookup_insert_ne. intros <-. by apply (Hp v); [left|].
    + intros w Hw. rewrite lookup_insert_ne.
      * apply Hfresh. by right.
      * intros [= ->]. done.
Qed.

Lemma diff_name_not_fmt : ext ≠ ".diff" → fmtName ≠ "formatted.diff".
Proof.
  unfold fmtName. rewrite !string_app_cons, string_app_nil_l.
  intros Hext [= E]. done.
Qed.

Lemma diff_batch_fresh inputSC n vs f :
  NoDup vs →
  ext ≠ ".diff" →
  length (absPath inputSC) ≠ 3 →
  (∀ v, v ∈ vs → f !! getDiffFilename n v = None
                 ∧ is_dir f (getValueDir n v) = true) →
  (∀ v, v ∈ vs →
     diff_batch inputSC
       ((λ v, (getFmtFilename n v, getDiffFilename n v)) <$> vs) f
     !! getDiffFilename n v
     = Some (File (diff_output (absPath inputSC) f (getFmtFilename n v))))
  ∧ (∀ p, (∀ v, v ∈ vs → p ≠ getDiffFilename n v) →
          diff_batch inputSC
            ((λ v, (getFmtFilename n v, getDiffFilename n v)) <$> vs) f !! p
          = f !! p).
Proof.
  intros Hnd Hext Habs. unfold diff_batch. revert f.
  induction vs as [|v vs IH]; intros f Hfresh.
  - split; [|done]. by intros ? ?%elem_of_nil.
  - apply NoDup_cons in Hnd as [Hv Hnd]. rewrite fmap_cons. cbn [foldl fst snd].
    destruct (Hfresh v) as [Hnone Hdir]; [by left|].
    assert (run_diff inputSC (getFmtFilename n v) (getDiffFilename n v) f
            = <[getDiffFilename n v :=
                  File (diff_output (absPath inputSC) f (getFmtFilename n v))]>
                f) as ->.
    { rewrite run_diff_eq. unfold shell_redirect, write_file.
      change (parent (getDiffFilename n v)) with (getValueDir n v).
      rewrite Hdir. rewrite (proj2 (is_dir_false _ _)); [done|].
      by rewrite Hnone. }
    destruct (IH Hnd (<[getDiffFilename n v :=
                File (diff_output (absPath inputSC) f (getFmtFilename n v))]> f))
      as [Hres Hframe].
    { intros w Hw. destruct (Hfresh w) as [Hn Hd]; [by right|]. split.
      - rewrite lookup_insert_ne; [done|]. intros [= ->]. done.
      - apply is_dir_true. rewrite lookup_insert_ne by done.
        by apply is_dir_true. }
    split.
    + intros w [->|Hw]%elem_of_cons.
      * rewrite Hframe by (by intros w Hw [= ->]). apply lookup_insert_eq.
      * rewrite (Hres w Hw). do 2 f_equal.
        apply diff_output_ext; rewrite lookup_insert_ne; try done.
        -- intros E. apply Habs. by rewrite <- E.
        -- intros [= _ E]. by apply (diff_name_not_fmt Hext).
    + intros p Hp. rewrite Hframe by (intros w Hw; apply Hp; by right).
      apply lookup_insert_ne. intros <-. by apply (Hp v); [left|].
Qed.

Lemma diffCommands_all s valNames :
  (∀ v, v ∈ valNames → hasDiffCache s v = false) →
  diffCommands s valNames
  = (λ v, (getFmtFilename (cache_iter s) v, getDiffFilename (cache_iter s) v))
      <$> valNames.
Proof.
  unfold diffCommands. induction valNames as [|v vs IH]; intros H; [done|].
  simpl. rewrite (H v) by (by left). f_equal. apply IH.
  intros w Hw. apply H. by right.
Qed.

(** Two paths of the dump directory differ: in length, or in the name of
    the artifact. *)
Ltac distinct_names E :=
  first [ by apply (f_equal length) in E
        | injection E; intros; subst; done
        | injection E; intros; subst; congruence ].

(** The paths that the commands of lines 239-241, 259 and 267 put into
    their command lines reach the shell as single words, and every value
    name is one path component: the working directory, the dump
    directory and the extension hold plain characters only, and so do the
    value names. *)
Definition one_word_paths (valNames : list string) : Prop :=
  shell_word workDir = true
  ∧ shell_word dumpDir = true
  ∧ all_chars plain_char ext = true
  ∧ Forall (λ v, plain_name v = true) valNames.

(** The output of the formatter on the canonical sample found in [f],
    under the style [st] (the command of lines 239-241). *)
Definition formatted_under (inputSC : InputSourceCode) (f : FS) (st : style) :
    string :=
  clang_format (Some (yaml_dump st)) (baseFilename inputSC)
    (default "" (file_content f (absPath inputSC))).

Lemma experimentForOption_fresh inputSC baseStyle key values
    prevScore s r s' :
  wf_input inputSC →
  ext ≠ ".diff" →
  experimentForOption inputSC baseStyle key values prevScore s = Ok r s' →
  cache_dirty s' = true →
  ∃ names d,
    resolveValues key values [] = Some names
    ∧ heap s !! baseStyle = Some d
    ∧ trace s' =
        trace s
        ++ (EvFormat ∘ getValueDir (S (cache_iter s)) <$> dict_keys names)
        ++ (EvDiff ∘ getDiffFilename (S (cache_iter s)) <$> dict_keys names)
    ∧ ∀ v vd, (v, vd) ∈ names →
        file_content (fs s') (getStyleFilename (S (cache_iter s)) v)
        = Some (yaml_dump (dict_update d vd))
        ∧ file_content (fs s') (getFmtFilename (S (cache_iter s)) v)
          = Some (formatted_under inputSC (fs s) (dict_update d vd))
        ∧ file_content (fs s') (getDiffFilename (S (cache_iter s)) v)
          = Some (match file_content (fs s) (absPath inputSC) with
                  | Some a =>
                      diff_u a
                        (formatted_under inputSC (fs s) (dict_update d vd))
                  | None => ""
                  end).
Proof.
  intros (a & Habs & Ha) Hext H Hdirty.
  pose proof fmtName_not_style as Hfs0.
  pose proof (diff_name_not_fmt Hext) as Hfd0. unfold experimentForOption in H.
  mstep H as names s0 H0.
  destruct (resolveValues key values []) as [names'|] eqn:Hres; [|done].
  apply ret_Ok in H0 as [-> <-]. cbv zeta in H.
  assert (NoDup (dict_keys names)) as Hnd.
  { eapply resolveValues_NoDup; [exact Hres|]. apply NoDup_nil_2. }
  assert (length (absPath inputSC) ≠ 3) as Hlen by (by rewrite Habs).
  set (n := S (cache_iter s)).
  mstep H as ? s1 H1.
  apply startIteration_Ok_iff in H1 as (d & f1 & stale & Hd & Hfs & ->).
  apply startIteration_fs_spec in Hfs
    as (_ & Hout & _ & _ & _ & _ & _ & Hstale & _). fold n in Hout, Hstale.
  mstep H as toRun s2 H2.
  pose proof (prepareFormat_frame _ _ _ _ _ H2) as (_ & Ei2 & Ed2 & Et2).
  cbn [cache_iter cache_dirty trace] in Ei2, Ed2, Et2. fold n in Ei2.
  mstep H as ? s3 H3.
  pose proof (invokeCommandsInParallelCwd_trace _ _ _ _ _ H3) as Et3.
  pose proof (invokeCommandsInParallelCwd_same_cache _ _ _ _ _ H3)
    as (_ & Ei3 & Ed3).
  mstep H as ? s4 H4. apply checkOutputs_Ok in H4 as [-> _].
  mget H.
  mstep H as ? s5 H5. rewrite invokeCommandsInParallel_Ok in H5.
  injection H5 as _ <-.
  mget H. cbn [fs cache_iter] in H.
  assert (fs s' = diff_batch inputSC (diffCommands s3 (dict_keys names)) (fs s3)
          ∧ cache_dirty s' = cache_dirty s3
          ∧ trace s' =
              trace s3 ++ (EvDiff ∘ snd <$> diffCommands s3 (dict_keys names)))
    as (Ef & Ed & Et).
  { destruct (decide_option _ _ _) as [dec|]; [|done].
    mstep H as ? s6 H6. apply ret_Ok in H as [_ <-].
    destruct (ignore dec).
    - by apply ret_Ok in H6 as [_ <-].
    - mstep H6 as d' s7 H7. apply deref_Ok in H7 as [_ ->].
      unfold store in H6. by apply modify_Ok in H6 as ->. }
  clear H.
  assert (stale = true) as -> by congruence.
  specialize (Hstale eq_refl).
  assert (∀ v y, f1 !! [iterName n; v; y] = None) as Hfresh.
  { intros v y. rewrite Hstale. rewrite !decide_False; [done|..].
    - intros (w & [= ?] & _)%list_elem_of_fmap.
    - done.
    - done.
    - done. }
  assert (f1 !! absPath inputSC = fs s !! absPath inputSC) as Hs1.
  { apply Hout; rewrite Habs; [done|]. intros [q [= E]]. by apply (Ha n). }
  apply (prepareFormat_fresh _ _ _ _ _ d) in H2
    as (-> & Hstyle & Hframe2); cbn [fs heap cache_iter] in *;
    [|done|done|by intros v y _]. fold n in Hstyle, Hframe2, H3, Et3.
  apply invokeCommandsInParallelCwd_fresh in H3 as [Hfmt Hframe3];
    [|done|done|].
  2: { intros v _. rewrite Hframe2; [apply Hfresh|].
       intros w _ E; distinct_names E. }
  assert (diffCommands s3 (dict_keys names)
          = (λ v, (getFmtFilename n v, getDiffFilename n v)) <$> dict_keys names)
    as Hcmds.
  { rewrite diffCommands_all; [by rewrite Ei3, Ei2|].
    intros v _. unfold hasDiffCache, nonempty_at. rewrite Ei3, Ei2.
    rewrite (proj2 (path_exists_false _ _)); [done|].
    rewrite Hframe3, Hframe2; [apply Hfresh|..].
    - intros w _ E; distinct_names E.
    - intros w _ E; distinct_names E. }
  rewrite Hcmds in Ef, Et.
  destruct (diff_batch_fresh inputSC n (dict_keys names) (fs s3) Hnd Hext Hlen)
    as [Hdiff Hframe5].
  { intros v Hv. split; [|by apply Hfmt].
    rewrite Hframe3, Hframe2; [apply Hfresh|..].
    - intros w _ E; distinct_names E.
    - intros w _ E; distinct_names E. }
  rewrite <- Ef in Hdiff, Hframe5.
  assert (file_content (fs s3) (absPath inputSC)
          = file_content (fs s) (absPath inputSC)) as Hsample.
  { rewrite <- (file_content_ext _ _ _ Hs1).
    apply file_content_ext. rewrite Hframe3, Hframe2; [done|..].
    - intros w _ E; distinct_names E.
    - intros w _ E; distinct_names E. }
  exists names, d. split_and!; [done|done| |].
  - rewrite Et, Et3, Et2, <- app_assoc. do 2 f_equal.
    + by rewrite list_fmap_compose.
    + by rewrite <- !list_fmap_compose.
  - intros v vd Hin.
    assert (v ∈ dict_keys names) as Hv.
    { apply list_elem_of_fmap. by exists (v, vd). }
    assert (fs s3 !! getStyleFilename n v
            = Some (File (yaml_dump (dict_update d vd)))) as Hst3.
    { rewrite Hframe3; [by apply Hstyle|].
      intros w _ E; distinct_names E. }
    assert (fs s3 !! getFmtFilename n v
            = Some (File (formatted_under inputSC (fs s) (dict_update d vd))))
      as Hfmt3.
    { destruct (Hfmt v Hv) as [-> _]. do 2 f_equal. unfold formatted_under.
      rewrite (file_content_File _ _ _ (Hstyle v vd Hin)). do 2 f_equal.
      rewrite <- (file_content_ext _ _ _ Hs1).
      apply file_content_ext. rewrite Hframe2; [done|].
      intros w _ E; distinct_names E. }
    split_and!.
    + apply file_content_File. rewrite Hframe5; [done|]. intros w _ E; distinct_names E.
    + apply file_content_File. rewrite Hframe5; [done|].
      intros w _ E; distinct_names E.
    + apply file_content_File. rewrite (Hdiff v Hv). do 2 f_equal.
      unfold diff_output. rewrite Hsample.
      by rewrite (file_content_File _ _ _ Hfmt3).
Qed.

(** X13.  [experimentForOption], lines 210-261, on an iteration found stale
    (always the case on a first run, or after the sample has changed),
    when the paths of the command lines are single shell words and the
    value names plain.  Every value of the option is formatted and
    compared once, in the order of the value names.  For each value the
    folder of the iteration then holds the style tried, which is the base
    style overridden by the settings of the value, the output of the
    formatter on the sample under that style, and the diff of the sample
    against this output. *)
Theorem experimentForOption_fresh_iteration inputSC baseStyle key values
    prevScore s r s' :
  wf_input inputSC →
  ext ≠ ".diff" →
  (∀ names, resolveValues key values [] = Some names →
            one_word_paths (dict_keys names)) →
  experimentForOption inputSC baseStyle key values prevScore s = Ok r s' →
  cache_dirty s' = true →
  ∃ names d,
    resolveValues key values [] = Some names
    ∧ heap s !! baseStyle = Some d
    ∧ trace s' =
        trace s
        ++ (EvFormat ∘ getValueDir (S (cache_iter s)) <$> dict_keys names)
        ++ (EvDiff ∘ getDiffFilename (S (cache_iter s)) <$> dict_keys names)
    ∧ ∀ v vd, (v, vd) ∈ names →
        file_content (fs s') (getStyleFilename (S (cache_iter s)) v)
        = Some (yaml_dump (dict_update d vd))
        ∧ file_content (fs s') (getFmtFilename (S (cache_iter s)) v)
          = Some (formatted_under inputSC (fs s) (dict_update d vd))
        ∧ file_content (fs s') (getDiffFilename (S (cache_iter s)) v)
          = Some (match file_content (fs s) (absPath inputSC) with
                  | Some a =>
                      diff_u a
                        (formatted_under inputSC (fs s) (dict_update d vd))
                  | None => ""
                  end).
Proof. intros Hwf Hext _. by apply experimentForOption_fresh. Qed.

(** *** A run on a new or changed sample *)

Lemma experimentForOption_stays_dirty inputSC baseStyle key values prevScore
    s r s' :
  experimentForOption inputSC baseStyle key values prevScore s = Ok r s' →
  cache_dirty s = true → cache_dirty s' = true.
Proof.
  unfold experimentForOption. intros H Hdirty.
  mstep H as names s0 H0.
  destruct (resolveValues key values []) as [names'|] eqn:Hres; [|done].
  apply ret_Ok in H0 as [-> <-]. cbv zeta in H.
  mstep H as ? s1 H1.
  apply startIteration_Ok_iff in H1 as (d & f1 & stale & Hd & Hfs & ->).
  apply startIteration_fs_spec in Hfs as (Hst & _).
  rewrite Hdirty in Hst. cbn [orb] in Hst. subst stale.
  mstep H as toRun s2 H2.
  apply prepareFormat_frame in H2 as (_ & _ & Ed2 & _).
  mstep H as ? s3 H3.
  apply invokeCommandsInParallelCwd_same_cache in H3 as (_ & _ & Ed3).
  mstep H as ? s4 H4. apply checkOutputs_Ok in H4 as [-> _].
  mget H.
  mstep H as ? s5 H5. rewrite invokeCommandsInParallel_Ok in H5.
  injection H5 as _ <-.
  mget H. cbn [fs cache_iter] in H.
  assert (cache_dirty s' = cache_dirty s3) as ->; [|by rewrite Ed3, Ed2].
  destruct (decide_option _ _ _) as [dec|]; [|done].
  mstep H as ? s6 H6. apply ret_Ok in H as [_ <-].
  destruct (ignore dec).
  - by apply ret_Ok in H6 as [_ <-].
  - mstep H6 as d' s7 H7. apply deref_Ok in H7 as [_ ->].
    unfold store in H6. by apply modify_Ok in H6 as ->.
Qed.

(** The processes of a run that computes every option anew, the first
    iteration being [n + 1]: for each option in turn, one formatter run
    per value name, then one diff run per value name. *)
Fixpoint all_processes (n : nat) (opts : list (pydict (list candidate))) :
    list event :=
  match opts with
  | ((key, values) :: _) :: rest =>
      match resolveValues key values [] with
      | Some names =>
          (EvFormat ∘ getValueDir (S n) <$> dict_keys names)
          ++ (EvDiff ∘ getDiffFilename (S n) <$> dict_keys names)
          ++ all_processes (S n) rest
      | None => []
      end
  | _ => []
  end.

Lemma main_loop_dirty_trace inputSC l opts prev s p s' :
  wf_input inputSC →
  ext ≠ ".diff" →
  main_loop inputSC l opts prev s = Ok p s' →
  cache_dirty s = true →
  trace s' = trace s ++ all_processes (cache_iter s) opts.
Proof.
  intros Hwf Hext. revert prev s.
  induction opts as [|[|[key values] entry] rest IH]; intros prev s H Hdirty.
  - apply ret_Ok in H as [_ <-]. by rewrite app_nil_r.
  - done.
  - cbn [main_loop] in H. mstep H as r s1 H1.
    pose proof (experimentForOption_stays_dirty _ _ _ _ _ _ _ _ H1 Hdirty)
      as Hdirty1.
    pose proof H1 as (_ & _ & _ & _ & _ & _ & _ & _ & Ei & _)%experimentForOption_Ok.
    apply (experimentForOption_fresh _ _ _ _ _ _ _ _ Hwf Hext) in H1
      as (names & d & Hres & _ & Et & _); [|done].
    apply IH in H; [|done]. rewrite H, Et, Ei.
    cbn [all_processes]. rewrite Hres. by rewrite <- !app_assoc.
Qed.

(** X14.  [main] with [InputSourceCode.__init__] and [FileCache], lines 90-130
    and 317-330.  When what the dump directory holds as the sample does
    not read, in text mode, as the canonical sample of the input files (a
    first run, or a changed input), a run that completes computes
    everything anew: for each option in turn it
    starts one formatter for every value name and then one diff for every
    value name, whatever the iteration folders held. *)
Theorem main_recomputes_on_changed_sample inputFiles opts s0 out sf :
  ext ≠ ".diff" →
  main inputFiles opts s0 = Ok out sf →
  universal_newlines <$> file_content (fs s0) ["input" +:+ ext]
  ≠ Some (join (allLines inputFiles)) →
  trace sf = trace s0 ++ all_processes 0 opts.
Proof.
  intros Hext H Hchanged. unfold main in H.
  mstep H as inputSC sa H1.
  pose proof (InputSourceCode_init_wf _ _ _ _ H1) as Hwf.
  apply InputSourceCode_init_Ok in H1
    as (Hne & Hfs1 & _ & _ & _ & Hdirty & _).
  assert (dirty inputSC = true) as Hd.
  { rewrite Hdirty. apply bool_decide_eq_true_2. intros Heq.
    destruct (file_content (fs s0) ["input" +:+ ext]) as [c|].
    - apply Hchanged. simpl. by rewrite <- Heq, join_readlines.
    - destruct inputFiles as [|c cs]; [done|].
      unfold allLines in Heq. rewrite fmap_cons in Heq. cbn [concat] in Heq.
      apply (f_equal length) in Heq. rewrite !length_app in Heq.
      simpl in Heq. lia. }
  mstep H as ? sb H2. unfold FileCache_init in H2.
  apply modify_Ok in H2 as ->.
  mstep H as l sc H3. apply alloc_Ok in H3 as [-> ->].
  mstep H as ? sd H4.
  apply (main_loop_dirty_trace _ _ _ _ _ _ _ Hwf Hext) in H4; [|by rewrite Hd].
  mstep H as d se H5. apply deref_Ok in H5 as [_ ->].
  apply ret_Ok in H as [_ <-]. rewrite H4. simpl.
  by rewrite (only_fs_trace _ _ Hfs1).
Qed.

(** ** An iteration on a valid signature *)

Lemma prepareFormat_exact l items s toRun s' :
  prepareFormat l items s = Ok toRun s' →
  toRun = getValueDir (cache_iter s)
            <$> filter (λ v, hasFmtCache s v = false) (dict_keys items)
  ∧ (∀ p, (∀ v, p ≠ getStyleFilename (cache_iter s) v) →
          fs s' !! p = fs s !! p).
Proof.
  revert s toRun. induction items as [|[valName valDict] items IH];
    intros s toRun H; simpl in H.
  - by apply ret_Ok in H as [<- <-].
  - unfold dict_keys. rewrite fmap_cons. cbn [fst]. fold (dict_keys items).
    mget H.
    destruct (hasFmtCache s valName) eqn:Hc.
    + rewrite filter_cons_False by (by rewrite Hc). by apply IH.
    + rewrite filter_cons_True by done.
      mstep H as st s1 H1. unfold deepcopy in H1.
      mstep H1 as d0 s0 H0. apply deref_Ok in H0 as [Hd0 ->].
      apply alloc_Ok in H1 as [-> ->].
      mstep H as d1 s2 H2. apply deref_Ok in H2 as [Hd1 ->].
      mstep H as ? s3 H3. unfold store in H3. apply modify_Ok in H3 as ->.
      mstep H as ? s4 H4.
      pose proof (writeStyleFile_only_fs _ _ _ _ _ H4) as F4.
      assert (∀ p, (∀ v, p ≠ getStyleFilename (cache_iter s) v) →
                   fs s4 !! p = fs s !! p) as Hframe4.
      { intros p Hp. unfold writeStyleFile in H4. mget H4.
        cbn [fs cache_iter set_heap] in H4.
        destruct (path_exists _ _).
        - by apply ret_Ok in H4 as [_ <-].
        - mstep H4 as d2 s5 H5. apply deref_Ok in H5 as [_ ->].
          cbv zeta in H4. apply fs_op_Ok in H4 as (f' & Hw & ->).
          apply write_file_Some in Hw as (_ & _ & ->).
          cbn [fs set_fs set_heap]. by apply lookup_insert_ne. }
      cbv zeta in H. mstep H as toRun' s5 H5. apply ret_Ok in H as [<- ->].
      apply IH in H5 as (-> & Hframe).
      rewrite (only_fs_iter _ _ F4) in Hframe |- *.
      cbn [cache_iter set_heap] in Hframe |- *.
      split.
      * rewrite fmap_cons. do 2 f_equal. apply list_filter_iff. intros v.
        unfold hasFmtCache. rewrite (only_fs_iter _ _ F4).
        cbn [cache_iter set_heap].
        rewrite (nonempty_at_ext (fs s) (fs s4)); [done|].
        apply Hframe4. intros w E. distinct_names E.
      * intros p Hp. rewrite Hframe by done. by apply Hframe4.
Qed.

Lemma invokeCommandsInParallelCwd_frame inputSC vs s u s' n :
  invokeCommandsInParallelCwd inputSC (getValueDir n <$> vs) s = Ok u s' →
  ∀ p, (∀ v, p ≠ getFmtFilename n v) → fs s' !! p = fs s !! p.
Proof.
  unfold invokeCommandsInParallelCwd. revert s.
  induction vs as [|v vs IH]; intros s H p Hp; simpl in H.
  - by apply ret_Ok in H as [_ <-].
  - mstep H as ? s1 H1. mget H1.
    destruct (is_dir (fs s) (getValueDir n v)); [|done].
    apply modify_Ok in H1 as ->. rewrite (IH _ H p Hp). cbn [fs log set_fs].
    apply (changed_within_shell_redirect (λ q, ∃ w, q = getFmtFilename n w)).
    + by exists v.
    + intros [w ->]. by apply (Hp w).
Qed.

Lemma diffCommands_filter s valNames :
  (diffCommands s valNames).*2
  = getDiffFilename (cache_iter s)
      <$> filter (λ v, hasDiffCache s v = false) valNames.
Proof.
  unfold diffCommands. induction valNames as [|v vs IH]; [done|].
  cbn [omap list_omap]. destruct (hasDiffCache s v) eqn:Hc.
  - rewrite filter_cons_False by (by rewrite Hc). exact IH.
  - rewrite filter_cons_True by done. rewrite !fmap_cons. cbn [snd].
    f_equal. exact IH.
Qed.

(** X15.  [experimentForOption] with [hasFmtCache] and [hasDiffCache], lines
    163-171 and 230-261.  In an iteration whose signature is valid, the
    formatter is started exactly for the values that had no non-empty
    formatted file when the option began, and a diff exactly for the
    values that had no non-empty diff file, each batch in the order of
    the value names. *)
Theorem experimentForOption_recomputes_what_is_missing inputSC baseStyle key
    values prevScore s r s' :
  ext ≠ ".diff" →
  experimentForOption inputSC baseStyle key values prevScore s = Ok r s' →
  cache_dirty s' = false →
  ∃ names,
    resolveValues key values [] = Some names
    ∧ trace s' =
        trace s
        ++ (EvFormat ∘ getValueDir (S (cache_iter s))
              <$> filter (λ v, nonempty_at (fs s)
                                 (getFmtFilename (S (cache_iter s)) v) = false)
                    (dict_keys names))
        ++ (EvDiff ∘ getDiffFilename (S (cache_iter s))
              <$> filter (λ v, nonempty_at (fs s)
                                 (getDiffFilename (S (cache_iter s)) v) = false)
                    (dict_keys names)).
Proof.
  intros Hext H Hdirty. unfold experimentForOption in H.
  pose proof fmtName_not_style as Hfs0.
  pose proof (diff_name_not_fmt Hext) as Hfd0.
  mstep H as names s0 H0.
  destruct (resolveValues key values []) as [names'|] eqn:Hres; [|done].
  apply ret_Ok in H0 as [-> <-]. cbv zeta in H.
  set (n := S (cache_iter s)).
  mstep H as ? s1 H1.
  apply startIteration_Ok_iff in H1 as (d & f1 & stale & Hd & Hfs & ->).
  apply startIteration_fs_spec in Hfs
    as (_ & _ & _ & _ & _ & _ & _ & _ & Hkeep). fold n in Hkeep.
  mstep H as toRun s2 H2.
  pose proof (prepareFormat_frame _ _ _ _ _ H2) as (_ & Ei2 & Ed2 & Et2).
  cbn [cache_iter cache_dirty trace] in Ei2, Ed2, Et2. fold n in Ei2.
  apply prepareFormat_exact in H2 as (-> & Hframe2).
  cbn [fs cache_iter] in Hframe2. fold n in Hframe2 |- *.
  mstep H as ? s3 H3.
  pose proof (invokeCommandsInParallelCwd_trace _ _ _ _ _ H3) as Et3.
  pose proof (invokeCommandsInParallelCwd_same_cache _ _ _ _ _ H3)
    as (_ & Ei3 & Ed3).
  cbn [cache_iter] in H3, Et3. fold n in H3, Et3.
  pose proof (invokeCommandsInParallelCwd_frame _ _ _ _ _ _ H3) as Hframe3.
  mstep H as ? s4 H4. apply checkOutputs_Ok in H4 as [-> _].
  mget H.
  mstep H as ? s5 H5. rewrite invokeCommandsInParallel_Ok in H5.
  injection H5 as _ <-.
  mget H. cbn [fs cache_iter] in H.
  assert (cache_dirty s' = cache_dirty s3
          ∧ trace s' =
              trace s3 ++ (EvDiff ∘ snd <$> diffCommands s3 (dict_keys names)))
    as (Ed & Et).
  { destruct (decide_option _ _ _) as [dec|]; [|done].
    mstep H as ? s6 H6. apply ret_Ok in H as [_ <-].
    destruct (ignore dec).
    - by apply ret_Ok in H6 as [_ <-].
    - mstep H6 as d' s7 H7. apply deref_Ok in H7 as [_ ->].
      unfold store in H6. by apply modify_Ok in H6 as ->. }
  clear H.
  assert (stale = false) as -> by congruence.
  destruct (Hkeep eq_refl) as [_ Hsame].
  exists names. split; [done|].
  rewrite Et, Et3, Et2, <- app_assoc. cbn [trace]. do 2 f_equal.
  - rewrite list_fmap_compose. do 2 f_equal.
    apply list_filter_iff. intros v. unfold hasFmtCache. cbn [fs cache_iter].
    fold n. by rewrite (nonempty_at_ext (fs s) f1) by (by apply Hsame).
  - rewrite (list_fmap_compose snd EvDiff), (list_fmap_compose _ EvDiff).
    f_equal.
    change (snd <$> diffCommands s3 (dict_keys names))
      with ((diffCommands s3 (dict_keys names)).*2).
    rewrite diffCommands_filter, Ei3, Ei2. f_equal.
    apply list_filter_iff. intros v. unfold hasDiffCache. rewrite Ei3, Ei2.
    rewrite (nonempty_at_ext (fs s) (fs s3)); [done|].
    rewrite Hframe3, Hframe2, Hsame; [done|done|..];
      intros w E; distinct_names E.
Qed.

(** The score of the settings [st] on the canonical sample found in [f]:
    the count that line 267 gives for the diff of the sample against the
    output of the formatter under [st]. *)
Definition score_under (inputSC : InputSourceCode) (f : FS) (st : style) :
    nat :=
  match file_content f (absPath inputSC) with
  | Some a => grep_count (diff_u a (formatted_under inputSC f st))
  | None => 0
  end.

(** X16.  [experimentForOption], lines 210-294, on an iteration found stale,
    when the paths of the command lines are single shell words and the
    value names plain.  The score that the option returns is the least,
    over its values, of the count of marked lines in the diff of the
    sample against the output of the formatter under the base style
    overridden by the value. *)
Theorem experimentForOption_fresh_score inputSC baseStyle key values
    prevScore s r s' :
  wf_input inputSC →
  ext ≠ ".diff" →
  (∀ names, resolveValues key values [] = Some names →
            one_word_paths (dict_keys names)) →
  experimentForOption inputSC baseStyle key values prevScore s = Ok r s' →
  cache_dirty s' = true →
  ∃ names d,
    resolveValues key values [] = Some names
    ∧ heap s !! baseStyle = Some d
    ∧ (∃ v vd, (v, vd) ∈ names
               ∧ r.2 = score_under inputSC (fs s) (dict_update d vd))
    ∧ (∀ v vd, (v, vd) ∈ names →
               (r.2 ≤ score_under inputSC (fs s) (dict_update d vd))%nat).
Proof.
  intros Hwf Hext _ H Hdirty.
  pose proof H as (names & d & dec & h & Hres & Hd & Hdec & -> & Ei & _)%experimentForOption_Ok.
  apply (experimentForOption_fresh _ _ _ _ _ _ _ _ Hwf Hext) in H
    as (names' & d' & Hres' & Hd' & _ & Hfiles); [|done].
  pose proof (eq_trans (eq_sym Hres') Hres) as [= ->].
  pose proof (eq_trans (eq_sym Hd') Hd) as [= ->].
  assert (∀ v vd, (v, vd) ∈ names →
            diffVal s' v = score_under inputSC (fs s) (dict_update d vd))
    as Hscore.
  { intros v vd Hin. destruct (Hfiles v vd Hin) as (_ & _ & Hdiff).
    unfold diffVal, score_under. rewrite Ei, Hdiff.
    by destruct (file_content (fs s) (absPath inputSC)). }
  apply decide_option_Some in Hdec as (Hmin & Hle & _).
  exists names, d. split_and!; [done|done| |].
  - apply first_min_spec in Hmin as (i & Hi & _).
    apply scoreValues_lookup in Hi as [Hi Hval]. cbn [fst snd] in Hi, Hval.
    unfold dict_keys in Hi.
    apply list_lookup_fmap_Some in Hi as ([v vd] & Hv & Hn).
    cbn [fst] in Hv. subst v.
    exists (winner dec), vd. split; [by eapply list_elem_of_lookup_2|].
    cbn [snd]. rewrite Hval. apply Hscore. by eapply list_elem_of_lookup_2.
  - intros v vd Hin. cbn [snd]. rewrite <- (Hscore v vd Hin).
    apply (Hle (diffVal s' v, v)). unfold scoreValues.
    apply list_elem_of_fmap. exists v. split; [done|].
    apply list_elem_of_fmap. by exists (v, vd).
Qed.

(** ** The signature of an iteration, written and read back *)

(** X17.  [FileCache.startIteration] with [_writeIterFile] and
    [_readIterFileContent], lines 113-141 and 187-202.  What an iteration
    records is what the next run reads: started again on the directory
    that it left, with the same key, base style and values and a clean
    flag, the iteration is not found stale and changes nothing in the
    dump directory. *)
Theorem startIteration_again key baseStyle values s u s1 t d :
  startIteration key baseStyle values s = Ok u s1 →
  heap s !! baseStyle = Some d →
  heap t !! baseStyle = Some d →
  fs t = fs s1 →
  cache_iter t = cache_iter s →
  cache_dirty t = false →
  startIteration key baseStyle values t = Ok tt (set_iter (S (cache_iter t)) t).
Proof.
  intros (d' & f' & stale & Hd' & Hfs & ->)%startIteration_Ok_iff Hd Ht
    Hf Hi Hc.
  pose proof (eq_trans (eq_sym Hd') Hd) as [= ->].
  apply startIteration_fs_spec in Hfs
    as (_ & _ & _ & Hdir & Hkey & Hstyle & Hvals & _).
  cbn [fs] in Hf. rewrite <- Hi, <- Hf in Hdir, Hkey, Hstyle, Hvals.
  apply startIteration_Ok_iff. exists d, (fs t), false.
  split_and!; [done| |].
  - rewrite Hc. by apply startIteration_fs_cached.
  - destruct t; simpl in *. by subst.
Qed.

(** ** A sample whose extension is [.diff] *)

Lemma diffCommands_nil s valNames :
  (∀ v, v ∈ valNames → hasDiffCache s v = true) →
  diffCommands s valNames = [].
Proof.
  unfold diffCommands. induction valNames as [|v vs IH]; intros H; [done|].
  simpl. rewrite (H v) by (by left). apply IH.
  intros w Hw. apply H. by right.
Qed.

(** X18.  [experimentForOption] with [getFmtFilename] and [getDiffFilename],
    lines 143-153 and 247-269.  When the extension of the first input
    file is [.diff], the formatted file and the diff file of a value are
    the same file: an option that completes starts no diff at all, and
    its scores are counted on the formatted files. *)
Theorem diff_extension_starts_no_diff inputSC baseStyle key values prevScore
    s r s' :
  ext = ".diff" →
  experimentForOption inputSC baseStyle key values prevScore s = Ok r s' →
  ∃ names vs,
    resolveValues key values [] = Some names
    ∧ sublist vs (dict_keys names)
    ∧ trace s' =
        trace s ++ (EvFormat ∘ getValueDir (S (cache_iter s)) <$> vs)
    ∧ ∀ v, diffVal s' v
           = match file_content (fs s') (getFmtFilename (S (cache_iter s)) v)
             with
             | Some text => grep_count text
             | None => 0
             end.
Proof.
  intros Hext H.
  assert (∀ n v, getDiffFilename n v = getFmtFilename n v) as Hsame.
  { intros n v. unfold getFmtFilename, getDiffFilename, fmtName.
    by rewrite Hext. }
  pose proof H as (_ & _ & _ & _ & _ & _ & _ & _ & Ei & _)%experimentForOption_Ok.
  unfold experimentForOption in H.
  mstep H as names s0 H0.
  destruct (resolveValues key values []) as [names'|] eqn:Hres; [|done].
  apply ret_Ok in H0 as [-> <-]. cbv zeta in H.
  mstep H as ? s1 H1.
  apply startIteration_frame in H1 as (_ & _ & Et1 & Ei1).
  mstep H as toRun s2 H2.
  pose proof (prepareFormat_jobs _ _ _ _ _ H2) as (vs & -> & Hvs).
  apply prepareFormat_frame in H2 as (_ & Ei2 & _ & Et2).
  mstep H as ? s3 H3.
  pose proof (invokeCommandsInParallelCwd_trace _ _ _ _ _ H3) as Et3.
  mstep H as ? s4 H4. apply checkOutputs_Ok in H4 as [-> Hall].
  mget H.
  rewrite diffCommands_nil in H.
  2: { intros v Hv. unfold hasDiffCache. rewrite Hsame. by apply Hall. }
  mstep H as ? s5 H5. apply ret_Ok in H5 as [_ <-].
  mget H.
  assert (trace s' = trace s3) as Et.
  { destruct (decide_option _ _ _) as [dec|]; [|done].
    mstep H as ? s6 H6. apply ret_Ok in H as [_ <-].
    destruct (ignore dec).
    - by apply ret_Ok in H6 as [_ <-].
    - mstep H6 as d' s7 H7. apply deref_Ok in H7 as [_ ->].
      unfold store in H6. by apply modify_Ok in H6 as ->. }
  exists names, vs. split_and!; [done|done| |].
  - rewrite Et, Et3, Et2, Et1, Ei1. by rewrite list_fmap_compose.
  - intros v. unfold diffVal. by rewrite Ei, Hsame.
Qed.

(** ** The acceptance of an option, in terms of the scores *)

(** X19.  [experimentForOption], lines 273-293.  The key is set exactly when
    the least score is below the threshold and two values of the option
    have different scores; it is then set to the winner, and otherwise
    the style object is left as it was. *)
Theorem experimentForOption_accepts_iff inputSC baseStyle key values prevScore
    s r s' :
  experimentForOption inputSC baseStyle key values prevScore s = Ok r s' →
  ∃ names d dec,
    resolveValues key values [] = Some names
    ∧ heap s !! baseStyle = Some d
    ∧ decide_option (scoreValues s' (dict_keys names)) (numLines inputSC)
        prevScore = Some dec
    ∧ (ignore dec = false ↔
       (r.2 < prevScore)%nat
       ∧ ∃ v w, v ∈ dict_keys names ∧ w ∈ dict_keys names
                ∧ diffVal s' v ≠ diffVal s' w)
    ∧ heap s' !! baseStyle
      = Some (if ignore dec then d else dict_set d key (winner dec)).
Proof.
  intros (names & d & dec & h & Hres & Hd & Hdec & -> & _ & Hh)%experimentForOption_Ok.
  exists names, d, dec. split_and!; [done..| |].
  - pose proof (decide_option_Some _ _ _ _ Hdec)
      as (Hmin & Hle & (vmax & Hmax) & ->). cbn [snd].
    assert (∀ v, v ∈ dict_keys names →
              (minVal dec ≤ diffVal s' v ≤ maxVal dec)%nat) as Hbound.
    { intros v Hv. apply (Hle (diffVal s' v, v)). unfold scoreValues.
      apply list_elem_of_fmap. by exists v. }
    assert (∃ v, v ∈ dict_keys names ∧ diffVal s' v = minVal dec)
      as (v0 & Hv0 & E0).
    { apply first_min_spec in Hmin as (i & Hi & _).
      apply scoreValues_lookup in Hi as [Hi Hval]. cbn [fst snd] in Hi, Hval.
      exists (winner dec). split; [by eapply list_elem_of_lookup_2|done]. }
    assert (vmax ∈ dict_keys names ∧ diffVal s' vmax = maxVal dec)
      as [Hv1 E1].
    { unfold scoreValues in Hmax.
      apply list_elem_of_fmap in Hmax as (v & [= E ->] & Hv). by split. }
    rewrite orb_false_iff, !bool_decide_eq_false. split.
    + intros [Hne Hlt]. split; [lia|].
      exists v0, vmax. split_and!; [done..|]. by rewrite E0, E1.
    + intros [Hlt (v & w & Hv & Hw & Hne)]. split; [|lia].
      intros Heq. apply Hne.
      pose proof (Hbound v Hv). pose proof (Hbound w Hw). lia.
  - rewrite Hh. by eapply lookup_insert_app_l.
Qed.

(** X20.  [experimentForOption] with [copy.deepcopy], lines 232-237 and
    292-293.  The styles tried for the values are copies: an option
    changes no dict object that existed before it other than the base
    style, and in the base style it changes no other key than its own. *)
Theorem experimentForOption_store_frame inputSC baseStyle key values prevScore
    s r s' :
  experimentForOption inputSC baseStyle key values prevScore s = Ok r s' →
  (∀ l d, l ≠ baseStyle → heap s !! l = Some d → heap s' !! l = Some d)
  ∧ ∃ d d', heap s !! baseStyle = Some d
            ∧ heap s' !! baseStyle = Some d'
            ∧ ∀ k, k ≠ key → dict_get d' k = dict_get d k.
Proof.
  intros (names & d & dec & h & Hres & Hd & Hdec & _ & _ & Hh)%experimentForOption_Ok.
  split.
  - intros l d0 Hl Hd0. rewrite Hh, list_lookup_insert_ne by done.
    by apply lookup_app_l_Some.
  - exists d, (if ignore dec then d else dict_set d key (winner dec)).
    split_and!; [done| |].
    + rewrite Hh. by eapply lookup_insert_app_l.
    + intros k Hk. destruct (ignore dec); [done|].
      by apply dict_get_set_ne.
Qed.

End WhenInRome.

(** * Sample runs *)

(** The state after the start-up of [main] on the sample source: the
    canonical copy is written, the cache is dirty (first run), and the
    empty style is object [0]. *)
Definition sample_inputSC : InputSourceCode :=
  mkInput "input.c" ["input.c"] 2 true.

Definition sample_start : state :=
  mkState {[ [] := Dir; ["input.c"] := File (Sample.source +:+ nl) ]}
    [[]] 0 true [].

(** [experimentForOption] on the sample, for the option [UseTab]. *)
Abbreviation sample_experiment prevScore :=
  (experimentForOption Sample.dumpDir Sample.ext
    (Sample.clang_format Sample.useTab_table) Sample.diff_u
    Sample.json_dumps Sample.yaml_dump
    sample_inputSC 0 "UseTab" [Bare "Never"; Bare "Always"] prevScore).

Lemma sample_experiment_run :
  sample_experiment 8 sample_start
  = Ok (0, 0) (outcome_state (sample_experiment 8 sample_start)).
Proof. vm_compute. reflexivity. Qed.

Lemma C1_acceptance_policy_witness :
  ∃ names d dec i,
    resolveValues "UseTab" [Bare "Never"; Bare "Always"] [] = Some names
    ∧ heap sample_start !! 0 = Some d
    ∧ decide_option
        (scoreValues (outcome_state (sample_experiment 8 sample_start))
           (dict_keys names)) (numLines sample_inputSC) 8 = Some dec
    ∧ (∀ v, v ∈ dict_keys names →
            (minVal dec
             ≤ diffVal (outcome_state (sample_experiment 8 sample_start)) v
             ≤ maxVal dec)%nat)
    ∧ (∃ v, v ∈ dict_keys names
            ∧ diffVal (outcome_state (sample_experiment 8 sample_start)) v
              = maxVal dec)
    ∧ dict_keys names !! i = Some (winner dec)
    ∧ diffVal (outcome_state (sample_experiment 8 sample_start)) (winner dec)
      = minVal dec
    ∧ (∀ j v, (j < i)%nat → dict_keys names !! j = Some v →
              (minVal dec
               < diffVal (outcome_state (sample_experiment 8 sample_start)) v)%nat)
    ∧ heap (outcome_state (sample_experiment 8 sample_start)) !! 0 =
        Some (if bool_decide (minVal dec = maxVal dec)
                 || bool_decide (8 ≤ minVal dec)%nat
              then d else dict_set d "UseTab" (winner dec))
    ∧ ((∀ v w, v ∈ dict_keys names → w ∈ dict_keys names →
               diffVal (outcome_state (sample_experiment 8 sample_start)) v
               = diffVal (outcome_state (sample_experiment 8 sample_start)) w) →
       heap (outcome_state (sample_experiment 8 sample_start)) !! 0 = Some d)
    ∧ ((∃ v w, v ∈ dict_keys names ∧ w ∈ dict_keys names
               ∧ diffVal (outcome_state (sample_experiment 8 sample_start)) v
                 ≠ diffVal (outcome_state (sample_experiment 8 sample_start)) w) →
       (minVal dec < 8)%nat →
       heap (outcome_state (sample_experiment 8 sample_start)) !! 0
       = Some (dict_set d "UseTab" (winner dec))).
Proof.
  exact (C1_acceptance_policy Sample.dumpDir Sample.ext
           (Sample.clang_format Sample.useTab_table) Sample.diff_u
           Sample.json_dumps Sample.yaml_dump
           sample_inputSC 0 "UseTab" [Bare "Never"; Bare "Always"] 8
           sample_start (0, 0)
           (outcome_state (sample_experiment 8 sample_start))
           sample_experiment_run).
Defined.


Lemma C6_winner_first_minimal_witness :
  ∃ names dec i,
    resolveValues "UseTab" [Bare "Never"; Bare "Always"] [] = Some names
    ∧ decide_option
        (scoreValues (outcome_state (sample_experiment 8 sample_start))
           (dict_keys names)) (numLines sample_inputSC) 8 = Some dec
    ∧ head (sort_results
              (scoreValues (outcome_state (sample_experiment 8 sample_start))
                 (dict_keys names)))
      = Some (minVal dec, winner dec)
    ∧ dict_keys names !! i = Some (winner dec)
    ∧ diffVal (outcome_state (sample_experiment 8 sample_start)) (winner dec)
      = minVal dec
    ∧ (∀ j v, dict_keys names !! j = Some v →
              (minVal dec
               ≤ diffVal (outcome_state (sample_experiment 8 sample_start)) v)%nat)
    ∧ (∀ j v, (j < i)%nat → dict_keys names !! j = Some v →
              (minVal dec
               < diffVal (outcome_state (sample_experiment 8 sample_start)) v)%nat)
    ∧ (ignore dec = false →
       ∃ d', heap (outcome_state (sample_experiment 8 sample_start)) !! 0
             = Some d'
             ∧ dict_get d' "UseTab" = Some (winner dec)).
Proof.
  exact (C6_winner_first_minimal Sample.dumpDir Sample.ext
           (Sample.clang_format Sample.useTab_table) Sample.diff_u
           Sample.json_dumps Sample.yaml_dump
           sample_inputSC 0 "UseTab" [Bare "Never"; Bare "Always"] 8
           sample_start (0, 0)
           (outcome_state (sample_experiment 8 sample_start))
           sample_experiment_run).
Defined.

(** A cache in its first iteration, with the directory of one value. *)
Definition sample_cache : state :=
  mkState {[ [] := Dir; iterDir 1 := Dir; getValueDir 1 "Never" := Dir ]}
    [[("UseTab", "Never")]; [("UseTab", "Always")]] 1 false [].

Lemma C8_style_file_written_once_witness :
  path_exists
    (fs (outcome_state (writeStyleFile Sample.yaml_dump "Never" 0 sample_cache)))
    (getStyleFilename
       (cache_iter
          (outcome_state (writeStyleFile Sample.yaml_dump "Never" 0 sample_cache)))
       "Never") = true
  ∧ writeStyleFile Sample.yaml_dump "Never" 1
      (outcome_state (writeStyleFile Sample.yaml_dump "Never" 0 sample_cache))
    = Ok tt (outcome_state (writeStyleFile Sample.yaml_dump "Never" 0 sample_cache))
  ∧ (path_exists (fs sample_cache)
       (getStyleFilename (cache_iter sample_cache) "Never") = false →
     ∃ d, heap sample_cache !! 0 = Some d
          ∧ file_content
              (fs (outcome_state
                     (writeStyleFile Sample.yaml_dump "Never" 0 sample_cache)))
              (getStyleFilename
                 (cache_iter
                    (outcome_state
                       (writeStyleFile Sample.yaml_dump "Never" 0 sample_cache)))
                 "Never")
            = Some (Sample.yaml_dump d)).
Proof.
  apply (C8_style_file_written_once Sample.yaml_dump "Never" 0 1
           sample_cache tt).
  vm_compute. reflexivity.
Defined.

(** The phases of [experimentForOption] on an option the formatter
    rejects. *)
Abbreviation bogus_s1 :=
  (outcome_state
     (startIteration Sample.json_dumps "Bogus" 0 ["yes"] sample_start)).
Abbreviation bogus_s2 :=
  (outcome_state
     (prepareFormat Sample.ext Sample.yaml_dump 0
        [("yes", [("Bogus", "yes")])] bogus_s1)).
Abbreviation bogus_s3 :=
  (outcome_state
     (invokeCommandsInParallelCwd Sample.ext
        (Sample.clang_format Sample.bogus_table) sample_inputSC
        [getValueDir 1 "yes"] bogus_s2)).

Lemma C9_missing_output_is_fatal_witness :
  ∃ v0,
    v0 ∈ dict_keys [("yes", [("Bogus", "yes")])]
    ∧ hasFmtCache Sample.ext bogus_s3 v0 = false
    ∧ experimentForOption Sample.dumpDir Sample.ext
        (Sample.clang_format Sample.bogus_table) Sample.diff_u
        Sample.json_dumps Sample.yaml_dump sample_inputSC 0 "Bogus"
        [Bare "yes"] 8 sample_start =
        Raise (SystemExit 1
                 ("ERROR: Formated file not generated: "
                  +:+ render Sample.dumpDir
                        (getFmtFilename Sample.ext (cache_iter bogus_s3) v0)
                  +:+ "; invalid option?")) bogus_s3
    ∧ trace bogus_s3 = trace sample_start ++ (EvFormat <$> [getValueDir 1 "yes"]).
Proof.
  apply (C9_missing_output_is_fatal Sample.dumpDir Sample.ext
           (Sample.clang_format Sample.bogus_table) Sample.diff_u
           Sample.json_dumps Sample.yaml_dump sample_inputSC 0 "Bogus"
           [Bare "yes"] 8 [("yes", [("Bogus", "yes")])]
           sample_start tt bogus_s1 [getValueDir 1 "yes"] bogus_s2 tt bogus_s3
           "yes").
  - vm_compute. reflexivity.
  - vm_compute. reflexivity.
  - vm_compute. reflexivity.
  - vm_compute. reflexivity.
  - apply list_elem_of_here.
  - vm_compute. reflexivity.
Defined.

(** A second run would start like this: the canonical copy is there and
    unchanged, so the cache is built clean; no iteration folder exists. *)
Definition clean_start : state :=
  mkState {[ [] := Dir; ["input.c"] := File (Sample.source +:+ nl) ]}
    [[]] 0 false [].

Abbreviation clean_iteration :=
  (startIteration Sample.json_dumps "UseTab" 0 ["Never"; "Always"] clean_start).

(** C3, as stated, fails: the sample was not dirty and no signature is
    recorded for the slot, yet the cache is treated as stale. *)
Lemma C3_counterexample :
  cache_dirty clean_start = false
  ∧ path_exists (fs clean_start) (getFullFilename 1 "key") = false
  ∧ path_exists (fs clean_start) (getFullFilename 1 "baseStyle") = false
  ∧ spec_stale (cache_dirty clean_start) (fs clean_start) 1 "UseTab"
      (Sample.json_dumps []) = false
  ∧ clean_iteration = Ok tt (outcome_state clean_iteration)
  ∧ cache_dirty (outcome_state clean_iteration) = true.
Proof. vm_compute. done. Qed.

Lemma clean_iteration_run :
  clean_iteration = Ok tt (outcome_state clean_iteration).
Proof. vm_compute. reflexivity. Qed.

Lemma C3_stale_rule_witness :
  cache_iter (outcome_state clean_iteration) = S (cache_iter clean_start)
  ∧ cache_dirty (outcome_state clean_iteration) =
      cache_dirty clean_start
      || bool_decide (recorded (fs clean_start) (S (cache_iter clean_start))
                        "baseStyle" ≠ Sample.json_dumps [])
      || bool_decide (recorded (fs clean_start) (S (cache_iter clean_start))
                        "key" ≠ "UseTab")
  ∧ (cache_dirty (outcome_state clean_iteration) = true → ∀ q,
       fs (outcome_state clean_iteration)
       !! (iterName (S (cache_iter clean_start)) :: q) =
         if decide (q = []) then Some Dir
         else if decide (q = ["baseStyle"])
              then Some (File (Sample.json_dumps []))
         else if decide (q = ["key"]) then Some (File "UseTab")
         else if decide (iterName (S (cache_iter clean_start)) :: q
                         ∈ getValueDir (S (cache_iter clean_start))
                           <$> ["Never"; "Always"])
              then Some Dir else None)
  ∧ (cache_dirty (outcome_state clean_iteration) = false →
       ∀ p x, fs clean_start !! p = Some x →
              fs (outcome_state clean_iteration) !! p = Some x).
Proof.
  apply (C3_stale_rule Sample.json_dumps "UseTab" 0 ["Never"; "Always"]
           clean_start tt (outcome_state clean_iteration) []).
  - exact clean_iteration_run.
  - reflexivity.
Defined.

(** The run of [main] on the one-line declaration, with the option
    [ColumnLimit]. *)
Abbreviation wide_main :=
  (main Sample.dumpDir Sample.ext
     (Sample.clang_format Sample.columnLimit_table) Sample.diff_u
     Sample.json_dumps Sample.yaml_dump
     [Sample.wide_source] [Sample.columnLimit_option]).

Definition wide_inputSC : InputSourceCode :=
  mkInput "input.c" ["input.c"] 2 true.

Definition wide_start : state :=
  mkState {[ [] := Dir; ["input.c"] := File (Sample.wide_source +:+ nl) ]}
    [[]] 0 true [].

Abbreviation wide_experiment :=
  (experimentForOption Sample.dumpDir Sample.ext
     (Sample.clang_format Sample.columnLimit_table) Sample.diff_u
     Sample.json_dumps Sample.yaml_dump
     wide_inputSC 0 "ColumnLimit" [Bare "16"; Bare "8"]
     (numLines wide_inputSC * 4) wide_start).

(** C7, as stated, fails: the sample has two lines, so the first
    [prevScore] is [8]; the two values of the first option score [10] and
    [11], and the option is ignored although the scores differ. *)
Lemma C7_counterexample :
  (inputSC ← InputSourceCode_init Sample.ext [Sample.wide_source];
   FileCache_init inputSC;;
   baseStyle ← alloc [];
   mret (inputSC, baseStyle)) (init_state ∅) = Ok (wide_inputSC, 0) wide_start
  ∧ numLines wide_inputSC * 4 = 8
  ∧ wide_experiment = Ok (0, 10) (outcome_state wide_experiment)
  ∧ scoreValues (outcome_state wide_experiment) ["16"; "8"]
    = [(10, "16"); (11, "8")]
  ∧ (8 ≤ 10)%nat
  ∧ heap (outcome_state wide_experiment) !! 0 = Some []
  ∧ wide_main (init_state ∅)
    = Ok ("{}" +:+ nl) (outcome_state (wide_main (init_state ∅))).
Proof. vm_compute. split_and!; (reflexivity || lia). Qed.

Lemma wide_main_run :
  wide_main (init_state ∅)
  = Ok ("{}" +:+ nl) (outcome_state (wide_main (init_state ∅))).
Proof. vm_compute. reflexivity. Qed.

Lemma C7_initial_threshold_witness :
  ∃ inputSC sa r s2 names w i p dfinal,
    InputSourceCode_init Sample.ext [Sample.wide_source] (init_state ∅)
    = Ok inputSC sa
    ∧ numLines inputSC = length (allLines [Sample.wide_source])
    ∧ experimentForOption Sample.dumpDir Sample.ext
        (Sample.clang_format Sample.columnLimit_table) Sample.diff_u
        Sample.json_dumps Sample.yaml_dump
        inputSC (length (heap (init_state ∅))) "ColumnLimit"
        [Bare "16"; Bare "8"] (length (allLines [Sample.wide_source]) * 4)
        (set_heap (heap (init_state ∅) ++ [[]])
           (set_dirty (dirty inputSC) (set_iter 0 sa)))
      = Ok r s2
    ∧ resolveValues "ColumnLimit" [Bare "16"; Bare "8"] [] = Some names
    ∧ dict_keys names !! i = Some w
    ∧ r.2 = diffVal s2 w
    ∧ (∀ v, v ∈ dict_keys names → (r.2 ≤ diffVal s2 v)%nat)
    ∧ (∀ j v, (j < i)%nat → dict_keys names !! j = Some v →
              (r.2 < diffVal s2 v)%nat)
    ∧ ((∀ v, v ∈ dict_keys names → diffVal s2 v = r.2)
       ∨ (length (allLines [Sample.wide_source]) * 4 ≤ r.2)%nat →
       heap s2 !! length (heap (init_state ∅)) = Some [])
    ∧ ((∃ v, v ∈ dict_keys names ∧ diffVal s2 v ≠ r.2) →
       (r.2 < length (allLines [Sample.wide_source]) * 4)%nat →
       heap s2 !! length (heap (init_state ∅)) = Some [("ColumnLimit", w)])
    ∧ main_loop Sample.dumpDir Sample.ext
        (Sample.clang_format Sample.columnLimit_table) Sample.diff_u
        Sample.json_dumps Sample.yaml_dump
        inputSC (length (heap (init_state ∅))) [] r.2 s2
      = Ok p (outcome_state (wide_main (init_state ∅)))
    ∧ heap (outcome_state (wide_main (init_state ∅)))
        !! length (heap (init_state ∅)) = Some dfinal
    ∧ "{}" +:+ nl = Sample.yaml_dump dfinal.
Proof.
  exact (C7_initial_threshold Sample.dumpDir Sample.ext
           (Sample.clang_format Sample.columnLimit_table) Sample.diff_u
           Sample.json_dumps Sample.yaml_dump
           [Sample.wide_source] "ColumnLimit" [Bare "16"; Bare "8"] [] []
           (init_state ∅) ("{}" +:+ nl)
           (outcome_state (wide_main (init_state ∅)))
           wide_main_run).
Defined.

(** Two runs of [main] on the one-line source, with the option [UseTab]:
    the first on an empty dump directory, the second on what the first
    left. *)
Abbreviation useTab_main :=
  (main Sample.dumpDir Sample.ext
     (Sample.clang_format Sample.useTab_table) Sample.diff_u
     Sample.json_dumps Sample.yaml_dump
     [Sample.source] [Sample.useTab_option]).

Abbreviation useTab_first := (outcome_state (useTab_main (init_state ∅))).

Abbreviation useTab_second :=
  (outcome_state (useTab_main (init_state (fs useTab_first)))).

Lemma useTab_main_run :
  useTab_main (init_state ∅) = Ok ("UseTab: Never" +:+ nl) useTab_first.
Proof. vm_compute. reflexivity. Qed.

(** C4, as stated, fails: the input and the options are the same and the
    first run has filled the cache, yet the second run starts a diff, for
    the value whose formatted file equals the sample: its diff file is
    empty, and an empty file does not count as cached. *)
Lemma C4_counterexample :
  useTab_main (init_state ∅) = Ok ("UseTab: Never" +:+ nl) useTab_first
  ∧ useTab_main (init_state (fs useTab_first))
    = Ok ("UseTab: Never" +:+ nl) useTab_second
  ∧ file_content (fs useTab_first) (getDiffFilename 1 "Never") = Some ""
  ∧ trace useTab_second = [EvDiff (getDiffFilename 1 "Never")].
Proof. vm_compute. done. Qed.

Lemma C4_second_run_witness :
  ∃ s2 tr,
    useTab_main (init_state (fs useTab_first))
    = Ok ("UseTab: Never" +:+ nl) s2
    ∧ fs s2 = fs useTab_first
    ∧ trace s2 = trace (init_state (fs useTab_first)) ++ tr
    ∧ Forall (λ e, ∃ p, e = EvDiff p
                        ∧ nonempty_at (fs useTab_first) p = false) tr.
Proof.
  apply (C4_second_run Sample.dumpDir Sample.ext
           (Sample.clang_format Sample.useTab_table) Sample.diff_u
           Sample.json_dumps Sample.yaml_dump
           [Sample.source] [Sample.useTab_option]
           (init_state ∅) ("UseTab: Never" +:+ nl) useTab_first
           (init_state (fs useTab_first))).
  - repeat constructor.
  - exact useTab_main_run.
  - reflexivity.
Defined.

Lemma C10_final_style_witness :
  "UseTab: Never" +:+ nl
  = Sample.yaml_dump
      (spec_accumulate [] (length (allLines [Sample.source]) * 4)
         (score_records (fs useTab_first) 0 [Sample.useTab_option])).
Proof.
  exact (C10_final_style Sample.dumpDir Sample.ext
           (Sample.clang_format Sample.useTab_table) Sample.diff_u
           Sample.json_dumps Sample.yaml_dump
           [Sample.source] [Sample.useTab_option]
           (init_state ∅) ("UseTab: Never" +:+ nl) useTab_first
           useTab_main_run).
Defined.

(** * Sample runs for the further properties *)

(** The value that a computation returns, if it returns. *)
Definition returned {A} (o : outcome A) : option A :=
  match o with
  | Ok a _ => Some a
  | Raise _ _ => None
  end.

Lemma returned_Ok {A} (o : outcome A) (a : A) :
  returned o = Some a → o = Ok a (outcome_state o).
Proof. destruct o; simpl; congruence. Qed.

(** Two input files: the first ends its line with a carriage return and
    a line feed, the second has no final newline. *)
Abbreviation two_files := ["int x;" +:+ String cr nl; "int y;"].

Abbreviation two_files_init :=
  (InputSourceCode_init Sample.ext two_files (init_state ∅)).

Definition two_files_inputSC : InputSourceCode :=
  mkInput "input.c" ["input.c"] 4 true.

Lemma two_files_init_run :
  two_files_init = Ok two_files_inputSC (outcome_state two_files_init).
Proof. apply returned_Ok. vm_compute. reflexivity. Qed.

Lemma InputSourceCode_sample_text_witness :
  file_content (fs (outcome_state two_files_init)) (absPath two_files_inputSC)
  = Some (join ((λ c, universal_newlines c +:+ nl) <$> two_files))
  ∧ numLines two_files_inputSC
    = sum_list ((λ c, length (readlines (universal_newlines c))) <$> two_files)
      + length two_files.
Proof.
  exact (InputSourceCode_sample_text Sample.ext two_files (init_state ∅)
           two_files_inputSC (outcome_state two_files_init)
           two_files_init_run).
Defined.

Lemma InputSourceCode_dirty_on_restart_witness :
  ∃ inputSC',
    InputSourceCode_init Sample.ext two_files
      (init_state (fs (outcome_state two_files_init)))
    = Ok inputSC' (init_state (fs (outcome_state two_files_init)))
    ∧ numLines inputSC' = numLines two_files_inputSC
    ∧ dirty inputSC'
      = negb (forallb (λ c, newline_terminated (universal_newlines c))
                two_files).
Proof.
  apply (InputSourceCode_dirty_on_restart Sample.ext two_files (init_state ∅)
           two_files_inputSC (outcome_state two_files_init)
           (init_state (fs (outcome_state two_files_init)))).
  - exact two_files_init_run.
  - reflexivity.
Defined.

(** A dump directory that an earlier run with two options and a user
    have left: a second iteration folder with its signature, and a file of
    notes. *)
Definition leftover_start : state :=
  init_state
    {[ [] := Dir; ["notes.txt"] := File "keep";
       ["iter2"] := Dir; ["iter2"; "key"] := File "ColumnLimit" ]}.

Lemma leftover_main_run :
  useTab_main leftover_start
  = Ok ("UseTab: Never" +:+ nl) (outcome_state (useTab_main leftover_start)).
Proof. apply returned_Ok. vm_compute. reflexivity. Qed.

Lemma main_changes_only_its_folders_witness :
  fs leftover_start !! ["iter2"; "key"] = Some (File "ColumnLimit")
  ∧ fs (outcome_state (useTab_main leftover_start)) !! ["iter2"; "key"]
    = fs leftover_start !! ["iter2"; "key"].
Proof.
  split; [vm_compute; reflexivity|].
  apply (main_changes_only_its_folders Sample.dumpDir Sample.ext
           (Sample.clang_format Sample.useTab_table) Sample.diff_u
           Sample.json_dumps Sample.yaml_dump
           [Sample.source] [Sample.useTab_option]
           leftover_start ("UseTab: Never" +:+ nl)
           (outcome_state (useTab_main leftover_start))
           ["iter2"; "key"]).
  - exact leftover_main_run.
  - discriminate.
  - discriminate.
  - intros k Hk. assert (k = 1) as -> by (simpl in Hk; lia).
    intros [q Hq]. vm_compute in Hq. discriminate Hq.
Defined.

Lemma main_cache_layout_witness :
  ∃ names,
    resolveValues "UseTab" [Bare "Never"; Bare "Always"] [] = Some names
    ∧ file_content (fs useTab_first) (getFullFilename 1 "key") = Some "UseTab"
    ∧ ∀ v, v ∈ dict_keys names →
        is_Some (fs useTab_first !! getValueDir 1 v)
        ∧ nonempty_at (fs useTab_first) (getFmtFilename Sample.ext 1 v) = true.
Proof.
  apply (main_cache_layout Sample.dumpDir Sample.ext
           (Sample.clang_format Sample.useTab_table) Sample.diff_u
           Sample.json_dumps Sample.yaml_dump
           [Sample.source] [Sample.useTab_option]
           (init_state ∅) ("UseTab: Never" +:+ nl) useTab_first
           0 "UseTab" [Bare "Never"; Bare "Always"] []).
  - exact useTab_main_run.
  - reflexivity.
Defined.

Lemma experimentForOption_processes_witness :
  ∃ names vs ws,
    resolveValues "UseTab" [Bare "Never"; Bare "Always"] [] = Some names
    ∧ NoDup (dict_keys names)
    ∧ sublist vs (dict_keys names)
    ∧ sublist ws (dict_keys names)
    ∧ trace (outcome_state (sample_experiment 8 sample_start)) =
        trace sample_start
        ++ (EvFormat ∘ getValueDir (S (cache_iter sample_start)) <$> vs)
        ++ (EvDiff ∘ getDiffFilename (S (cache_iter sample_start)) <$> ws).
Proof.
  exact (experimentForOption_processes Sample.dumpDir Sample.ext
           (Sample.clang_format Sample.useTab_table) Sample.diff_u
           Sample.json_dumps Sample.yaml_dump
           sample_inputSC 0 "UseTab" [Bare "Never"; Bare "Always"] 8
           sample_start (0, 0)
           (outcome_state (sample_experiment 8 sample_start))
           sample_experiment_run).
Defined.

(** An option without values, on the sample. *)
Abbreviation empty_start :=
  (startIteration Sample.json_dumps "UseTab" 0 [] sample_start).

Lemma empty_start_run : empty_start = Ok tt (outcome_state empty_start).
Proof. apply returned_Ok. vm_compute. reflexivity. Qed.

Lemma experimentForOption_no_values_witness :
  experimentForOption Sample.dumpDir Sample.ext
    (Sample.clang_format Sample.useTab_table) Sample.diff_u
    Sample.json_dumps Sample.yaml_dump sample_inputSC 0 "UseTab" [] 8
    sample_start
  = Raise IndexError (outcome_state empty_start).
Proof.
  exact (experimentForOption_no_values Sample.dumpDir Sample.ext
           (Sample.clang_format Sample.useTab_table) Sample.diff_u
           Sample.json_dumps Sample.yaml_dump sample_inputSC 0 "UseTab" 8
           sample_start tt (outcome_state empty_start) empty_start_run).
Defined.

Lemma experimentForOption_empty_mapping_witness :
  experimentForOption Sample.dumpDir Sample.ext
    (Sample.clang_format Sample.useTab_table) Sample.diff_u
    Sample.json_dumps Sample.yaml_dump sample_inputSC 0 "UseTab"
    [Bare "Never"; Alias []] 8 sample_start
  = Raise IndexError sample_start.
Proof.
  apply (experimentForOption_empty_mapping Sample.dumpDir Sample.ext
           (Sample.clang_format Sample.useTab_table) Sample.diff_u
           Sample.json_dumps Sample.yaml_dump sample_inputSC 0 "UseTab"
           [Bare "Never"; Alias []] 8 sample_start).
  apply elem_of_cons. right. apply elem_of_cons. by left.
Defined.

(** A name given twice: as a bare value, then as an alias with two
    settings. *)
Abbreviation twice_named :=
  [Bare "Never";
   Alias [("Never", [("UseTab", "Never"); ("TabWidth", "8")])];
   Bare "Always"].

Lemma resolveValues_names_witness :
  NoDup (dict_keys [("Never", [("UseTab", "Never"); ("TabWidth", "8")]);
                    ("Always", [("UseTab", "Always")])])
  ∧ (∀ x, x ∈ dict_keys [("Never", [("UseTab", "Never"); ("TabWidth", "8")]);
                         ("Always", [("UseTab", "Always")])] ↔
          ∃ c st, c ∈ twice_named
                  ∧ candidate_entry "UseTab" c = Some (x, st))
  ∧ (∀ pre c post x st,
       twice_named = pre ++ c :: post →
       candidate_entry "UseTab" c = Some (x, st) →
       (∀ c' st', c' ∈ post → candidate_entry "UseTab" c' ≠ Some (x, st')) →
       dict_get [("Never", [("UseTab", "Never"); ("TabWidth", "8")]);
                 ("Always", [("UseTab", "Always")])] x = Some st).
Proof.
  apply (resolveValues_names "UseTab" twice_named
           [("Never", [("UseTab", "Never"); ("TabWidth", "8")]);
            ("Always", [("UseTab", "Always")])]).
  vm_compute. reflexivity.
Defined.

(** The option [UseTab] with the single candidate [Always]. *)
Abbreviation single_experiment :=
  (experimentForOption Sample.dumpDir Sample.ext
    (Sample.clang_format Sample.useTab_table) Sample.diff_u
    Sample.json_dumps Sample.yaml_dump
    sample_inputSC 0 "UseTab" [Bare "Always"] 8 sample_start).

Lemma single_experiment_run :
  single_experiment = Ok (0, 5) (outcome_state single_experiment).
Proof. apply returned_Ok. vm_compute. reflexivity. Qed.

Lemma single_candidate_is_ignored_witness :
  heap (outcome_state single_experiment) !! 0 = heap sample_start !! 0.
Proof.
  exact (single_candidate_is_ignored Sample.dumpDir Sample.ext
           (Sample.clang_format Sample.useTab_table) Sample.diff_u
           Sample.json_dumps Sample.yaml_dump
           sample_inputSC 0 "UseTab" (Bare "Always") 8 sample_start (0, 5)
           (outcome_state single_experiment) single_experiment_run).
Defined.

(** A dump directory in which [iter1] is a regular file. *)
Definition blocked_start : state :=
  mkState {[ [] := Dir; iterDir 1 := File "notes" ]} [[]] 0 false [].

Lemma startIteration_folder_is_file_witness :
  raises (startIteration Sample.json_dumps "UseTab" 0 ["Never"; "Always"])
    blocked_start.
Proof.
  apply (startIteration_folder_is_file Sample.json_dumps "UseTab" 0
           ["Never"; "Always"] blocked_start).
  vm_compute. reflexivity.
Defined.

Lemma sample_inputSC_wf : wf_input sample_inputSC.
Proof.
  exists "input.c". split; [reflexivity|].
  intros k Hk. vm_compute in Hk. discriminate Hk.
Qed.

Lemma sample_experiment_dirty :
  cache_dirty (outcome_state (sample_experiment 8 sample_start)) = true.
Proof. vm_compute. reflexivity. Qed.

Lemma sample_one_word_paths names :
  resolveValues "UseTab" [Bare "Never"; Bare "Always"] [] = Some names →
  one_word_paths Sample.dumpDir Sample.ext Sample.workDir (dict_keys names).
Proof.
  intros [= <-]. split_and!; [vm_compute; reflexivity..|].
  repeat constructor.
Qed.

Lemma experimentForOption_fresh_iteration_witness :
  ∃ names d,
    resolveValues "UseTab" [Bare "Never"; Bare "Always"] [] = Some names
    ∧ heap sample_start !! 0 = Some d
    ∧ trace (outcome_state (sample_experiment 8 sample_start)) =
        trace sample_start
        ++ (EvFormat ∘ getValueDir (S (cache_iter sample_start))
              <$> dict_keys names)
        ++ (EvDiff ∘ getDiffFilename (S (cache_iter sample_start))
              <$> dict_keys names)
    ∧ ∀ v vd, (v, vd) ∈ names →
        file_content (fs (outcome_state (sample_experiment 8 sample_start)))
          (getStyleFilename (S (cache_iter sample_start)) v)
        = Some (Sample.yaml_dump (dict_update d vd))
        ∧ file_content (fs (outcome_state (sample_experiment 8 sample_start)))
            (getFmtFilename Sample.ext (S (cache_iter sample_start)) v)
          = Some (formatted_under
                    (Sample.clang_format Sample.useTab_table)
                    Sample.yaml_dump sample_inputSC (fs sample_start)
                    (dict_update d vd))
        ∧ file_content (fs (outcome_state (sample_experiment 8 sample_start)))
            (getDiffFilename (S (cache_iter sample_start)) v)
          = Some (match file_content (fs sample_start)
                          (absPath sample_inputSC) with
                  | Some a =>
                      Sample.diff_u a
                        (formatted_under
                           (Sample.clang_format Sample.useTab_table)
                           Sample.yaml_dump sample_inputSC (fs sample_start)
                           (dict_update d vd))
                  | None => ""
                  end).
Proof.
  apply (experimentForOption_fresh_iteration Sample.dumpDir Sample.ext
           Sample.workDir
           (Sample.clang_format Sample.useTab_table) Sample.diff_u
           Sample.json_dumps Sample.yaml_dump
           sample_inputSC 0 "UseTab" [Bare "Never"; Bare "Always"] 8
           sample_start (0, 0)
           (outcome_state (sample_experiment 8 sample_start))).
  - exact sample_inputSC_wf.
  - discriminate.
  - exact sample_one_word_paths.
  - exact sample_experiment_run.
  - exact sample_experiment_dirty.
Defined.

Lemma experimentForOption_fresh_score_witness :
  ∃ names d,
    resolveValues "UseTab" [Bare "Never"; Bare "Always"] [] = Some names
    ∧ heap sample_start !! 0 = Some d
    ∧ (∃ v vd, (v, vd) ∈ names
               ∧ (0, 0).2
                 = score_under (Sample.clang_format Sample.useTab_table)
                     Sample.diff_u Sample.yaml_dump sample_inputSC
                     (fs sample_start) (dict_update d vd))
    ∧ (∀ v vd, (v, vd) ∈ names →
               ((0, 0).2
                ≤ score_under (Sample.clang_format Sample.useTab_table)
                    Sample.diff_u Sample.yaml_dump sample_inputSC
                    (fs sample_start) (dict_update d vd))%nat).
Proof.
  apply (experimentForOption_fresh_score Sample.dumpDir Sample.ext
           Sample.workDir
           (Sample.clang_format Sample.useTab_table) Sample.diff_u
           Sample.json_dumps Sample.yaml_dump
           sample_inputSC 0 "UseTab" [Bare "Never"; Bare "Always"] 8
           sample_start (0, 0)
           (outcome_state (sample_experiment 8 sample_start))).
  - exact sample_inputSC_wf.
  - discriminate.
  - exact sample_one_word_paths.
  - exact sample_experiment_run.
  - exact sample_experiment_dirty.
Defined.

Lemma main_recomputes_on_changed_sample_witness :
  trace useTab_first
  = trace (init_state ∅) ++ all_processes 0 [Sample.useTab_option].
Proof.
  apply (main_recomputes_on_changed_sample Sample.dumpDir Sample.ext
           (Sample.clang_format Sample.useTab_table) Sample.diff_u
           Sample.json_dumps Sample.yaml_dump
           [Sample.source] [Sample.useTab_option]
           (init_state ∅) ("UseTab: Never" +:+ nl) useTab_first).
  - discriminate.
  - exact useTab_main_run.
  - vm_compute. discriminate.
Defined.

(** The option [UseTab] once more, on the directory that the first
    experiment left: the signature is valid, the diff of [Never] is
    empty. *)
Definition cached_start : state :=
  mkState (fs (outcome_state (sample_experiment 8 sample_start)))
    [[]] 0 false [].

Abbreviation cached_experiment :=
  (experimentForOption Sample.dumpDir Sample.ext
    (Sample.clang_format Sample.useTab_table) Sample.diff_u
    Sample.json_dumps Sample.yaml_dump
    sample_inputSC 0 "UseTab" [Bare "Never"; Bare "Always"] 8 cached_start).

Lemma cached_experiment_run :
  cached_experiment = Ok (0, 0) (outcome_state cached_experiment).
Proof. apply returned_Ok. vm_compute. reflexivity. Qed.

Lemma cached_experiment_clean :
  cache_dirty (outcome_state cached_experiment) = false.
Proof. vm_compute. reflexivity. Qed.

Lemma experimentForOption_recomputes_what_is_missing_witness :
  ∃ names,
    resolveValues "UseTab" [Bare "Never"; Bare "Always"] [] = Some names
    ∧ trace (outcome_state cached_experiment) =
        trace cached_start
        ++ (EvFormat ∘ getValueDir (S (cache_iter cached_start))
              <$> filter (λ v, nonempty_at (fs cached_start)
                                 (getFmtFilename Sample.ext
                                    (S (cache_iter cached_start)) v) = false)
                    (dict_keys names))
        ++ (EvDiff ∘ getDiffFilename (S (cache_iter cached_start))
              <$> filter (λ v, nonempty_at (fs cached_start)
                                 (getDiffFilename
                                    (S (cache_iter cached_start)) v) = false)
                    (dict_keys names)).
Proof.
  apply (experimentForOption_recomputes_what_is_missing Sample.dumpDir
           Sample.ext (Sample.clang_format Sample.useTab_table) Sample.diff_u
           Sample.json_dumps Sample.yaml_dump
           sample_inputSC 0 "UseTab" [Bare "Never"; Bare "Always"] 8
           cached_start (0, 0) (outcome_state cached_experiment)).
  - discriminate.
  - exact cached_experiment_run.
  - exact cached_experiment_clean.
Defined.

(** The start of the iteration for [UseTab] on the sample, and a clean
    cache on the directory that it left. *)
Abbreviation first_start :=
  (startIteration Sample.json_dumps "UseTab" 0 ["Never"; "Always"]
     sample_start).

Lemma first_start_run : first_start = Ok tt (outcome_state first_start).
Proof. apply returned_Ok. vm_compute. reflexivity. Qed.

Definition restart : state :=
  mkState (fs (outcome_state first_start)) [[]] 0 false [].

Lemma startIteration_again_witness :
  startIteration Sample.json_dumps "UseTab" 0 ["Never"; "Always"] restart
  = Ok tt (set_iter (S (cache_iter restart)) restart).
Proof.
  apply (startIteration_again Sample.json_dumps "UseTab" 0
           ["Never"; "Always"] sample_start tt (outcome_state first_start)
           restart []).
  - exact first_start_run.
  - reflexivity.
  - reflexivity.
  - reflexivity.
  - reflexivity.
  - reflexivity.
Defined.

(** A sample whose extension is [.diff]. *)
Definition patch_inputSC : InputSourceCode :=
  mkInput "input.diff" ["input.diff"] 2 true.

Definition patch_start : state :=
  mkState {[ [] := Dir; ["input.diff"] := File (Sample.source +:+ nl) ]}
    [[]] 0 true [].

Abbreviation patch_experiment :=
  (experimentForOption Sample.dumpDir ".diff"
    (Sample.clang_format Sample.useTab_table) Sample.diff_u
    Sample.json_dumps Sample.yaml_dump
    patch_inputSC 0 "UseTab" [Bare "Never"; Bare "Always"] 8 patch_start).

Lemma patch_experiment_run :
  patch_experiment = Ok (0, 0) (outcome_state patch_experiment).
Proof. apply returned_Ok. vm_compute. reflexivity. Qed.

Lemma diff_extension_starts_no_diff_witness :
  ∃ names vs,
    resolveValues "UseTab" [Bare "Never"; Bare "Always"] [] = Some names
    ∧ sublist vs (dict_keys names)
    ∧ trace (outcome_state patch_experiment) =
        trace patch_start
        ++ (EvFormat ∘ getValueDir (S (cache_iter patch_start)) <$> vs)
    ∧ ∀ v, diffVal (outcome_state patch_experiment) v
           = match file_content (fs (outcome_state patch_experiment))
                     (getFmtFilename ".diff" (S (cache_iter patch_start)) v)
             with
             | Some text => grep_count text
             | None => 0
             end.
Proof.
  apply (diff_extension_starts_no_diff Sample.dumpDir ".diff"
           (Sample.clang_format Sample.useTab_table) Sample.diff_u
           Sample.json_dumps Sample.yaml_dump
           patch_inputSC 0 "UseTab" [Bare "Never"; Bare "Always"] 8
           patch_start (0, 0) (outcome_state patch_experiment)).
  - reflexivity.
  - exact patch_experiment_run.
Defined.

Lemma experimentForOption_accepts_iff_witness :
  ∃ names d dec,
    resolveValues "UseTab" [Bare "Never"; Bare "Always"] [] = Some names
    ∧ heap sample_start !! 0 = Some d
    ∧ decide_option
        (scoreValues (outcome_state (sample_experiment 8 sample_start))
           (dict_keys names)) (numLines sample_inputSC) 8 = Some dec
    ∧ (ignore dec = false ↔
       ((0, 0).2 < 8)%nat
       ∧ ∃ v w, v ∈ dict_keys names ∧ w ∈ dict_keys names
                ∧ diffVal (outcome_state (sample_experiment 8 sample_start)) v
                  ≠ diffVal (outcome_state (sample_experiment 8 sample_start)) w)
    ∧ heap (outcome_state (sample_experiment 8 sample_start)) !! 0
      = Some (if ignore dec then d else dict_set d "UseTab" (winner dec)).
Proof.
  exact (experimentForOption_accepts_iff Sample.dumpDir Sample.ext
           (Sample.clang_format Sample.useTab_table) Sample.diff_u
           Sample.json_dumps Sample.yaml_dump
           sample_inputSC 0 "UseTab" [Bare "Never"; Bare "Always"] 8
           sample_start (0, 0)
           (outcome_state (sample_experiment 8 sample_start))
           sample_experiment_run).
Defined.

(** The option [UseTab] tried on a base style that already has a key,
    with a second dict object in the store; with tabs the formatter
    indents the line. *)
Definition indent_table : pydict string :=
  [(Sample.yaml_dump [("IndentWidth", "4"); ("UseTab", "Always")],
    String "009"%char ("int x;" +:+ nl))].

Definition shared_start : state :=
  mkState {[ [] := Dir; ["input.c"] := File (Sample.source +:+ nl) ]}
    [[("IndentWidth", "4")]; [("BasedOnStyle", "LLVM")]] 0 true [].

Abbreviation shared_experiment :=
  (experimentForOption Sample.dumpDir Sample.ext
    (Sample.clang_format indent_table) Sample.diff_u
    Sample.json_dumps Sample.yaml_dump
    sample_inputSC 0 "UseTab" [Bare "Never"; Bare "Always"] 8 shared_start).

Lemma shared_experiment_run :
  shared_experiment = Ok (0, 0) (outcome_state shared_experiment).
Proof. apply returned_Ok. vm_compute. reflexivity. Qed.

Lemma experimentForOption_store_frame_witness :
  heap shared_start !! 1 = Some [("BasedOnStyle", "LLVM")]
  ∧ heap (outcome_state shared_experiment) !! 0
    = Some [("IndentWidth", "4"); ("UseTab", "Never")]
  ∧ (∀ l d, l ≠ 0 → heap shared_start !! l = Some d →
            heap (outcome_state shared_experiment) !! l = Some d)
  ∧ ∃ d d', heap shared_start !! 0 = Some d
            ∧ heap (outcome_state shared_experiment) !! 0 = Some d'
            ∧ ∀ k, k ≠ "UseTab" → dict_get d' k = dict_get d k.
Proof.
  split; [reflexivity|]. split; [vm_compute; reflexivity|].
  exact (experimentForOption_store_frame Sample.dumpDir Sample.ext
           (Sample.clang_format indent_table) Sample.diff_u
           Sample.json_dumps Sample.yaml_dump
           sample_inputSC 0 "UseTab" [Bare "Never"; Bare "Always"] 8
           shared_start (0, 0) (outcome_state shared_experiment)
           shared_experiment_run).
Defined.
